(** * Endpoint inference and spec reconciliation: a shallow embedding

    The development follows the backend services of the repository:

    - [Generalizer]: the statistical path generalizer
      ([getCounterMap], [getDistinctPaths], [getTopSuggestedPaths]);
    - [LogRequest]: the trace-logging service with its backpressure check
      ([logRequest], [logRequestBatch]);
    - [SpecDiff]: the trace-versus-contract diff ([findOpenApiSpecDiff]);
    - [Resolver]: endpoint identity resolution and the merge executor
      ([uploadNewSpec], [generateEndpointsMap], [updateEndpointsFromMap]).

    Numbers are IEEE 754 binary64 values, as the Standard Library specifies
    them ([JSNum]).  A JavaScript object is represented by its own
    properties: an association list in insertion order where the order of
    the keys is observable ([JSObj]), a finite map where it is not.  Where
    a key is text that a client chooses (a path token, a header name, a
    placeholder name), reading and assigning take into account the
    properties that every object inherits ([ObjectPrototype],
    [PlainObject]).  The clock and the UUID generator are inputs.
    Functions that the services import from modules outside the verified
    files are parameters of the model. *)

From Stdlib Require Import ZArith Lia Bool Ascii String SpecFloat.
From stdpp Require Import gmap strings list pretty sorting.

Open Scope string_scope.
Open Scope nat_scope.
Open Scope list_scope.

(** ** JavaScript numbers

    A number is a double: [spec_float] with a mantissa of 53 bits and the
    exponent 1024 for the infinities, the operations rounding to the
    nearest double, ties to even.  An integer below 2^53, such as the
    length of an array or a count, is a double. *)
Module JSNum.

Definition prec : Z := 53.
Definition emax : Z := 1024.

Definition num : Type := spec_float.

Definition NaN : num := S754_nan.
Definition zero : num := S754_zero false.

Definition ofNat (n : nat) : num :=
  binary_normalize prec emax (Z.of_nat n) 0 false.

Definition add (a b : num) : num := SFadd prec emax a b.
Definition div (a b : num) : num := SFdiv prec emax a b.

(** [a < b]; every comparison with [NaN] is false. *)
Definition lt (a b : num) : bool := SFltb a b.
Definition gt (a b : num) : bool := lt b a.

(** [!a] is true exactly for the two zeros and [NaN]. *)
Definition falsy (a : num) : bool :=
  match a with
  | S754_zero _ | S754_nan => true
  | S754_infinity _ | S754_finite _ _ _ => false
  end.

End JSNum.

(** ** The properties that every object inherits

    An object written [{}] has the prototype [Object.prototype].  Reading
    a key that the object does not own gives the property of the prototype
    with that name when there is one: a function, or for [__proto__] the
    prototype itself.  Assigning to such a key makes an own property,
    except for [__proto__]: its setter replaces the prototype when it is
    given an object or [null], and does nothing when it is given a
    primitive value. *)
Module ObjectPrototype.

Definition propertyNames : list string :=
  ["constructor"; "__defineGetter__"; "__defineSetter__"; "hasOwnProperty";
   "__lookupGetter__"; "__lookupSetter__"; "isPrototypeOf";
   "propertyIsEnumerable"; "toString"; "valueOf"; "__proto__";
   "toLocaleString"].

Definition has (key : string) : bool :=
  existsb (String.eqb key) propertyNames.

End ObjectPrototype.

(** ** Insertion-ordered objects

    The own properties of an object.  A JavaScript object with string
    keys that are not canonical array indices enumerates its own keys in
    insertion order; assigning to an existing key keeps the key's
    position.  Where the order of the keys is used below, every key is a
    UUID or a path template, never an array index. *)
Module JSObj.
Section Obj.
Context {V : Type}.

Definition obj : Type := list (string * V).

Fixpoint get (o : obj) (k : string) : option V :=
  match o with
  | [] => None
  | (k', v) :: rest => if String.eqb k' k then Some v else get rest k
  end.

Fixpoint set (o : obj) (k : string) (v : V) : obj :=
  match o with
  | [] => [(k, v)]
  | (k', v') :: rest =>
      if String.eqb k' k then (k', v) :: rest else (k', v') :: set rest k v
  end.

Fixpoint del (o : obj) (k : string) : obj :=
  match o with
  | [] => []
  | (k', v') :: rest =>
      if String.eqb k' k then rest else (k', v') :: del rest k
  end.

Definition has (o : obj) (k : string) : bool :=
  match get o k with Some _ => true | None => false end.

Definition keys (o : obj) : list string := map fst o.
Definition values (o : obj) : list V := map snd o.
End Obj.
Arguments obj : clear implicits.
End JSObj.

(** ** Objects filled by assignment

    An object written [{}] and filled by [o[key] = v] with values that
    are data (texts, numbers, parsed JSON): its own properties and its
    prototype, [None] standing for [Object.prototype].

    Every property on the prototype chain of such an object is a writable
    data property, except the accessor [__proto__] of [Object.prototype]:
    an assignment makes or updates an own property, unless the key is
    [__proto__], the object has no own property of that name, and the
    accessor is the first property of that name on the chain.  Then the
    setter runs: it installs an object or [null] as the prototype and
    ignores a primitive value.  The accessor is reached through a
    replaced prototype when that is an object without an own property
    [__proto__]; it is not reached through [null]. *)
Module PlainObject.

(** What the setter and the lookup need to know of a value: whether it is
    a primitive, [null], or an object, and for an object whether it has
    an own property named [__proto__]. *)
Inductive kind : Type :=
  | Primitive
  | Null
  | Object (ownsProto : bool).

Section Plain.
Context {V : Type}.

Record t : Type := {
  own : JSObj.obj V;
  proto : option V
}.

Definition empty : t := {| own := []; proto := None |}.

Definition setterReached (kindOf : V -> kind) (o : t) : bool :=
  negb (JSObj.has (own o) "__proto__")
  && match proto o with
     | None => true
     | Some p =>
         match kindOf p with
         | Object false => true
         | Object true | Null | Primitive => false
         end
     end.

Definition assign (kindOf : V -> kind) (o : t) (key : string) (v : V) : t :=
  if String.eqb key "__proto__" && setterReached kindOf o
  then match kindOf v with
       | Primitive => o
       | Null | Object _ => {| own := own o; proto := Some v |}
       end
  else {| own := JSObj.set (own o) key v; proto := proto o |}.
End Plain.
Arguments t : clear implicits.
End PlainObject.

(** ** Stable sort with a JavaScript comparator

    The stable sort by insertion.  [comesFirst y x] says that the
    comparator asks for [y] strictly before [x]; an element moves past
    another one only then.  It is the order that a query returns for its
    [order] option, and one of the orders that [Array.prototype.sort] may
    produce. *)
Section StableSort.
Context {A : Type} (comesFirst : A -> A -> bool).

Fixpoint insertSorted (x : A) (l : list A) : list A :=
  match l with
  | [] => [x]
  | y :: rest =>
      if comesFirst y x then y :: insertSorted x rest else x :: y :: rest
  end.

Definition stableSort (l : list A) : list A :=
  foldr insertSorted [] l.
End StableSort.

(** ** Path utilities

    The tokenizer, the placeholder test and the pattern compiler live in
    the shared utility modules of the repository, which the services below
    import.  The services are verified for every implementation of them;
    the definitions of this module are used where a concrete one is called
    for. *)
Module PathUtils.

Fixpoint splitOn (sep : ascii) (s : string) (cur : string) : list string :=
  match s with
  | EmptyString => [cur]
  | String c rest =>
      if Ascii.eqb c sep then cur :: splitOn sep rest ""
      else splitOn sep rest (cur +:+ String c "")
  end.

(** Modelled from the spec: [getPathTokens] of the shared utilities is
    missing; "turns a literal URL path into an ordered sequence of segment
    tokens", "splitting on the path separator".  The segments are the
    non-empty pieces between separators. *)
Definition getPathTokens (path : string) : list string :=
  filter (fun token => token ≠ "") (splitOn "/" path "").

Definition lastChar (s : string) : option ascii :=
  last (list_ascii_of_string s).

(** Modelled from the spec: [isParameter] of the utilities is missing;
    "true iff the segment is wrapped in the placeholder delimiter syntax
    (e.g., begins with [{] and ends with [}])". *)
Definition isParameter (token : string) : bool :=
  match token with
  | String c _ =>
      Ascii.eqb c "{"
      && match lastChar token with
         | Some d => Ascii.eqb d "}"
         | None => false
         end
  | EmptyString => false
  end.

(** Modelled from the spec: [addNumberParams] of the endpoint model is
    missing; "count of placeholder segments in [path]". *)
Definition numberParams (path : string) : nat :=
  length (filter (fun token => isParameter token = true) (getPathTokens path)).

Fixpoint tokensMatch (pattern literal : list string) : bool :=
  match pattern, literal with
  | [], [] => true
  | p :: ps, l :: ls =>
      (isParameter p || String.eqb p l) && tokensMatch ps ls
  | _, _ => false
  end.

(** Modelled from the spec: [getPathRegex] of the utilities and the
    regular-expression match of the persistence layer are missing; "for
    patterns with identical segment depth as a literal path and where each
    parameter segment matches any non-empty literal segment, reports a
    match".  [matchesPattern pattern path] is [path ~ getPathRegex(pattern)]. *)
Definition matchesPattern (pattern path : string) : bool :=
  tokensMatch (getPathTokens pattern) (getPathTokens path).

End PathUtils.

(** A header or a query parameter. *)
Record PairObject : Type := { name : string; value : string }.

(** ** Observed traces *)
Module ApiTrace.
Record t : Type := mk {
  uuid : string;
  apiEndpointUuid : string;
  path : string;
  createdAt : Z;
  requestParameters : list PairObject;
  requestHeaders : list PairObject;
  requestBody : option string;
  responseStatus : Z;
  responseHeaders : list PairObject;
  responseBody : option string
}.
End ApiTrace.

(** ** The statistical path generalizer *)
Module Generalizer.
Import JSNum.

Definition TRACE_LIMIT : nat := Z.to_nat 10000.

(** The double that the literal [0.1] denotes. *)
Definition THRESHOLD : num := S754_finite false 7205759403792794 (-56).

(** What an own property of [counterMap[pos]] holds: a count, or, once
    [+= 1] has been applied to a function that the object inherits, the
    source text of that function followed by as many digits [1] as there
    were additions. *)
Inductive counterValue : Type :=
| Count (c : nat)
| FunctionText (appended : nat).

Abbreviation counter := (gmap nat (gmap string counterValue)).

(** [Array.prototype.sort] with a comparator: the result is a permutation
    of the array; which one is left to the implementation when the
    comparator is not consistent, as it is not when it returns [NaN] for
    some pairs only. *)
Definition sortContract
    (sort : (string -> string -> bool) -> list string -> list string)
    : Prop :=
  forall comesFirst l, Permutation (sort comesFirst l) l.

Section WithTokenizer.
(** The tokenizer lives in the shared utilities; the generalizer is
    verified for every tokenizer. *)
Variable getPathTokens : string -> list string.

(** [Array.prototype.sort] of the engine; [sort comesFirst l] is
    [l.sort(compare)] for a comparator that asks for [b] strictly before
    [a] exactly when [comesFirst b a]. *)
Variable sort : (string -> string -> bool) -> list string -> list string.

(** The two statements [if (!o[token]) o[token] = 1 else o[token] += 1]
    on the own properties [inner] of [o = counterMap[pos]].  A token that
    the object does not own but inherits reads as a function, which is not
    falsy, and [+= 1] stores the text of the function followed by [1];
    for [__proto__] the text is handed to the setter, which ignores it. *)
Definition increment (token : string) (inner : gmap string counterValue)
    : gmap string counterValue :=
  match inner !! token with
  | Some (Count O) => <[token := Count 1]> inner
  | Some (Count (S c)) => <[token := Count (S (S c))]> inner
  | Some (FunctionText appended) =>
      <[token := FunctionText (S appended)]> inner
  | None =>
      if ObjectPrototype.has token
      then if String.eqb token "__proto__" then inner
           else <[token := FunctionText 1]> inner
      else <[token := Count 1]> inner
  end.

(** One execution of the body of the inner loop of [getCounterMap]. *)
Definition bump (pos : nat) (token : string) (counterMap : counter)
    : counter :=
  let inner := default ∅ (counterMap !! pos) in
  <[pos := increment token inner]> counterMap.

Fixpoint countTokens (counterMap : counter) (i : nat)
    (pathTokens : list string) : counter :=
  match pathTokens with
  | [] => counterMap
  | token :: rest => countTokens (bump i token counterMap) (S i) rest
  end.

Definition getCounterMap (traces : list ApiTrace.t) : counter :=
  fold_left
    (fun counterMap trace =>
       countTokens counterMap 0 (getPathTokens (ApiTrace.path trace)))
    traces ∅.

(** [o[token]] as a number, for the division: a count is itself; the text
    of a function, an inherited function, the prototype and [undefined]
    all convert to [NaN]. *)
Definition counterNumber (inner : gmap string counterValue)
    (token : string) : num :=
  match inner !! token with
  | Some (Count c) => ofNat c
  | Some (FunctionText _) | None => NaN
  end.

(** One execution of the body of the inner loop of [getDistinctPaths]:
    the text appended to [path], the occurrence fraction added to
    [totalPercent], and the next [paramNum].  [None] is the [TypeError]
    of reading a property of [counterMap[pos]] when that is
    [undefined]. *)
Definition renderSegment (counterMap : counter)
    (numTraces : nat) (i : nat) (token : string) (paramNum : nat)
    : option (string * num * nat) :=
  match counterMap !! i with
  | None => None
  | Some inner =>
      let tokenPercentOccurence :=
        div (counterNumber inner token) (ofNat numTraces) in
      Some (if lt tokenPercentOccurence THRESHOLD
            then ("/{param" +:+ pretty paramNum +:+ "}",
                  tokenPercentOccurence, S paramNum)
            else ("/" +:+ token, tokenPercentOccurence, paramNum))
  end.

(** The inner loop of [getDistinctPaths] over the tokens of one trace,
    from index [i] on. *)
Fixpoint renderTokens (counterMap : counter)
    (numTraces : nat) (i : nat) (pathTokens : list string)
    (path : string) (totalPercent : num) (paramNum : nat)
    : option (string * num) :=
  match pathTokens with
  | [] => Some (path, totalPercent)
  | token :: rest =>
      match renderSegment counterMap numTraces i token paramNum with
      | None => None
      | Some (piece, tokenPercentOccurence, paramNum') =>
          renderTokens counterMap numTraces (S i) rest
            (path +:+ piece) (add totalPercent tokenPercentOccurence)
            paramNum'
      end
  end.

(** The body of the outer loop of [getDistinctPaths] for one trace.  The
    key [path] is empty or begins with the separator, so that it names no
    inherited property and [distinctPaths[path]] reads an own property or
    [undefined]. *)
Definition recordTrace (counterMap : counter)
    (numTraces : nat) (distinctPaths : JSObj.obj num) (trace : ApiTrace.t)
    : option (JSObj.obj num) :=
  let pathTokens := getPathTokens (ApiTrace.path trace) in
  let numTokens := length pathTokens in
  match renderTokens counterMap numTraces 0 pathTokens "" zero 1 with
  | None => None
  | Some (path, totalPercent) =>
      let avgTotalPctOccurence := div totalPercent (ofNat numTokens) in
      let replace :=
        match JSObj.get distinctPaths path with
        | None => true
        | Some old => falsy old || gt avgTotalPctOccurence old
        end in
      Some (if replace
            then JSObj.set distinctPaths path avgTotalPctOccurence
            else distinctPaths)
  end.

Fixpoint getDistinctPathsFrom (counterMap : counter)
    (numTraces : nat) (distinctPaths : JSObj.obj num)
    (traces : list ApiTrace.t) : option (JSObj.obj num) :=
  match traces with
  | [] => Some distinctPaths
  | trace :: rest =>
      match recordTrace counterMap numTraces distinctPaths trace with
      | None => None
      | Some distinctPaths' =>
          getDistinctPathsFrom counterMap numTraces distinctPaths' rest
      end
  end.

Definition getDistinctPaths (counterMap : counter)
    (traces : list ApiTrace.t) (numTraces : nat) : option (JSObj.obj num) :=
  getDistinctPathsFrom counterMap numTraces [] traces.

(** [distinctPaths[b] - distinctPaths[a] > 0]: the comparator puts [b]
    strictly before [a].  The difference of two doubles is positive
    exactly when the first is greater than the second, and it is [NaN],
    which the sort takes for "equal", when one of them is [NaN]. *)
Definition confidenceOf (distinctPaths : JSObj.obj num) (k : string) : num :=
  match JSObj.get distinctPaths k with
  | Some v => v
  | None => NaN
  end.

Definition higherConfidence (distinctPaths : JSObj.obj num)
    (b a : string) : bool :=
  gt (confidenceOf distinctPaths b) (confidenceOf distinctPaths a).

(** [getTopSuggestedPaths] on the sample [traces] that the repository
    query returned. *)
Definition suggestFromSample (traces : list ApiTrace.t)
    : option (list string) :=
  let numTraces := length traces in
  let counterMap := getCounterMap traces in
  match getDistinctPaths counterMap traces numTraces with
  | None => None
  | Some distinctPaths =>
      let sorted :=
        sort (higherConfidence distinctPaths) (JSObj.keys distinctPaths) in
      Some (take 100 sorted)
  end.

(** The repository query: the traces of the endpoint, most recent first,
    at most [TRACE_LIMIT] of them. *)
Definition findRecentTraces (table : list ApiTrace.t) (endpointId : string)
    : list ApiTrace.t :=
  take TRACE_LIMIT
    (stableSort
       (fun y x => (ApiTrace.createdAt x <? ApiTrace.createdAt y)%Z)
       (filter (fun tr => ApiTrace.apiEndpointUuid tr = endpointId) table)).

Definition getTopSuggestedPaths (table : list ApiTrace.t)
    (endpointId : string) : option (list string) :=
  suggestFromSample (findRecentTraces table endpointId).

(** *** The sample statistics

    These definitions describe the sample itself, without the counter
    map: they are what the results of [getCounterMap] and
    [getDistinctPaths] are compared with. *)

(** Number of sampled traces whose token at index [i] is [token]. *)
Definition occurrences (traces : list ApiTrace.t) (i : nat)
    (token : string) : nat :=
  length
    (filter (fun tr => getPathTokens (ApiTrace.path tr) !! i = Some token)
            traces).

(** The own property of [counterMap[pos]] for [token], if any. *)
Definition counterAt (counterMap : counter) (pos : nat) (token : string)
    : option counterValue :=
  match counterMap !! pos with
  | Some inner => inner !! token
  | None => None
  end.

(** The own property that a counter holds for a token counted [c]
    times. *)
Definition countedAs (token : string) (c : nat) : option counterValue :=
  if c =? 0 then None
  else if ObjectPrototype.has token
       then if String.eqb token "__proto__" then None
            else Some (FunctionText c)
       else Some (Count c).

(** The occurrence fraction that the code computes for a token counted
    [c] times among [n] traces. *)
Definition computedFraction (token : string) (c n : nat) : num :=
  if ObjectPrototype.has token then NaN else div (ofNat c) (ofNat n).

(** A token sequence rendered from [path] on, the segments marked in
    [mask] being replaced by placeholders numbered from [paramNum]. *)
Fixpoint renderWith (mask : list bool) (pathTokens : list string)
    (path : string) (paramNum : nat) : string :=
  match mask, pathTokens with
  | marked :: mask', token :: rest =>
      if marked
      then renderWith mask' rest
             (path +:+ ("/{param" +:+ pretty paramNum +:+ "}")) (S paramNum)
      else renderWith mask' rest (path +:+ ("/" +:+ token)) paramNum
  | _, _ => path
  end.

(** [t] is the path of [pathTokens] with some of its segments replaced by
    placeholders, numbered [1], [2], ... from the left. *)
Definition generalizes (pathTokens : list string) (t : string) : Prop :=
  ∃ mask, length mask = length pathTokens
          ∧ t = renderWith mask pathTokens "" 1.

(** A token sequence rendered with no placeholder. *)
Definition literalPath (pathTokens : list string) : string :=
  fold_left (fun path token => path +:+ ("/" +:+ token)) pathTokens "".

End WithTokenizer.
End Generalizer.

(** ** The persistent data model *)

Module RiskScore.
Inductive t : Type := NONE | LOW | MEDIUM | HIGH | CRITICAL.

(** Modelled from the spec: the table [RISK_SCORE_ORDER] of the constants
    module is missing; "ordered NONE < LOW < MEDIUM < HIGH < CRITICAL". *)
Definition RISK_SCORE_ORDER (r : t) : nat :=
  match r with
  | NONE => 0
  | LOW => 1
  | MEDIUM => 2
  | HIGH => 3
  | CRITICAL => 4
  end.

(** [RISK_SCORE_ORDER[a] < RISK_SCORE_ORDER[b]]; a table lookup at
    [undefined] is [undefined], and the comparison is then false. *)
Definition orderLt (a b : option t) : bool :=
  match a, b with
  | Some x, Some y => RISK_SCORE_ORDER x <? RISK_SCORE_ORDER y
  | _, _ => false
  end.

End RiskScore.

Inductive SpecExtension : Type := JSON | YAML.

Module OpenApiSpec.
Record t : Type := mk {
  name : string;
  spec : string;
  isAutoGenerated : bool;
  extension : SpecExtension;
  hosts : list string;
  createdAt : Z;
  updatedAt : Z;
  specUpdatedAt : Z
}.
End OpenApiSpec.

Module ApiEndpoint.
Record t : Type := mk {
  uuid : string;
  path : string;
  pathRegex : string;
  method : string;
  host : string;
  numberParams : nat;
  riskScore : option RiskScore.t;
  firstDetected : option Z;
  lastActive : option Z;
  openapiSpecName : option string
}.

Definition withRiskScore (e : t) (r : option RiskScore.t) : t :=
  mk (uuid e) (path e) (pathRegex e) (method e) (host e) (numberParams e)
     r (firstDetected e) (lastActive e) (openapiSpecName e).

Definition withDates (e : t) (first last : option Z) : t :=
  mk (uuid e) (path e) (pathRegex e) (method e) (host e) (numberParams e)
     (riskScore e) first last (openapiSpecName e).

Definition withSpecName (e : t) (specName : option string) : t :=
  mk (uuid e) (path e) (pathRegex e) (method e) (host e) (numberParams e)
     (riskScore e) (firstDetected e) (lastActive e) specName.

(** Modelled from the spec: the method [updateDates] of the endpoint model
    is missing; "activity window ([firstDetected] = min, [lastActive] =
    max) is similarly widened".  An absent date widens nothing; an absent
    bound is set. *)
Definition updateDates (e : t) (date : option Z) : t :=
  match date with
  | None => e
  | Some d =>
      withDates e
        (Some (match firstDetected e with
               | Some f => Z.min f d
               | None => d
               end))
        (Some (match lastActive e with
               | Some l => Z.max l d
               | None => d
               end))
  end.
End ApiEndpoint.

Module AlertType.
Inductive t : Type :=
| NEW_ENDPOINT
| OPEN_API_SPEC_DIFF
| OTHER (category : string).

Definition isDiscovery (a : t) : bool :=
  match a with
  | NEW_ENDPOINT | OPEN_API_SPEC_DIFF => true
  | OTHER _ => false
  end.
End AlertType.

Module Alert.
Record t : Type := mk {
  uuid : string;
  type : AlertType.t;
  apiEndpointUuid : string;
  description : string
}.
End Alert.

Module DataField.
Record t : Type := mk {
  uuid : string;
  apiEndpointUuid : string;
  dataPath : string
}.
End DataField.

Module AggregateTraceDataHourly.
Record t : Type := mk {
  apiEndpointUuid : string;
  hour : Z;
  numCalls : nat
}.
End AggregateTraceDataHourly.

(** The tables the services read and write. *)
Module DB.
Record t : Type := mk {
  specs : list OpenApiSpec.t;
  endpoints : list ApiEndpoint.t;
  traces : list ApiTrace.t;
  dataFields : list DataField.t;
  alerts : list Alert.t;
  aggregates : list AggregateTraceDataHourly.t
}.

Definition withSpecs (db : t) (x : list OpenApiSpec.t) : t :=
  mk x (endpoints db) (traces db) (dataFields db) (alerts db) (aggregates db).
Definition withEndpoints (db : t) (x : list ApiEndpoint.t) : t :=
  mk (specs db) x (traces db) (dataFields db) (alerts db) (aggregates db).
Definition withTraces (db : t) (x : list ApiTrace.t) : t :=
  mk (specs db) (endpoints db) x (dataFields db) (alerts db) (aggregates db).
Definition withDataFields (db : t) (x : list DataField.t) : t :=
  mk (specs db) (endpoints db) (traces db) x (alerts db) (aggregates db).
Definition withAlerts (db : t) (x : list Alert.t) : t :=
  mk (specs db) (endpoints db) (traces db) (dataFields db) x (aggregates db).
Definition withAggregates (db : t) (x : list AggregateTraceDataHourly.t) : t :=
  mk (specs db) (endpoints db) (traces db) (dataFields db) (alerts db) x.

(** [save] of an entity: update the row with the same primary key in
    place, or append a new row. *)
Fixpoint upsert {A : Type} (key : A -> string) (x : A) (rows : list A)
    : list A :=
  match rows with
  | [] => [x]
  | r :: rest =>
      if String.eqb (key r) (key x) then x :: rest
      else r :: upsert key x rest
  end.

Definition saveSpec (s : OpenApiSpec.t) (db : t) : t :=
  withSpecs db (upsert OpenApiSpec.name s (specs db)).

Definition saveEndpoint (e : ApiEndpoint.t) (db : t) : t :=
  withEndpoints db (upsert ApiEndpoint.uuid e (endpoints db)).

Definition findSpec (db : t) (specName : string) : option OpenApiSpec.t :=
  find (fun s => String.eqb (OpenApiSpec.name s) specName) (specs db).

Definition findEndpoint (db : t) (path method host : string)
    : option ApiEndpoint.t :=
  find (fun e => String.eqb (ApiEndpoint.path e) path
                 && String.eqb (ApiEndpoint.method e) method
                 && String.eqb (ApiEndpoint.host e) host)
       (endpoints db).

Definition findEndpointByUuid (db : t) (uuid : string)
    : option ApiEndpoint.t :=
  find (fun e => String.eqb (ApiEndpoint.uuid e) uuid) (endpoints db).

(** [uuid IN (:...ids)] *)
Definition inIds (ids : list string) (uuid : string) : bool :=
  existsb (String.eqb uuid) ids.
End DB.

(** ** Errors

    An exception value carries an optional numeric [code]; the HTTP error
    classes of the repository carry their status as code. *)
Module Errors.
Record t : Type := mk {
  code : option Z;
  message : string
}.

Definition Error400BadRequest (msg : string) : t := mk (Some 400%Z) msg.
Definition Error404NotFound (msg : string) : t := mk (Some 404%Z) msg.
Definition Error409Conflict (msg : string) : t := mk (Some 409%Z) msg.
Definition Error422UnprocessableEntity (msg : string) : t :=
  mk (Some 422%Z) msg.
Definition Error500InternalServer (cause : t) : t :=
  mk (Some 500%Z) (message cause).

(** A [TypeError] raised by the language itself has no [code]. *)
Definition TypeError (msg : string) : t := mk None msg.

(** [err?.code < 500]; the comparison is false when there is no code. *)
Definition codeBelow500 (err : t) : bool :=
  match code err with
  | Some c => (c <? 500)%Z
  | None => false
  end.
End Errors.

(** A computation that may throw. *)
Definition Exc (A : Type) : Type := (Errors.t + A)%type.

(** Optional chaining: [o ?> f] is [o?.f]. *)
Definition chain {A B : Type} (o : option A) (f : A -> option B) : option B :=
  match o with
  | Some a => f a
  | None => None
  end.
Notation "o ?> f" := (chain o f) (at level 50, left associativity).

(** ** The trace-logging service *)
Module LogRequest.

Definition Meta : Type := JSObj.obj string.
Definition SessionMeta : Type := JSObj.obj string.

Record Url : Type := {
  host : option string;
  path : option string;
  parameters : option (list PairObject)
}.

Record Request : Type := {
  url : option Url;
  reqHeaders : option (list PairObject);
  reqBody : option string;
  method : option string
}.

Record Response : Type := {
  status : option Z;
  respHeaders : option (list PairObject);
  respBody : option string
}.

Record TraceParams : Type := {
  request : option Request;
  response : option Response;
  meta : option Meta
}.

Record QueuedApiTrace : Type := {
  q_path : string;
  q_method : option string;
  q_host : option string;
  q_requestParameters : list PairObject;
  q_requestHeaders : list PairObject;
  q_requestBody : option string;
  q_responseStatus : option Z;
  q_responseHeaders : list PairObject;
  q_responseBody : option string;
  q_meta : Meta;
  q_createdAt : Z;
  q_sessionMeta : SessionMeta
}.

(** The result of [getValidPath]. *)
Record ValidPath : Type := {
  isValid : bool;
  validPath : string;
  errMsg : string
}.

Section Service.
Variable MetloContext : Type.

(** The collaborators of the service: the path validator of the
    utilities, the redaction service and the session-metadata service.
    The last two rewrite the trace in place and may throw. *)
Variable getValidPath : option string -> ValidPath.
Variable redactBlockedFields :
  MetloContext -> QueuedApiTrace -> Exc QueuedApiTrace.
Variable setSessionMetadata :
  MetloContext -> QueuedApiTrace -> Exc QueuedApiTrace.

(** The world the service runs in: the pending-trace list [TRACES_QUEUE]
    of the Redis instance, the faults its commands meet, and the clock. *)
Record World : Type := {
  tracesQueue : list (MetloContext * QueuedApiTrace);
  llenFault : option Errors.t;
  rpushFault : option Errors.t;
  now : Z
}.

(** [unsafeRedisClient.llen(TRACES_QUEUE)] *)
Definition llen (w : World) : Exc nat :=
  match llenFault w with
  | Some err => inl err
  | None => inr (length (tracesQueue w))
  end.

(** [unsafeRedisClient.rpush(TRACES_QUEUE, JSON.stringify(...))] *)
Definition rpush (item : MetloContext * QueuedApiTrace) (w : World)
    : Exc unit * World :=
  match rpushFault w with
  | Some err => (inl err, w)
  | None =>
      (inr tt,
       {| tracesQueue := tracesQueue w ++ [item];
          llenFault := llenFault w;
          rpushFault := rpushFault w;
          now := now w |})
  end.

(** [traceParams?.request?.url?.path] *)
Definition rawPath (traceParams : option TraceParams) : option string :=
  traceParams ?> request ?> url ?> path.

(** How a template literal prints a possibly undefined string. *)
Definition show (s : option string) : string := default "undefined" s.

(** The queue length the backpressure check works with: [0] when the
    query fails. *)
Definition observedQueueLength (w : World) : nat :=
  match llen w with
  | inl _ => 0
  | inr n => n
  end.

(** The object literal [apiTraceObj]. *)
Definition buildTrace (validPath : ValidPath)
    (traceParams : option TraceParams) (createdAt : Z) : QueuedApiTrace :=
  let req := traceParams ?> request in
  let resp := traceParams ?> response in
  {| q_path := LogRequest.validPath validPath;
     q_method := req ?> method;
     q_host := req ?> url ?> host;
     q_requestParameters := default [] (req ?> url ?> parameters);
     q_requestHeaders := default [] (req ?> reqHeaders);
     q_requestBody := req ?> reqBody;
     q_responseStatus := resp ?> status;
     q_responseHeaders := default [] (resp ?> respHeaders);
     q_responseBody := resp ?> respBody;
     q_meta := default [] (traceParams ?> meta);
     q_createdAt := createdAt;
     q_sessionMeta := [] |}.

(** The statements of the [try] block after the backpressure check. *)
Definition processTrace (ctx : MetloContext)
    (traceParams : option TraceParams) (w : World) : Exc unit * World :=
  let validPath := getValidPath (rawPath traceParams) in
  if negb (isValid validPath)
  then (inl (Errors.Error400BadRequest
               ("Invalid path " +:+ show (rawPath traceParams) +:+ ": "
                +:+ errMsg validPath)), w)
  else
    let apiTraceObj := buildTrace validPath traceParams (now w) in
    match redactBlockedFields ctx apiTraceObj with
    | inl err => (inl err, w)
    | inr redacted =>
        match setSessionMetadata ctx redacted with
        | inl err => (inl err, w)
        | inr withSession => rpush (ctx, withSession) w
        end
    end.

(** The [catch] clause of [logRequest]. *)
Definition rethrow (err : Errors.t) : Errors.t :=
  if Errors.codeBelow500 err then err else Errors.Error500InternalServer err.

Definition logRequest (ctx : MetloContext)
    (traceParams : option TraceParams) (w : World) : Exc unit * World :=
  let queueLength := observedQueueLength w in
  if 1000 <? queueLength then (inr tt, w)
  else
    match processTrace ctx traceParams w with
    | (inl err, w') => (inl (rethrow err), w')
    | (inr tt, w') => (inr tt, w')
    end.

Fixpoint logRequestBatch (ctx : MetloContext)
    (traceParamsBatch : list (option TraceParams)) (w : World)
    : Exc unit * World :=
  match traceParamsBatch with
  | [] => (inr tt, w)
  | traceParams :: rest =>
      match logRequest ctx traceParams w with
      | (inl err, w') => (inl err, w')
      | (inr tt, w') => logRequestBatch ctx rest w'
      end
  end.
End Service.

Arguments tracesQueue {MetloContext} _.
Arguments llenFault {MetloContext} _.
Arguments rpushFault {MetloContext} _.
Arguments now {MetloContext} _.
Arguments llen {MetloContext} _.
Arguments rpush {MetloContext} _ _.
Arguments observedQueueLength {MetloContext} _.
End LogRequest.

(** ** The trace-versus-contract diff *)
Module SpecDiff.

(** Sequencing of computations that may throw. *)
Notation "'try!' x <- e 'in' k" :=
  (match e with
   | inl err => inl err
   | inr x => k
   end)
  (at level 10, x name, e at level 100, k at level 200,
   format "'try!'  x  <-  e  'in' '//' k").

(** A located part of a declared contract. *)
Record SpecValue (J : Type) : Type := {
  specPath : list string;
  specValue : J
}.
Arguments specPath {J} _.
Arguments specValue {J} _.

(** The request as the validator sees it.  [query] and [params] are
    objects written [{}] and filled by assignment with parsed values;
    [headers] is filled with texts. *)
Record TraceRequest (J : Type) : Type := {
  headers : JSObj.obj string;
  body : J;
  query : PlainObject.t J;
  params : PlainObject.t J
}.

(** The collaborators of the diff: the spec repository, the redacted-field
    registry, the parsers, the two validators with the translation of their
    findings, and the alert service.  Each of them may throw. *)
Class Tools (SpecObject ParsedSpec J AjvError ReqValidator RespValidator : Type)
    : Type := {
  findOneBy : option string -> Exc (option OpenApiSpec.t);
  (** [getBlockFieldsEntry], then [?.disabledPaths] *)
  getBlockFieldsEntry : ApiTrace.t -> Exc (option (list string));
  yamlLoad : string -> Exc SpecObject;
  dereference : SpecObject -> Exc ParsedSpec;
  getSpecRequestParameters :
    ParsedSpec -> ApiEndpoint.t -> Exc (option (SpecValue J));
  getSpecRequestBody :
    ParsedSpec -> ApiEndpoint.t -> Exc (option (SpecValue J));
  getSpecResponses :
    ParsedSpec -> ApiEndpoint.t -> Exc (option (SpecValue J));
  componentSchemas : ParsedSpec -> J;
  components : SpecObject -> option J;
  (** [new OpenAPIRequestValidator({parameters, requestBody, schemas, ...})] *)
  newRequestValidator : option J -> option J -> J -> Exc ReqValidator;
  (** [validateRequest(...)?.errors] *)
  validateRequest : ReqValidator -> TraceRequest J -> Exc (list AjvError);
  (** [new OpenAPIResponseValidator({components, responses, ...})] *)
  newResponseValidator : option J -> option J -> Exc RespValidator;
  (** [validateResponse(...)?.errors] *)
  validateResponse :
    RespValidator -> Z -> J -> JSObj.obj string -> Exc (list AjvError);
  getPathTokens : string -> list string;
  isParameter : string -> bool;
  (** whether a parsed value is a primitive, [null] or an object *)
  kindOf : J -> PlainObject.kind;
  parsePathParameter : option string -> Exc J;
  parsedJsonNonNull : option string -> bool -> Exc J;
  generateAlertMessageFromReqErrors :
    list AjvError -> list string -> list string -> J -> list string
    -> Exc (JSObj.obj (list string));
  generateAlertMessageFromRespErrors :
    list AjvError -> option (list string) -> list string
    -> Exc (JSObj.obj (list string));
  createSpecDiffAlerts :
    JSObj.obj (list string) -> string -> ApiTrace.t -> OpenApiSpec.t
    -> Exc (list Alert.t)
}.

(** [s.slice(1, -1)] *)
Definition sliceInner (s : string) : string :=
  match s with
  | EmptyString => EmptyString
  | String _ rest =>
      string_of_list_ascii (removelast (list_ascii_of_string rest))
  end.

(** [{...a, ...b}] *)
Definition spread {V : Type} (a b : JSObj.obj V) : JSObj.obj V :=
  fold_left (fun acc kv => JSObj.set acc (fst kv) (snd kv)) b a.

(** [pairs.forEach(p => (obj[p.name] = p.value))] on [obj = {}], and
    the [reduce] that does the same.  The values are texts: the
    assignment to the name [__proto__] reaches the setter inherited from
    [Object.prototype], which ignores a text, and stores nothing. *)
Definition pairsToObject (l : list PairObject) : JSObj.obj string :=
  fold_left
    (fun acc p =>
       if String.eqb (name p) "__proto__" then acc
       else JSObj.set acc (name p) (value p))
    l [].

Section WithTools.
Context {SpecObject ParsedSpec J AjvError ReqValidator RespValidator : Type}
        `{Tools SpecObject ParsedSpec J AjvError ReqValidator RespValidator}.

(** The loop that reads the path parameters off the trace, from index
    [i] on. *)
Fixpoint collectPathParams (endpointPathTokens tracePathTokens : list string)
    (i : nat) (pathParams : PlainObject.t J) : Exc (PlainObject.t J) :=
  match endpointPathTokens with
  | [] => inr pathParams
  | currToken :: rest =>
      if isParameter currToken
      then
        try! v <- parsePathParameter (tracePathTokens !! i) in
        collectPathParams rest tracePathTokens (S i)
          (PlainObject.assign kindOf pathParams (sliceInner currToken) v)
      else collectPathParams rest tracePathTokens (S i) pathParams
  end.

(** The [forEach] that fills [query]. *)
Fixpoint collectQuery (parameters : list PairObject)
    (query : PlainObject.t J) : Exc (PlainObject.t J) :=
  match parameters with
  | [] => inr query
  | parameter :: rest =>
      try! v <- parsedJsonNonNull (Some (value parameter)) true in
      collectQuery rest
        (PlainObject.assign kindOf query (name parameter) v)
  end.

(** The statements of the [try] block after the early return.  Reading
    [.path] of an absent request-parameter or request-body location is a
    [TypeError]. *)
Definition diffAgainst (openApiSpec : OpenApiSpec.t) (trace : ApiTrace.t)
    (endpoint : ApiEndpoint.t) : Exc (list Alert.t) :=
  try! disabledPaths <- getBlockFieldsEntry trace in
  try! specObject <- yamlLoad (OpenApiSpec.spec openApiSpec) in
  try! parsedSpec <- dereference specObject in
  try! specRequestParameters <-
    getSpecRequestParameters parsedSpec endpoint in
  try! specRequestBody <- getSpecRequestBody parsedSpec endpoint in
  try! requestValidator <-
    newRequestValidator (option_map specValue specRequestParameters)
      (option_map specValue specRequestBody) (componentSchemas parsedSpec) in
  try! body <- parsedJsonNonNull (ApiTrace.requestBody trace) false in
  try! pathParams <-
    collectPathParams (getPathTokens (ApiEndpoint.path endpoint))
      (getPathTokens (ApiTrace.path trace)) 0 PlainObject.empty in
  try! query <-
    collectQuery (ApiTrace.requestParameters trace) PlainObject.empty in
  let traceRequest :=
    {| headers := pairsToObject (ApiTrace.requestHeaders trace);
       body := body;
       query := query;
       params := pathParams |} in
  try! requestErrors <- validateRequest requestValidator traceRequest in
  match specRequestParameters, specRequestBody with
  | Some parameters, Some requestBody =>
      try! reqErrorItems <-
        generateAlertMessageFromReqErrors requestErrors
          (specPath parameters) (specPath requestBody)
          (specValue parameters) (default [] disabledPaths) in
      try! responses <- getSpecResponses parsedSpec endpoint in
      try! responseValidator <-
        newResponseValidator (components specObject)
          (option_map specValue responses) in
      try! traceResponseBody <-
        parsedJsonNonNull (ApiTrace.responseBody trace) true in
      try! responseErrors <-
        validateResponse responseValidator (ApiTrace.responseStatus trace)
          traceResponseBody
          (pairsToObject (ApiTrace.responseHeaders trace)) in
      try! respErrorItems <-
        generateAlertMessageFromRespErrors responseErrors
          (option_map specPath responses) (default [] disabledPaths) in
      createSpecDiffAlerts (spread reqErrorItems respErrorItems)
        (ApiEndpoint.uuid endpoint) trace openApiSpec
  | _, _ =>
      inl (Errors.TypeError
             "Cannot read properties of undefined (reading 'path')")
  end.

(** The [try] block.  The repository is asked for the document named
    [endpoint.openapiSpecName], also when the endpoint has no such
    name. *)
Definition diffBody (trace : ApiTrace.t) (endpoint : ApiEndpoint.t)
    : Exc (list Alert.t) :=
  try! openApiSpec <- findOneBy (ApiEndpoint.openapiSpecName endpoint) in
  match openApiSpec with
  | None => inr []
  | Some s =>
      if OpenApiSpec.isAutoGenerated s then inr []
      else diffAgainst s trace endpoint
  end.

(** [findOpenApiSpecDiff]: every exception of the [try] block is caught,
    logged, and answered with the empty list. *)
Definition findOpenApiSpecDiff (trace : ApiTrace.t)
    (endpoint : ApiEndpoint.t) : Exc (list Alert.t) :=
  match diffBody trace endpoint with
  | inl err => inr []
  | inr alerts => inr alerts
  end.
End WithTools.
End SpecDiff.

(** ** Endpoint identity resolution and the merge executor *)
Module Resolver.
Import ApiEndpoint.

(** What the services import from the utility, query and library modules:
    the spec parser and validator, the pattern compiler together with the
    regular-expression match of the persistence layer, the UUID
    generator, and the two raw SQL statements of the merge. *)
Class Tools (SpecObject Server : Type) : Type := {
  getOpenAPISpecVersion : SpecObject -> option nat;
  validateSpecSchema : SpecObject -> option nat -> list string;
  (** [Converter.convertObj(specObject, {})], then [?.openapi] *)
  convertObj : SpecObject -> Exc (option SpecObject);
  stringify : SpecExtension -> SpecObject -> string;
  (** [specObject["paths"]]: each path with the own keys of its item *)
  specPaths : SpecObject -> JSObj.obj (list string);
  (** [Object.values(RestMethod)] *)
  restMethods : list string;
  getServersV3 : SpecObject -> string -> string -> list Server;
  getHostsV3 : list Server -> list string;
  getPathRegex : string -> string;
  (** [regexMatch regex text] is [text ~ regex] *)
  regexMatch : string -> string -> bool;
  (** [addNumberParams]: the parameter segments of a path *)
  countParams : string -> nat;
  (** the [n]-th identifier that [uuidv4()] returns *)
  uuidv4 : nat -> string;
  getValidPath : string -> nat -> LogRequest.ValidPath;
  getPathTokens : string -> list string;
  insertDataFieldQuery :
    list string -> string -> list DataField.t -> list DataField.t;
  insertAggregateHourlyQuery :
    string -> list string -> list AggregateTraceDataHourly.t
    -> list AggregateTraceDataHourly.t;
  (** [GetEndpointsService.deleteEndpointsBatch] *)
  deleteEndpointsBatch : list string -> DB.t -> DB.t
}.

Definition upperChar (c : ascii) : ascii :=
  let n := nat_of_ascii c in
  if (97 <=? n) && (n <=? 122) then ascii_of_nat (n - 32) else c.

(** [toUpperCase] on ASCII text. *)
Fixpoint toUpperCase (s : string) : string :=
  match s with
  | EmptyString => EmptyString
  | String c rest => String (upperChar c) (toUpperCase rest)
  end.

(** [new Set([...s, ...xs])]: a set in insertion order. *)
Definition setAddAll (s xs : list string) : list string :=
  fold_left (fun acc x => if DB.inIds acc x then acc else acc ++ [x]) xs s.

(** A string is truthy unless it is absent or empty. *)
Definition truthyString (s : option string) : bool :=
  match s with
  | Some EmptyString | None => false
  | Some _ => true
  end.

Record EndpointsMap : Type := {
  endpoint : ApiEndpoint.t;
  similarEndpoints : JSObj.obj ApiEndpoint.t
}.

Definition dropSimilar (entry : EndpointsMap) (uuid : string) : EndpointsMap :=
  {| endpoint := endpoint entry;
     similarEndpoints := JSObj.del (similarEndpoints entry) uuid |}.

Definition addSimilar (entry : EndpointsMap) (item : ApiEndpoint.t)
    : EndpointsMap :=
  {| endpoint := endpoint entry;
     similarEndpoints := JSObj.set (similarEndpoints entry) (uuid item) item |}.

(** The condition under which an identity already held by the candidate
    [holder] passes to the candidate [apiEndpoint]. *)
Definition takesOver (apiEndpoint holder item : ApiEndpoint.t) : bool :=
  (numberParams apiEndpoint =? numberParams item)
  || (negb (numberParams holder =? numberParams item)
      && (numberParams apiEndpoint <? numberParams holder)).

(** One round of the inner [forEach] over [Object.keys(endpointsMap)]: the
    map and the flag [exists]. *)
Definition holderStep (apiEndpoint item : ApiEndpoint.t)
    (acc : JSObj.obj EndpointsMap * bool) (key : string)
    : JSObj.obj EndpointsMap * bool :=
  let '(endpointsMap, exists_) := acc in
  match JSObj.get endpointsMap key with
  | Some entry =>
      if JSObj.has (similarEndpoints entry) (uuid item)
      then
        if takesOver apiEndpoint (endpoint entry) item
        then (JSObj.set endpointsMap key (dropSimilar entry (uuid item)),
              false)
        else (endpointsMap, true)
      else acc
  | None => acc
  end.

(** The body of [similarEndpoints.forEach].  The entry of
    [apiEndpoint.uuid] was assigned just before the loop, so the final
    assignment always finds it. *)
Definition absorbSimilar (apiEndpoint : ApiEndpoint.t)
    (endpointsMap : JSObj.obj EndpointsMap) (item : ApiEndpoint.t)
    : JSObj.obj EndpointsMap :=
  let '(endpointsMap', exists_) :=
    if JSObj.has endpointsMap (uuid item) then (endpointsMap, false)
    else fold_left (holderStep apiEndpoint item) (JSObj.keys endpointsMap)
           (endpointsMap, false) in
  if exists_ then endpointsMap'
  else
    match JSObj.get endpointsMap' (uuid apiEndpoint) with
    | Some entry =>
        JSObj.set endpointsMap' (uuid apiEndpoint) (addSimilar entry item)
    | None => endpointsMap'
    end.

(** The [forEach] of the [updated] branch: the endpoint is no longer
    superseded by anyone. *)
Definition releaseStep (uuid : string) (endpointsMap : JSObj.obj EndpointsMap)
    (key : string) : JSObj.obj EndpointsMap :=
  match JSObj.get endpointsMap key with
  | Some entry =>
      if JSObj.has (similarEndpoints entry) uuid
      then JSObj.set endpointsMap key (dropSimilar entry uuid)
      else endpointsMap
  | None => endpointsMap
  end.

Definition release (uuid : string) (endpointsMap : JSObj.obj EndpointsMap)
    : JSObj.obj EndpointsMap :=
  fold_left (releaseStep uuid) (JSObj.keys endpointsMap) endpointsMap.

(** The state of the resolution loops: the batch map, the hosts seen, and
    the number of identifiers drawn. *)
Record Resolution : Type := {
  endpointsMap : JSObj.obj EndpointsMap;
  specHosts : list string;
  drawn : nat
}.

(** The identifiers that the candidate with key [k] supersedes, and the
    number of parameter segments of that candidate. *)
Definition supersedes (endpointsMap : JSObj.obj EndpointsMap) (k : string)
    : list string :=
  match JSObj.get endpointsMap k with
  | Some entry => JSObj.keys (similarEndpoints entry)
  | None => []
  end.

Definition candidateParams (endpointsMap : JSObj.obj EndpointsMap)
    (k : string) : option nat :=
  match JSObj.get endpointsMap k with
  | Some entry => Some (numberParams (endpoint entry))
  | None => None
  end.




(** The candidate with key [k] has [item] in its supersede set. *)
Definition holds (endpointsMap : JSObj.obj EndpointsMap) (k : string)
    (item : ApiEndpoint.t) : Prop :=
  exists entry, JSObj.get endpointsMap k = Some entry
                /\ JSObj.has (similarEndpoints entry) (uuid item) = true.

Definition isConflict (e : Errors.t) : Prop :=
  exists msg, e = Errors.Error409Conflict msg.

(** A loop whose body may throw. *)
Fixpoint forEachExc {A S : Type} (body : A -> S -> Exc S) (l : list A)
    (s : S) : Exc S :=
  match l with
  | [] => inr s
  | x :: rest =>
      match body x s with
      | inl err => inl err
      | inr s' => forEachExc body rest s'
      end
  end.

Section WithTools.
Context {SpecObject Server : Type} `{Tools SpecObject Server}.

(** [apiEndpoint.openapiSpec?.isAutoGenerated], the relation being
    loaded with the endpoint. *)
Definition ownerIsAutoGenerated (db : DB.t) (e : ApiEndpoint.t) : bool :=
  match openapiSpecName e with
  | Some specName =>
      match DB.findSpec db specName with
      | Some s => OpenApiSpec.isAutoGenerated s
      | None => false
      end
  | None => false
  end.

(** [find] with [path ~ :pathRegex], the method and the host. *)
Definition findSimilar (db : DB.t) (pathRegex method host : string)
    : list ApiEndpoint.t :=
  List.filter
    (fun e => regexMatch pathRegex (path e)
              && String.eqb (ApiEndpoint.method e) method
              && String.eqb (ApiEndpoint.host e) host)
    (DB.endpoints db).

(** The body of the loop over the hosts of one operation. *)
Definition resolveHost (db : DB.t) (specName : string)
    (path pathRegex methodEnum : string) (host : string) (st : Resolution)
    : Exc Resolution :=
  match DB.findEndpoint db path methodEnum host with
  | None =>
      let apiEndpoint :=
        ApiEndpoint.mk (uuidv4 (drawn st)) path pathRegex methodEnum host
          (countParams path) None None None (Some specName) in
      let map1 :=
        JSObj.set (endpointsMap st) (uuid apiEndpoint)
          {| endpoint := apiEndpoint; similarEndpoints := [] |} in
      let similar := findSimilar db pathRegex methodEnum host in
      inr {| endpointsMap := fold_left (absorbSimilar apiEndpoint) similar map1;
             specHosts := specHosts st;
             drawn := S (drawn st) |}
  | Some found =>
      if negb (truthyString (openapiSpecName found))
         || ownerIsAutoGenerated db found
      then
        let apiEndpoint := withSpecName found (Some specName) in
        let map1 :=
          JSObj.set (endpointsMap st) (uuid apiEndpoint)
            {| endpoint := apiEndpoint; similarEndpoints := [] |} in
        inr {| endpointsMap := release (uuid apiEndpoint) map1;
               specHosts := specHosts st;
               drawn := drawn st |}
      else
        inl (Errors.Error409Conflict
               ("Path " +:+ ApiEndpoint.path found
                +:+ " defined in the given new spec file is already defined in another user defined spec file: "
                +:+ LogRequest.show (openapiSpecName found)))
  end.

(** The body of the loop over the methods of one path. *)
Definition resolveMethod (db : DB.t) (specName : string)
    (specObject : SpecObject) (path pathRegex : string) (method : string)
    (st : Resolution) : Exc Resolution :=
  let servers := getServersV3 specObject path method in
  match servers with
  | [] =>
      inl (Errors.Error422UnprocessableEntity
             "No servers found in spec file.")
  | _ =>
      let hosts := setAddAll [] (getHostsV3 servers) in
      let st1 := {| endpointsMap := endpointsMap st;
                    specHosts := setAddAll (specHosts st) hosts;
                    drawn := drawn st |} in
      forEachExc
        (resolveHost db specName path pathRegex (toUpperCase method))
        hosts st1
  end.

(** The body of the loop over [pathKeys]. *)
Definition resolvePath (db : DB.t) (specName : string)
    (specObject : SpecObject) (entry : string * list string)
    (st : Resolution) : Exc Resolution :=
  let '(path, keys) := entry in
  let pathRegex := getPathRegex path in
  let methods :=
    List.filter (fun key => DB.inIds restMethods (toUpperCase key)) keys in
  forEachExc (resolveMethod db specName specObject path pathRegex)
    methods st.

(** The risk score and the activity window that the surviving endpoint
    takes from one superseded endpoint. *)
Definition inherit (survivor e : ApiEndpoint.t) : ApiEndpoint.t :=
  let survivor1 :=
    match riskScore survivor with
    | None => withRiskScore survivor (riskScore e)
    | Some _ =>
        if RiskScore.orderLt (riskScore survivor) (riskScore e)
        then withRiskScore survivor (riskScore e)
        else survivor
    end in
  updateDates (updateDates survivor1 (firstDetected e)) (lastActive e).

(** The statements executed when [similarEndpointUuids] is not empty. *)
Definition repoint (survivor : ApiEndpoint.t) (ids : list string)
    (db : DB.t) : DB.t :=
  let db1 := DB.saveEndpoint survivor db in
  let db2 :=
    DB.withTraces db1
      (map (fun tr =>
              if DB.inIds ids (ApiTrace.apiEndpointUuid tr)
              then ApiTrace.mk (ApiTrace.uuid tr) (uuid survivor)
                     (ApiTrace.path tr) (ApiTrace.createdAt tr)
                     (ApiTrace.requestParameters tr)
                     (ApiTrace.requestHeaders tr) (ApiTrace.requestBody tr)
                     (ApiTrace.responseStatus tr)
                     (ApiTrace.responseHeaders tr) (ApiTrace.responseBody tr)
              else tr)
           (DB.traces db1)) in
  let db3 :=
    DB.withDataFields db2
      (insertDataFieldQuery ids (uuid survivor) (DB.dataFields db2)) in
  let db4 :=
    DB.withDataFields db3
      (List.filter
         (fun d => negb (DB.inIds ids (DataField.apiEndpointUuid d)))
         (DB.dataFields db3)) in
  let db5 :=
    DB.withAlerts db4
      (map (fun a =>
              if DB.inIds ids (Alert.apiEndpointUuid a)
                 && negb (AlertType.isDiscovery (Alert.type a))
              then Alert.mk (Alert.uuid a) (Alert.type a) (uuid survivor)
                     (Alert.description a)
              else a)
           (DB.alerts db4)) in
  let db6 :=
    DB.withAlerts db5
      (List.filter
         (fun a => negb (DB.inIds ids (Alert.apiEndpointUuid a)
                         && AlertType.isDiscovery (Alert.type a)))
         (DB.alerts db5)) in
  let db7 :=
    DB.withAggregates db6
      (insertAggregateHourlyQuery (uuid survivor) ids (DB.aggregates db6)) in
  let db8 :=
    DB.withAggregates db7
      (List.filter
         (fun g =>
            negb (DB.inIds ids (AggregateTraceDataHourly.apiEndpointUuid g)))
         (DB.aggregates db7)) in
  DB.withEndpoints db8
    (List.filter (fun e => negb (DB.inIds ids (uuid e))) (DB.endpoints db8)).

(** The endpoint of a batch entry after the loop over its similar
    endpoints. *)
Definition mergedEndpoint (item : EndpointsMap) : ApiEndpoint.t :=
  fold_left inherit (JSObj.values (similarEndpoints item)) (endpoint item).

(** The body of the loop over [Object.values(endpointsMap)] inside the
    transaction. *)
Definition mergeItem (db : DB.t) (item : EndpointsMap) : DB.t :=
  let db1 := DB.saveEndpoint (endpoint item) db in
  let similarEndpointUuids := map uuid (JSObj.values (similarEndpoints item)) in
  match similarEndpointUuids with
  | [] => db1
  | _ => repoint (mergedEndpoint item) similarEndpointUuids db1
  end.

(** The transaction of [uploadNewSpec].  A fault of the persistence layer
    inside it, which rolls the transaction back and is raised as a 500, is
    outside the model. *)
Definition applyPlan (existingSpec : OpenApiSpec.t)
    (plan : JSObj.obj EndpointsMap) (db : DB.t) : DB.t :=
  fold_left mergeItem (JSObj.values plan) (DB.saveSpec existingSpec db).

(** The version check, the schema validation and the conversion of a
    version 2 document. *)
Definition normalize (specObject : SpecObject) (extension : SpecExtension)
    (specString : string) : Exc (SpecObject * string) :=
  match getOpenAPISpecVersion specObject with
  | None | Some 0 =>
      inl (Errors.Error422UnprocessableEntity
             "Invalid OpenAPI Spec: No 'swagger' or 'openapi' field defined.")
  | Some specVersion =>
      match validateSpecSchema specObject (Some specVersion) with
      | _ :: _ => inl (Errors.Error422UnprocessableEntity "Invalid OpenAPI Spec")
      | [] =>
          if specVersion =? 2
          then
            match convertObj specObject with
            | inl err => inl err
            | inr None =>
                inl (Errors.Error500InternalServer
                       (Errors.mk None
                          "Unable to convert swagger spec to OpenAPI V3."))
            | inr (Some converted) =>
                inr (converted, stringify extension converted)
            end
          else inr (specObject, specString)
      end
  end.

(** The resolution loops of [uploadNewSpec]: they read the tables and
    build the batch map. *)
Definition resolveBatch (db : DB.t) (specName : string)
    (specObject : SpecObject) : Exc Resolution :=
  forEachExc (resolvePath db specName specObject) (specPaths specObject)
    {| endpointsMap := []; specHosts := []; drawn := 0 |}.

(** [uploadNewSpec].  The tables are written only between
    [startTransaction] and [commitTransaction], that is by [applyPlan];
    every exception of the statements before leaves them as they were. *)
Definition uploadNewSpec (specObject : SpecObject) (fileName : string)
    (extension : SpecExtension) (specString : string) (currTime : Z)
    (db : DB.t) : Exc unit * DB.t :=
  match normalize specObject extension specString with
  | inl err => (inl err, db)
  | inr (specObject', specString') =>
      let found := DB.findSpec db fileName in
      match resolveBatch db fileName specObject' with
      | inl err => (inl err, db)
      | inr st =>
          let existingSpec :=
            match found with
            | Some s =>
                OpenApiSpec.mk (OpenApiSpec.name s) specString'
                  (OpenApiSpec.isAutoGenerated s) (OpenApiSpec.extension s)
                  (specHosts st) (OpenApiSpec.createdAt s) currTime currTime
            | None =>
                OpenApiSpec.mk fileName specString' false extension
                  (specHosts st) currTime currTime currTime
            end in
          (inr tt, applyPlan existingSpec (endpointsMap st) db)
      end
  end.

(** *** The manual path-editing flow *)

(** The validation loop of [generateEndpointsMap]. *)
Definition validateProvided (db : DB.t) (method host : string)
    (numTokens : nat) (item : string) (set : list string)
    : Exc (list string) :=
  let validPath := getValidPath item numTokens in
  if negb (LogRequest.isValid validPath)
  then inl (Errors.Error400BadRequest
              ((if String.eqb item "" then "" else item +:+ ":") +:+ " "
               +:+ LogRequest.errMsg validPath))
  else
    match DB.findEndpoint db (LogRequest.validPath validPath) method host with
    | Some _ =>
        inl (Errors.Error400BadRequest
               (item +:+ ": An endpoint with this path already exists for this method and host."))
    | None => inr (setAddAll set [LogRequest.validPath validPath])
    end.

(** The query of [generateEndpointsMap]: [:path ~ "pathRegex"] or
    [path ~ :pathRegex], the method and the host. *)
Definition findOverlapping (db : DB.t) (path pathRegex method host : string)
    : list ApiEndpoint.t :=
  List.filter
    (fun e => (regexMatch (ApiEndpoint.pathRegex e) path
               || regexMatch pathRegex (ApiEndpoint.path e))
              && String.eqb (ApiEndpoint.method e) method
              && String.eqb (ApiEndpoint.host e) host)
    (DB.endpoints db).

(** The body of the second loop of [generateEndpointsMap]. *)
Definition candidateStep (db : DB.t) (method host : string)
    (st : Resolution) (path : string) : Resolution :=
  let pathRegex := getPathRegex path in
  let apiEndpoint :=
    ApiEndpoint.mk (uuidv4 (drawn st)) path pathRegex method host
      (countParams path) None None None None in
  let map1 :=
    JSObj.set (endpointsMap st) (uuid apiEndpoint)
      {| endpoint := apiEndpoint; similarEndpoints := [] |} in
  let similar := findOverlapping db path pathRegex method host in
  {| endpointsMap := fold_left (absorbSimilar apiEndpoint) similar map1;
     specHosts := specHosts st;
     drawn := S (drawn st) |}.

Definition generateEndpointsMap (db : DB.t) (providedPaths : list string)
    (method host : string) (numTokens : nat)
    : Exc (JSObj.obj EndpointsMap) :=
  match forEachExc (validateProvided db method host numTokens)
          providedPaths [] with
  | inl err => inl err
  | inr set =>
      inr (endpointsMap
             (fold_left (candidateStep db method host) set
                {| endpointsMap := []; specHosts := []; drawn := 0 |}))
  end.

(** The body of the loop of [updateEndpointsFromMap]. *)
Definition replaceItem (db : DB.t) (item : EndpointsMap) : DB.t :=
  let survivor := withRiskScore (endpoint item) (Some RiskScore.NONE) in
  let db1 := DB.saveEndpoint survivor db in
  let similarEndpointUuids := map uuid (JSObj.values (similarEndpoints item)) in
  match similarEndpointUuids with
  | [] => db1
  | _ => deleteEndpointsBatch similarEndpointUuids db1
  end.

Definition updateEndpointsFromMap (plan : JSObj.obj EndpointsMap)
    (db : DB.t) : DB.t :=
  fold_left replaceItem (JSObj.values plan) db.

(** [updatePaths]; [providedPaths] is [None] when the caller passes no
    array.  The transaction is opened only once the batch map exists. *)
Definition updatePaths (providedPaths : option (list string))
    (endpointId : string) (db : DB.t) : Exc unit * DB.t :=
  match providedPaths with
  | None =>
      (inl (Errors.Error400BadRequest "Must provide list of paths to create."),
       db)
  | Some paths =>
      match DB.findEndpointByUuid db endpointId with
      | None => (inl (Errors.Error404NotFound "Endpoint not found."), db)
      | Some endpoint =>
          match generateEndpointsMap db paths (ApiEndpoint.method endpoint)
                  (ApiEndpoint.host endpoint)
                  (length (getPathTokens (ApiEndpoint.path endpoint))) with
          | inl err => (inl err, db)
          | inr plan => (inr tt, updateEndpointsFromMap plan db)
          end
      end
  end.

End WithTools.
End Resolver.

(** ** The remaining operations of the spec service *)
Module SpecService.
Import Resolver.

Section WithTools.
Context {SpecObject Server : Type} `{Tools SpecObject Server}.

(** The raw statement [deleteOpenAPISpecDiffAlerts] of the queries module:
    the alert table it leaves for a spec name. *)
Variable deleteOpenAPISpecDiffAlerts : string -> DB.t -> list Alert.t.

(** [getSpec] *)
Definition getSpec (specName : string) (db : DB.t) : option OpenApiSpec.t :=
  DB.findSpec db specName.

(** [getSpecs]: the documents whose [isAutoGenerated] is the given flag,
    latest update first. *)
Definition getSpecs (listAutogenerated : bool) (db : DB.t)
    : list OpenApiSpec.t :=
  stableSort
    (fun y x => (OpenApiSpec.updatedAt x <? OpenApiSpec.updatedAt y)%Z)
    (List.filter
       (fun s => Bool.eqb (OpenApiSpec.isAutoGenerated s) listAutogenerated)
       (DB.specs db)).

(** ["openapiSpecName" = :name]; a null column equals nothing. *)
Definition ownedBy (fileName : string) (e : ApiEndpoint.t) : bool :=
  match ApiEndpoint.openapiSpecName e with
  | Some n => String.eqb n fileName
  | None => false
  end.

(** [deleteSpec], the three statements being committed together. *)
Definition deleteSpec (fileName : string) (db : DB.t) : Exc unit * DB.t :=
  match DB.findSpec db fileName with
  | None =>
      (inl (Errors.Error404NotFound
              "No spec file with the provided name exists."), db)
  | Some openApiSpec =>
      if OpenApiSpec.isAutoGenerated openApiSpec
      then (inl (Errors.Error409Conflict "Can't delete auto generated spec."),
            db)
      else
        let db1 := DB.withAlerts db (deleteOpenAPISpecDiffAlerts fileName db) in
        let db2 :=
          DB.withEndpoints db1
            (map (fun e => if ownedBy fileName e
                           then ApiEndpoint.withSpecName e None
                           else e)
                 (DB.endpoints db1)) in
        let db3 :=
          DB.withSpecs db2
            (List.filter
               (fun s => negb (String.eqb (OpenApiSpec.name s) fileName))
               (DB.specs db2)) in
        (inr tt, db3)
  end.

(** [updateSpec].  It calls [deleteSpec] and [uploadNewSpec] without a
    query runner, so each of the two runs and commits a transaction of its
    own; the transaction that [updateSpec] itself opens holds no
    statement. *)
Definition updateSpec (specObject : SpecObject) (fileName : string)
    (extension : SpecExtension) (specString : string) (currTime : Z)
    (db : DB.t) : Exc unit * DB.t :=
  match getOpenAPISpecVersion specObject with
  | None | Some 0 =>
      (inl (Errors.Error422UnprocessableEntity
              "Invalid OpenAPI Spec: No 'swagger' or 'openapi' field defined."),
       db)
  | Some _ =>
      match validateSpecSchema specObject None with
      | _ :: _ =>
          (inl (Errors.Error422UnprocessableEntity "Invalid OpenAPI Spec"), db)
      | [] =>
          match deleteSpec fileName db with
          | (inl err, db1) => (inl err, db1)
          | (inr tt, db1) =>
              uploadNewSpec specObject fileName extension specString currTime
                db1
          end
      end
  end.

End WithTools.
End SpecService.

(** ** The state of the test editor *)
Module TestEditor.
Section Editor.
(** A request of a test, the endpoint under test, and the fields of a test
    other than its name and its requests. *)
Variables (Request Endpoint Rest : Type).
Variable makeNewEmptyRequest : Endpoint -> Request.

Record Test : Type := {
  name : string;
  requests : list Request;
  rest : Rest
}.

Record TestEditorState : Type := {
  test : Test;
  selectedRequest : nat
}.

Definition withRequests (t : Test) (newRequests : list Request) : Test :=
  {| name := name t; requests := newRequests; rest := rest t |}.

(** [requests.filter((_, i) => i != idx)], from index [i] on. *)
Fixpoint dropIndexFrom (i idx : nat) (l : list Request) : list Request :=
  match l with
  | [] => []
  | x :: tail =>
      if i =? idx then dropIndexFrom (S i) idx tail
      else x :: dropIndexFrom (S i) idx tail
  end.

(** The state update of [updateSelectedRequest]. *)
Definition updateSelectedRequest (e : nat) (state : TestEditorState)
    : TestEditorState :=
  {| test := test state; selectedRequest := e |}.

(** The state update of [updateTest]. *)
Definition updateTest (t : Test -> Test) (state : TestEditorState)
    : TestEditorState :=
  {| test := t (test state); selectedRequest := selectedRequest state |}.

(** The state update of [addNewRequest]. *)
Definition addNewRequest (endpoint : Endpoint) (state : TestEditorState)
    : TestEditorState :=
  let newRequests := requests (test state) ++ [makeNewEmptyRequest endpoint] in
  {| selectedRequest := length newRequests - 1;
     test := withRequests (test state) newRequests |}.

(** The state update of [deleteRequest]. *)
Definition deleteRequest (idx : nat) (state : TestEditorState)
    : TestEditorState :=
  if length (requests (test state)) =? 1 then state
  else
    let newRequests := dropIndexFrom 0 idx (requests (test state)) in
    let newSelectedRequest :=
      if idx <=? selectedRequest state
      then Nat.max (selectedRequest state - 1) 0
      else selectedRequest state in
    {| selectedRequest := newSelectedRequest;
       test := withRequests (test state) newRequests |}.

(** The editor always shows a request: there is one, and the selection
    points at one. *)
Definition wellFormed (state : TestEditorState) : Prop :=
  1 <= length (requests (test state))
  /\ selectedRequest state < length (requests (test state)).
End Editor.

Arguments name {Request Rest} _.
Arguments requests {Request Rest} _.
Arguments rest {Request Rest} _.
Arguments test {Request Rest} _.
Arguments selectedRequest {Request Rest} _.
Arguments wellFormed {Request Rest} _.
Arguments deleteRequest {Request Rest} _ _.
Arguments addNewRequest {Request Endpoint Rest} _ _ _.
Arguments dropIndexFrom {Request} _ _ _.
End TestEditor.

(** ** The shape of a batch map *)
Module Plan.
Import ApiEndpoint Resolver.

(** The representation lists every key once, in the batch map and in each
    supersede set, as an object does. *)
Definition wellKeyed (m : JSObj.obj EndpointsMap) : Prop :=
  NoDup (JSObj.keys m)
  /\ forall k entry, JSObj.get m k = Some entry ->
                     NoDup (JSObj.keys (similarEndpoints entry)).

(** An identity that is not itself a candidate of the batch is superseded
    by at most one candidate. *)
Definition singleHolder (m : JSObj.obj EndpointsMap) : Prop :=
  forall u k1 k2, JSObj.get m u = None ->
    In u (supersedes m k1) -> In u (supersedes m k2) -> k1 = k2.

Definition consistent (m : JSObj.obj EndpointsMap) : Prop :=
  wellKeyed m /\ singleHolder m.

Section WithTools.
Context {SpecObject Server : Type} `{Tools SpecObject Server}.

(** [item] is stored, has the method and host of the edit, and its
    pattern matches the path of [candidate] or the other way round. *)
Definition overlaps (db : DB.t) (method host : string)
    (candidate item : ApiEndpoint.t) : Prop :=
  In item (DB.endpoints db)
  /\ ApiEndpoint.method item = method
  /\ ApiEndpoint.host item = host
  /\ (regexMatch (pathRegex item) (path candidate)
      || regexMatch (getPathRegex (path candidate)) (path item)) = true.

Definition withinScope (db : DB.t) (method host : string)
    (m : JSObj.obj EndpointsMap) : Prop :=
  forall k entry u item, In (k, entry) m ->
    In (u, item) (similarEndpoints entry) ->
    u = uuid item /\ overlaps db method host (endpoint entry) item.
End WithTools.
End Plan.

(** ** Concrete samples *)
Module Samples.

Definition traceOf (path : string) : ApiTrace.t :=
  ApiTrace.mk "" "endpoint-1" path 0 [] [] None 200 [] None.

(** Ten traces: nine of [/users/a] and one of [/users/b]. *)
Definition nineAndOne : list ApiTrace.t :=
  replicate 9 (traceOf "/users/a") ++ [traceOf "/users/b"].

(** Eleven traces: ten of [/users/a] and one of [/users/b]. *)
Definition tenAndOne : list ApiTrace.t :=
  replicate 10 (traceOf "/users/a") ++ [traceOf "/users/b"].

(** Three traces of the same literal path. *)
Definition threeIdentical : list ApiTrace.t :=
  replicate 3 (traceOf "/users/123").

(** Thirty traces of [/u/<id>]: the identifiers 1 to 29, and 2 once more.
    Every identifier stays below the threshold. *)
Definition thirty : list ApiTrace.t :=
  map (fun n : nat => traceOf ("/u/" +:+ pretty n)) (seq 1 29)
  ++ [traceOf "/u/2"].

(** Three traces, two templates of different confidence. *)
Definition mixed : list ApiTrace.t :=
  [traceOf "/a/x"; traceOf "/b/y"; traceOf "/b/z"].

(** Three traces of a path whose token names an inherited property. *)
Definition constructorPaths : list ApiTrace.t :=
  replicate 3 (traceOf "/constructor").

(** Eleven traces: ten of [/users/a] and one whose second token names an
    inherited property. *)
Definition inheritedToken : list ApiTrace.t :=
  replicate 10 (traceOf "/users/a") ++ [traceOf "/users/toString"].

(** Two traces of the root path, which has no token. *)
Definition rootPaths : list ApiTrace.t :=
  replicate 2 (traceOf "/").

(** Two traces of the root path and one of [/a]. *)
Definition withRoot : list ApiTrace.t :=
  [traceOf "/"; traceOf "/a"; traceOf "/"].

(** A path validator for the samples: a path is valid when it is present
    and starts with the separator. *)
Definition validate (path : option string) : LogRequest.ValidPath :=
  match path with
  | Some (String "/" rest) =>
      {| LogRequest.isValid := true;
         LogRequest.validPath := String "/" rest;
         LogRequest.errMsg := "" |}
  | Some _ =>
      {| LogRequest.isValid := false;
         LogRequest.validPath := "";
         LogRequest.errMsg := "Path must start with /" |}
  | None =>
      {| LogRequest.isValid := false;
         LogRequest.validPath := "";
         LogRequest.errMsg := "No path" |}
  end.

(** Collaborators that leave the trace as it is. *)
Definition redact (ctx : unit) (trace : LogRequest.QueuedApiTrace)
    : Exc LogRequest.QueuedApiTrace := inr trace.
Definition withSession (ctx : unit) (trace : LogRequest.QueuedApiTrace)
    : Exc LogRequest.QueuedApiTrace := inr trace.

Definition paramsFor (path : string) : LogRequest.TraceParams :=
  {| LogRequest.request :=
       Some {| LogRequest.url :=
                 Some {| LogRequest.host := Some "api.example.com";
                         LogRequest.path := Some path;
                         LogRequest.parameters := None |};
               LogRequest.reqHeaders := None;
               LogRequest.reqBody := None;
               LogRequest.method := Some "GET" |};
     LogRequest.response := None;
     LogRequest.meta := None |}.

Definition goodTrace : LogRequest.TraceParams := paramsFor "/users/7".
Definition badTrace : LogRequest.TraceParams := paramsFor "users/8".

(** What [goodTrace] looks like in the queue. *)
Definition queued (path : string) : LogRequest.QueuedApiTrace :=
  LogRequest.buildTrace (validate (Some path)) (Some (paramsFor path)) 0.

Definition redisDown : Errors.t := Errors.mk None "ECONNREFUSED".

Definition emptyWorld : LogRequest.World unit :=
  {| LogRequest.tracesQueue := [];
     LogRequest.llenFault := None;
     LogRequest.rpushFault := None;
     LogRequest.now := 0 |}.

Definition oneQueued : LogRequest.World unit :=
  {| LogRequest.tracesQueue := [((), queued "/users/7")];
     LogRequest.llenFault := None;
     LogRequest.rpushFault := None;
     LogRequest.now := 0 |}.

(** A backlog of 1001 pending traces. *)
Definition fullWorld : LogRequest.World unit :=
  {| LogRequest.tracesQueue := replicate 1001 ((), queued "/users/7");
     LogRequest.llenFault := None;
     LogRequest.rpushFault := None;
     LogRequest.now := 0 |}.

(** The length query fails; pushing still works. *)
Definition blindWorld : LogRequest.World unit :=
  {| LogRequest.tracesQueue := [];
     LogRequest.llenFault := Some redisDown;
     LogRequest.rpushFault := None;
     LogRequest.now := 0 |}.

(** *** A persistence layer and a spec for the resolver *)

(** A spec document as the sample tools see it. *)
Record SampleSpec : Type := {
  version : option nat;
  paths : JSObj.obj (list string);
  servers : list string
}.

Definition copyDataFields (ids : list string) (uuid : string)
    (rows : list DataField.t) : list DataField.t :=
  rows
  ++ map (fun d => DataField.mk (DataField.uuid d) uuid (DataField.dataPath d))
       (List.filter (fun d => DB.inIds ids (DataField.apiEndpointUuid d)) rows).

Definition copyAggregates (uuid : string) (ids : list string)
    (rows : list AggregateTraceDataHourly.t)
    : list AggregateTraceDataHourly.t :=
  rows
  ++ map (fun g =>
            AggregateTraceDataHourly.mk uuid (AggregateTraceDataHourly.hour g)
              (AggregateTraceDataHourly.numCalls g))
       (List.filter
          (fun g => DB.inIds ids (AggregateTraceDataHourly.apiEndpointUuid g))
          rows).

Definition dropEndpoints (ids : list string) (db : DB.t) : DB.t :=
  DB.withEndpoints db
    (List.filter (fun e => negb (DB.inIds ids (ApiEndpoint.uuid e)))
       (DB.endpoints db)).

(** A path is accepted when it starts with the separator and has the
    expected number of tokens. *)
Definition validateTokens (path : string) (numTokens : nat)
    : LogRequest.ValidPath :=
  if LogRequest.isValid (validate (Some path))
     && (length (PathUtils.getPathTokens path) =? numTokens)
  then {| LogRequest.isValid := true;
          LogRequest.validPath := path;
          LogRequest.errMsg := "" |}
  else {| LogRequest.isValid := false;
          LogRequest.validPath := "";
          LogRequest.errMsg := "Invalid path" |}.

#[global] Instance sampleTools : Resolver.Tools SampleSpec string := {|
  Resolver.getOpenAPISpecVersion := version;
  Resolver.validateSpecSchema := fun _ _ => [];
  Resolver.convertObj := fun s => inr (Some s);
  Resolver.stringify := fun _ _ => "";
  Resolver.specPaths := paths;
  Resolver.restMethods :=
    ["GET"; "HEAD"; "POST"; "PUT"; "PATCH"; "DELETE"; "OPTIONS"; "TRACE"];
  Resolver.getServersV3 := fun s _ _ => servers s;
  Resolver.getHostsV3 := fun hosts => hosts;
  Resolver.getPathRegex := fun path => path;
  Resolver.regexMatch := PathUtils.matchesPattern;
  Resolver.countParams := PathUtils.numberParams;
  Resolver.uuidv4 := fun n => "new-" +:+ pretty n;
  Resolver.getValidPath := validateTokens;
  Resolver.getPathTokens := PathUtils.getPathTokens;
  Resolver.insertDataFieldQuery := copyDataFields;
  Resolver.insertAggregateHourlyQuery := copyAggregates;
  Resolver.deleteEndpointsBatch := dropEndpoints
|}.

Definition apiHost : string := "api.example.com".

Definition endpointOf (uuid path : string) (risk : option RiskScore.t)
    (first last : option Z) (specName : option string) : ApiEndpoint.t :=
  ApiEndpoint.mk uuid path path "GET" apiHost (PathUtils.numberParams path)
    risk first last specName.

Definition userSpec : OpenApiSpec.t :=
  OpenApiSpec.mk "orders-v1" "" false JSON [apiHost] 0 0 0.

(** [/orders/{id}] is owned by the user-declared document [orders-v1]. *)
Definition ownedDb : DB.t :=
  DB.mk [userSpec]
    [endpointOf "e-orders" "/orders/{id}" (Some RiskScore.LOW) (Some 1%Z)
       (Some 2%Z) (Some "orders-v1")]
    [ApiTrace.mk "t-1" "e-orders" "/orders/5" 1 [] [] None 200 [] None]
    [] [] [].

(** A second document declares [/health] and then [/orders/{id}]. *)
Definition clashingSpec : SampleSpec :=
  {| version := Some 3;
     paths := [("/health", ["get"]); ("/orders/{id}", ["get"; "summary"])];
     servers := [apiHost] |}.

(** One identity [/users/{id}] from traffic, owned by no document. *)
Definition usersDb : DB.t :=
  DB.mk []
    [endpointOf "e-users" "/users/{id}" (Some RiskScore.HIGH) (Some 5%Z)
       (Some 9%Z) None]
    [ApiTrace.mk "t-2" "e-users" "/users/7" 6 [] [] None 200 [] None]
    [] [] [].

(** A document that declares two templates overlapping [/users/{id}]. *)
Definition twoTemplates : SampleSpec :=
  {| version := Some 3;
     paths := [("/users/{x}", ["get"]); ("/users/{y}", ["get"])];
     servers := [apiHost] |}.

(** A document that declares the one template [/users/{userId}]. *)
Definition oneTemplate : SampleSpec :=
  {| version := Some 3;
     paths := [("/users/{userId}", ["get"])];
     servers := [apiHost] |}.

Definition usersIdentity : ApiEndpoint.t :=
  endpointOf "e-users" "/users/{id}" (Some RiskScore.HIGH) (Some 5%Z)
    (Some 9%Z) None.

(** The two candidates that the upload of [twoTemplates] creates, and the
    batch map at the moment the second one has been recorded. *)
Definition firstCandidate : ApiEndpoint.t :=
  endpointOf "new-0" "/users/{x}" None None None (Some "users-v1").

Definition secondCandidate : ApiEndpoint.t :=
  endpointOf "new-1" "/users/{y}" None None None (Some "users-v1").

Definition midBatch : JSObj.obj Resolver.EndpointsMap :=
  [("new-0",
    {| Resolver.endpoint := firstCandidate;
       Resolver.similarEndpoints := [("e-users", usersIdentity)] |});
   ("new-1",
    {| Resolver.endpoint := secondCandidate;
       Resolver.similarEndpoints := [] |})].

(** An identity whose activity window is the wrong way round. *)
Definition reversedWindow : ApiEndpoint.t :=
  endpointOf "e-odd" "/users/{id}" (Some RiskScore.LOW) (Some 9%Z)
    (Some 5%Z) None.

(** A batch entry that supersedes [usersIdentity]. *)
Definition mergingItem : Resolver.EndpointsMap :=
  {| Resolver.endpoint := firstCandidate;
     Resolver.similarEndpoints := [("e-users", usersIdentity)] |}.

(** One identity [/{a}/{b}] with two parameter segments. *)
Definition wideDb : DB.t :=
  DB.mk [] [endpointOf "e-wide" "/{a}/{b}" None None None None] [] [] [] [].

(** *** Collaborators for the diff

    The contract is a line of text; it parses unless it is empty.  The
    validators report one finding when the trace has no response body.
    The repository drops an absent criterion: asked for the document with
    no name, it answers with the first document it stores. *)
Definition diffFinding : Alert.t :=
  Alert.mk "alert-1" AlertType.OPEN_API_SPEC_DIFF "e-orders"
    "Required property missing".

#[global] Instance diffTools (db : DB.t)
    : SpecDiff.Tools string string string string unit unit := {|
  SpecDiff.findOneBy := fun specName =>
    inr (match specName with
         | Some n => DB.findSpec db n
         | None => head (DB.specs db)
         end);
  SpecDiff.getBlockFieldsEntry := fun _ => inr None;
  SpecDiff.yamlLoad := fun text =>
    if String.eqb text ""
    then inl (Errors.mk None "YAMLException: empty document")
    else inr text;
  SpecDiff.dereference := fun specObject => inr specObject;
  SpecDiff.getSpecRequestParameters := fun _ _ =>
    inr (Some {| SpecDiff.specPath := ["paths"]; SpecDiff.specValue := "" |});
  SpecDiff.getSpecRequestBody := fun _ _ =>
    inr (Some {| SpecDiff.specPath := ["paths"]; SpecDiff.specValue := "" |});
  SpecDiff.getSpecResponses := fun _ _ =>
    inr (Some {| SpecDiff.specPath := ["paths"]; SpecDiff.specValue := "" |});
  SpecDiff.componentSchemas := fun _ => "";
  SpecDiff.components := fun _ => None;
  SpecDiff.newRequestValidator := fun _ _ _ => inr tt;
  SpecDiff.validateRequest := fun _ _ => inr [];
  SpecDiff.newResponseValidator := fun _ _ => inr tt;
  SpecDiff.validateResponse := fun _ _ responseBody _ =>
    inr (if String.eqb responseBody "" then ["required"] else []);
  SpecDiff.getPathTokens := PathUtils.getPathTokens;
  SpecDiff.isParameter := PathUtils.isParameter;
  SpecDiff.kindOf := fun _ => PlainObject.Primitive;
  SpecDiff.parsePathParameter := fun segment => inr (default "" segment);
  SpecDiff.parsedJsonNonNull := fun text _ => inr (default "" text);
  SpecDiff.generateAlertMessageFromReqErrors := fun _ _ _ _ _ => inr [];
  SpecDiff.generateAlertMessageFromRespErrors := fun errors _ _ =>
    inr (map (fun e => (e, ["responses"])) errors);
  SpecDiff.createSpecDiffAlerts := fun items _ _ _ =>
    inr (map (fun _ => diffFinding) items)
|}.

Definition ordersTrace : ApiTrace.t :=
  ApiTrace.mk "t-1" "e-orders" "/orders/5" 1 [] [] None 200 [] None.

Definition ordersEndpoint : ApiEndpoint.t :=
  endpointOf "e-orders" "/orders/{id}" (Some RiskScore.LOW) (Some 1%Z)
    (Some 2%Z) (Some "orders-v1").

(** An endpoint that names no contract. *)
Definition undeclaredEndpoint : ApiEndpoint.t :=
  endpointOf "e-orders" "/orders/{id}" (Some RiskScore.LOW) (Some 1%Z)
    (Some 2%Z) None.

(** The same tables, the contract of [orders-v1] being one line of text,
    empty text, or auto-generated. *)
Definition specDb (text : string) (auto : bool) : DB.t :=
  DB.mk [OpenApiSpec.mk "orders-v1" text auto JSON [apiHost] 0 0 0]
    [ordersEndpoint] [ordersTrace] [] [] [].

End Samples.

(** ** Further samples *)
Module MoreSamples.
Import Samples.

(** The logging service with the sample collaborators. *)
Definition log (traceParams : option LogRequest.TraceParams)
    (w : LogRequest.World unit) : Exc unit * LogRequest.World unit :=
  LogRequest.logRequest unit validate redact withSession tt traceParams w.

Definition logBatch (batch : list (option LogRequest.TraceParams))
    (w : LogRequest.World unit) : Exc unit * LogRequest.World unit :=
  LogRequest.logRequestBatch unit validate redact withSession tt batch w.

(** Traces of two endpoints, not in order of time. *)
Definition traceTable : list ApiTrace.t :=
  [ApiTrace.mk "t-1" "endpoint-1" "/users/1" 10 [] [] None 200 [] None;
   ApiTrace.mk "t-2" "endpoint-2" "/orders/1" 20 [] [] None 200 [] None;
   ApiTrace.mk "t-3" "endpoint-1" "/users/2" 30 [] [] None 200 [] None].

(** A test of three requests, named by text, the second one selected. *)
Definition editorState : TestEditor.TestEditorState string unit :=
  {| TestEditor.test :=
       {| TestEditor.name := "login";
          TestEditor.requests := ["first"; "second"; "third"];
          TestEditor.rest := tt |};
     TestEditor.selectedRequest := 1 |}.

(** The statement that removes the diff alerts of a document: the alerts
    of that kind on the endpoints the document owns. *)
Definition dropDiffAlerts (fileName : string) (db : DB.t) : list Alert.t :=
  List.filter
    (fun a =>
       negb (match Alert.type a with
             | AlertType.OPEN_API_SPEC_DIFF =>
                 existsb
                   (fun e =>
                      String.eqb (ApiEndpoint.uuid e) (Alert.apiEndpointUuid a)
                      && SpecService.ownedBy fileName e)
                   (DB.endpoints db)
             | _ => false
             end))
    (DB.alerts db).

Definition deleteSpec : string -> DB.t -> Exc unit * DB.t :=
  SpecService.deleteSpec dropDiffAlerts.

Definition updateSpec (specObject : SampleSpec) (fileName : string)
    (currTime : Z) (db : DB.t) : Exc unit * DB.t :=
  SpecService.updateSpec dropDiffAlerts specObject fileName JSON "" currTime db.

(** A document whose one operation names no server, and one that is
    complete. *)
Definition serverless : SampleSpec :=
  {| version := Some 3;
     paths := [("/orders/{id}", ["get"])];
     servers := [] |}.

Definition ordersV2 : SampleSpec :=
  {| version := Some 3;
     paths := [("/orders/{id}", ["get"])];
     servers := [apiHost] |}.

(** The tables of [ownedDb] with the document [auto-v1] in addition, which
    was generated from traffic. *)
Definition autoSpec : OpenApiSpec.t :=
  OpenApiSpec.mk "auto-v1" "" true JSON [apiHost] 3 7 7.

Definition mixedDb : DB.t := DB.withSpecs ownedDb [userSpec; autoSpec].

(** A batch map with one candidate that supersedes nothing. *)
Definition plainPlan : JSObj.obj Resolver.EndpointsMap :=
  [("new-0",
    {| Resolver.endpoint := firstCandidate;
       Resolver.similarEndpoints := [] |})].

End MoreSamples.

(** * Insertion-ordered objects: basic facts *)
Section JSObjFacts.
Context {V : Type}.
Implicit Types (o : JSObj.obj V) (k : string) (v : V).

Lemma get_set_eq o k v : JSObj.get (JSObj.set o k v) k = Some v.
Proof.
  induction o as [|[k' v'] o IH]; simpl.
  - by rewrite String.eqb_refl.
  - destruct (String.eqb k' k) eqn:E; simpl; rewrite E; done.
Qed.

Lemma get_set_ne o k k' v :
  k ≠ k' → JSObj.get (JSObj.set o k v) k' = JSObj.get o k'.
Proof.
  intros Hne. induction o as [|[k0 v0] o IH]; simpl.
  - destruct (String.eqb_spec k k'); done.
  - destruct (String.eqb_spec k0 k) as [->|Hk]; simpl.
    + destruct (String.eqb_spec k k'); done.
    + by rewrite IH.
Qed.

Lemma get_del_eq o k :
  NoDup (JSObj.keys o) → JSObj.get (JSObj.del o k) k = None.
Proof.
  induction o as [|[k0 v0] o IH]; simpl; [done|].
  intros [Hnin Hnd]%NoDup_cons.
  destruct (String.eqb_spec k0 k) as [->|Hk]; simpl.
  - clear IH Hnd. induction o as [|[k1 v1] o IH]; simpl; [done|].
    simpl in Hnin. apply not_elem_of_cons in Hnin as [Hne Hnin].
    destruct (String.eqb_spec k1 k); [congruence|]. by apply IH.
  - destruct (String.eqb_spec k0 k); [done|]. by apply IH.
Qed.

Lemma get_del_ne o k k' :
  k ≠ k' → JSObj.get (JSObj.del o k) k' = JSObj.get o k'.
Proof.
  intros Hne. induction o as [|[k0 v0] o IH]; simpl; [done|].
  destruct (String.eqb_spec k0 k) as [->|Hk]; simpl.
  - destruct (String.eqb_spec k k'); done.
  - by rewrite IH.
Qed.

Lemma elem_of_keys o k : k ∈ JSObj.keys o ↔ is_Some (JSObj.get o k).
Proof.
  induction o as [|[k0 v0] o IH]; simpl.
  - split; [by intros ?%elem_of_nil | by intros [? ?]].
  - rewrite elem_of_cons, IH.
    destruct (String.eqb_spec k0 k) as [->|Hk].
    + split; [intros _; by eexists | intros _; by left].
    + split; [intros [?|?]; [congruence|done] | by right].
Qed.

Lemma keys_set_fresh o k v :
  JSObj.get o k = None → JSObj.keys (JSObj.set o k v) = JSObj.keys o ++ [k].
Proof.
  induction o as [|[k0 v0] o IH]; simpl; [done|].
  destruct (String.eqb_spec k0 k); [done|]. intros H. simpl. by rewrite IH.
Qed.

Lemma keys_set_present o k v :
  is_Some (JSObj.get o k) → JSObj.keys (JSObj.set o k v) = JSObj.keys o.
Proof.
  induction o as [|[k0 v0] o IH]; simpl; [by intros [? ?]|].
  destruct (String.eqb_spec k0 k); [done|]. intros H. simpl. by rewrite IH.
Qed.

Lemma keys_del_subseteq o k : JSObj.keys (JSObj.del o k) ⊆ JSObj.keys o.
Proof.
  induction o as [|[k0 v0] o IH]; simpl; [done|].
  destruct (String.eqb k0 k); simpl.
  - intros x Hx. by apply elem_of_cons; right.
  - intros x [->|Hx]%elem_of_cons; apply elem_of_cons; [by left|].
    right. by apply IH.
Qed.

Lemma NoDup_keys_set o k v :
  NoDup (JSObj.keys o) → NoDup (JSObj.keys (JSObj.set o k v)).
Proof.
  intros Hnd. destruct (JSObj.get o k) eqn:E.
  - rewrite keys_set_present; [done|by eauto].
  - rewrite keys_set_fresh by done.
    apply NoDup_app. split_and!; [done| |apply NoDup_singleton].
    intros x Hx ->%list_elem_of_singleton.
    apply elem_of_keys in Hx as [? ?]. congruence.
Qed.

Lemma NoDup_keys_del o k :
  NoDup (JSObj.keys o) → NoDup (JSObj.keys (JSObj.del o k)).
Proof.
  induction o as [|[k0 v0] o IH]; simpl; [done|].
  intros [Hnin Hnd]%NoDup_cons.
  destruct (String.eqb k0 k); simpl; [done|].
  apply NoDup_cons. split; [|by apply IH].
  intros Hin. apply Hnin. by eapply keys_del_subseteq.
Qed.
End JSObjFacts.

(** * The stable sort: it permutes, and it sorts when the comparator is
      consistent on the elements *)
Section StableSortFacts.
Context {A : Type} (comesFirst : A → A → bool).

Lemma insertSorted_Permutation x l : insertSorted comesFirst x l ≡ₚ x :: l.
Proof.
  induction l as [|y l IH]; simpl; [done|].
  destruct (comesFirst y x); [|done].
  rewrite IH. apply Permutation_swap.
Qed.

Lemma stableSort_Permutation l : stableSort comesFirst l ≡ₚ l.
Proof.
  induction l as [|x l IH]; simpl; [done|].
  rewrite insertSorted_Permutation. by rewrite IH.
Qed.

(** [R x y]: [x] may stand before [y]. *)
Context (R : A → A → Prop) (P : A → Prop).
Hypothesis R_trans : ∀ x y z, R x y → R y z → R x z.
Hypothesis first_R : ∀ x y, P x → P y → comesFirst y x = true → R y x.
Hypothesis notfirst_R : ∀ x y, P x → P y → comesFirst y x = false → R x y.

Lemma insertSorted_sorted x l :
  P x → Forall P l → StronglySorted R l →
  StronglySorted R (insertSorted comesFirst x l).
Proof.
  intros Hx. induction l as [|y l IH]; simpl; intros HP Hs.
  - repeat constructor.
  - apply Forall_cons in HP as [Hy HP].
    apply StronglySorted_cons in Hs as [Hall Hs].
    destruct (comesFirst y x) eqn:E.
    + apply StronglySorted_cons. split; [|by apply IH].
      rewrite insertSorted_Permutation. apply Forall_cons. split; [|done].
      by apply first_R.
    + apply StronglySorted_cons. split.
      * apply Forall_cons. split; [by apply notfirst_R|].
        eapply Forall_impl; [exact Hall|]. intros z Hz.
        eapply R_trans; [|exact Hz]. by apply notfirst_R.
      * apply StronglySorted_cons. done.
Qed.

Lemma stableSort_sorted l :
  Forall P l → StronglySorted R (stableSort comesFirst l).
Proof.
  induction l as [|x l IH]; simpl; intros HP; [constructor|].
  apply Forall_cons in HP as [Hx HP].
  apply insertSorted_sorted; [done| |by apply IH].
  fold (stableSort comesFirst l). by rewrite stableSort_Permutation.
Qed.
End StableSortFacts.
(** * Properties of the statistical path generalizer *)
Section GeneralizerFacts.
Import JSNum Generalizer.
Variable getPathTokens : string -> list string.

Local Abbreviation tokensOf tr := (getPathTokens (ApiTrace.path tr)).

(** *** The counters *)

Lemma increment_same token c inner :
  inner !! token = countedAs token c →
  increment token inner !! token = countedAs token (S c).
Proof.
  unfold countedAs, increment.
  destruct (ObjectPrototype.has token) eqn:Hh,
           (String.eqb token "__proto__") eqn:Hp, c as [|c];
    simpl; intros Hin; rewrite Hin; simpl; rewrite ?Hh, ?Hp; simpl;
    rewrite ?lookup_insert_eq, ?Hin; done.
Qed.

Lemma increment_other token token' inner :
  token ≠ token' → increment token inner !! token' = inner !! token'.
Proof.
  intros Hne. unfold increment.
  destruct (inner !! token) as [[[|c]|k]|];
    rewrite ?lookup_insert_ne by done; try done.
  destruct (ObjectPrototype.has token);
    [destruct (String.eqb token "__proto__")|];
    rewrite ?lookup_insert_ne by done; done.
Qed.

Lemma counterAt_bump cm pos token (f : nat → string → nat) :
  (∀ j t, counterAt cm j t = countedAs t (f j t)) →
  ∀ j t, counterAt (bump pos token cm) j t
         = countedAs t
             (f j t + (if bool_decide (pos = j ∧ token = t) then 1 else 0)).
Proof.
  intros Hf j t. unfold bump, counterAt at 1. cbv zeta.
  destruct (decide (pos = j)) as [->|Hne].
  - rewrite lookup_insert_eq.
    assert (default ∅ (cm !! j) !! t = countedAs t (f j t)) as Hin.
    { rewrite <- Hf. unfold counterAt. destruct (cm !! j); [done|].
      simpl. by rewrite lookup_empty. }
    destruct (decide (token = t)) as [->|Hne'].
    + rewrite bool_decide_eq_true_2 by done. rewrite Nat.add_1_r.
      by apply increment_same.
    + rewrite bool_decide_eq_false_2 by (intros [_ ?]; done).
      by rewrite Nat.add_0_r, increment_other.
  - rewrite lookup_insert_ne by done.
    rewrite bool_decide_eq_false_2 by (intros [? _]; done).
    rewrite Nat.add_0_r. apply Hf.
Qed.

Lemma counterAt_countTokens toks : ∀ cm i (f : nat → string → nat),
  (∀ j t, counterAt cm j t = countedAs t (f j t)) →
  ∀ j t, counterAt (countTokens cm i toks) j t
         = countedAs t
             (f j t
              + (if bool_decide (i ≤ j ∧ toks !! (j - i) = Some t)
                 then 1 else 0)).
Proof.
  induction toks as [|tok toks IH]; intros cm i f Hf j t; simpl.
  - rewrite bool_decide_eq_false_2 by (intros [_ ?]; done).
    rewrite Nat.add_0_r. apply Hf.
  - rewrite (IH _ (S i)
               (λ j t, f j t
                       + (if bool_decide (i = j ∧ tok = t) then 1 else 0)))
      by (by apply counterAt_bump).
    f_equal. rewrite <- Nat.add_assoc. f_equal.
    destruct (decide (i = j)) as [->|Hne].
    + replace (j - j) with 0 by lia. simpl.
      rewrite (bool_decide_eq_false_2 (S j ≤ j ∧ _)) by lia.
      destruct (decide (tok = t)) as [->|Hne'].
      * rewrite !bool_decide_eq_true_2; [lia|done|done].
      * rewrite !bool_decide_eq_false_2; [lia| |]; intros [_ ?]; congruence.
    + rewrite (bool_decide_eq_false_2 (i = j ∧ _)) by (intros [? _]; done).
      destruct (decide (i ≤ j)) as [Hle|Hgt].
      * replace (j - i) with (S (j - S i)) by lia. simpl.
        rewrite (bool_decide_ext (S i ≤ j ∧ toks !! (j - S i) = Some t)
                   (i ≤ j ∧ toks !! (j - S i) = Some t)); [lia|].
        split; intros [? ?]; split; (lia || done).
      * rewrite !bool_decide_eq_false_2; [lia| |]; intros [? ?]; lia.
Qed.

Lemma counterAt_fold traces : ∀ cm (f : nat → string → nat),
  (∀ j t, counterAt cm j t = countedAs t (f j t)) →
  ∀ j t,
    counterAt
      (fold_left
         (fun counterMap trace => countTokens counterMap 0 (tokensOf trace))
         traces cm) j t
    = countedAs t (f j t + occurrences getPathTokens traces j t).
Proof.
  induction traces as [|tr traces IH]; intros cm f Hf j t; simpl.
  - unfold occurrences. simpl. rewrite Nat.add_0_r. apply Hf.
  - rewrite (IH _ (λ j t, f j t
                          + (if bool_decide
                                  (0 ≤ j ∧ tokensOf tr !! (j - 0) = Some t)
                             then 1 else 0)))
      by (by apply counterAt_countTokens).
    f_equal. rewrite <- Nat.add_assoc. f_equal. unfold occurrences.
    rewrite filter_cons. replace (j - 0)%nat with j by lia.
    case_decide as Hd.
    + rewrite bool_decide_eq_true_2 by (split; [lia|done]). simpl. lia.
    + rewrite bool_decide_eq_false_2 by (intros [_ ?]; done). lia.
Qed.

(** What [getCounterMap] stores for a position and a token is decided by
    the number of sampled traces with that token at that position. *)
Lemma getCounterMap_counts traces j token :
  counterAt (getCounterMap getPathTokens traces) j token
  = countedAs token (occurrences getPathTokens traces j token).
Proof.
  unfold getCounterMap.
  by rewrite (counterAt_fold traces ∅ (λ _ _, 0)).
Qed.

Lemma bump_position cm pos token j :
  is_Some (cm !! j) ∨ j = pos → is_Some (bump pos token cm !! j).
Proof.
  unfold bump. cbv zeta. destruct (decide (pos = j)) as [->|Hne].
  - rewrite lookup_insert_eq. by eauto.
  - rewrite lookup_insert_ne by done. intros [?|?]; [done|congruence].
Qed.

Lemma countTokens_position toks : ∀ cm i j,
  is_Some (cm !! j) ∨ (i ≤ j ∧ j < i + length toks) →
  is_Some (countTokens cm i toks !! j).
Proof.
  induction toks as [|tok toks IH]; intros cm i j Hj; simpl.
  - destruct Hj as [?|[? ?]]; [done|]. simpl in *. lia.
  - apply IH. simpl in Hj.
    destruct (decide (j = i)) as [->|Hne].
    + left. apply bump_position. by right.
    + destruct Hj as [Hj|[? ?]]; [|right; lia].
      left. apply bump_position. by left.
Qed.

(** The counter map has an entry for every position of every sampled
    path. *)
Lemma getCounterMap_position traces tr j :
  tr ∈ traces → j < length (tokensOf tr) →
  is_Some (getCounterMap getPathTokens traces !! j).
Proof.
  intros Hin Hj. unfold getCounterMap.
  assert (is_Some ((∅ : counter) !! j) ∨ ∃ x, x ∈ traces ∧ j < length (tokensOf x))
    as Hstart by (right; by eauto).
  revert Hstart. generalize (∅ : counter). clear Hin Hj.
  induction traces as [|x traces IH]; intros cm Hcm; simpl.
  - destruct Hcm as [?|(x & Hx & _)]; [done|by apply elem_of_nil in Hx].
  - apply IH. destruct Hcm as [Hcm|(y & [->|Hy]%elem_of_cons & Hlen)].
    + left. apply countTokens_position. by left.
    + left. apply countTokens_position. right. lia.
    + right. by eauto.
Qed.

Lemma occurrences_le traces i token :
  occurrences getPathTokens traces i token ≤ length traces.
Proof. apply length_filter. Qed.

Lemma occurrences_pos traces tr i token :
  tr ∈ traces → tokensOf tr !! i = Some token →
  0 < occurrences getPathTokens traces i token.
Proof.
  intros Hin Htok. unfold occurrences.
  assert (tr ∈ filter (λ tr, tokensOf tr !! i = Some token) traces)
    as Hf by (by apply list_elem_of_filter).
  destruct (filter _ traces); [by apply elem_of_nil in Hf|simpl; lia].
Qed.

(** *** One segment *)

(** On the counter map of the sample, a segment of a sampled path is
    rendered from the number of its occurrences. *)
Lemma renderSegment_sample traces tr i token paramNum :
  tr ∈ traces → tokensOf tr !! i = Some token →
  renderSegment (getCounterMap getPathTokens traces) (length traces)
    i token paramNum
  = Some (if lt (computedFraction token
                   (occurrences getPathTokens traces i token)
                   (length traces)) THRESHOLD
          then ("/{param" +:+ pretty paramNum +:+ "}",
                computedFraction token
                  (occurrences getPathTokens traces i token)
                  (length traces),
                S paramNum)
          else ("/" +:+ token,
                computedFraction token
                  (occurrences getPathTokens traces i token)
                  (length traces),
                paramNum)).
Proof.
  intros Hin Htok. unfold renderSegment.
  pose proof (occurrences_pos traces tr i token Hin Htok) as Hpos.
  pose proof (getCounterMap_counts traces i token) as Hc.
  destruct (getCounterMap_position traces tr i Hin) as [inner Hinner];
    [by eapply lookup_lt_Some|].
  unfold counterAt in Hc. rewrite Hinner in Hc |- *.
  assert (div (counterNumber inner token) (ofNat (length traces))
          = computedFraction token
              (occurrences getPathTokens traces i token) (length traces))
    as ->; [|done].
  unfold counterNumber, computedFraction. rewrite Hc. unfold countedAs.
  destruct (occurrences getPathTokens traces i token) as [|c]; [lia|].
  simpl.
  destruct (ObjectPrototype.has token); [|done].
  by destruct (String.eqb token "__proto__").
Qed.

(** With ten sampled traces or fewer, no count is below a tenth of the
    sample. *)
Lemma fraction_not_below c n :
  1 ≤ c → c ≤ n → n ≤ 10 → lt (div (ofNat c) (ofNat n)) THRESHOLD = false.
Proof.
  intros Hc Hcn Hn.
  assert (forallb
            (λ n, forallb
                    (λ c, negb (lt (div (ofNat c) (ofNat n)) THRESHOLD))
                    (seq 1 n))
            (seq 1 10) = true) as Hall by (vm_compute; reflexivity).
  rewrite forallb_forall in Hall.
  specialize (Hall n). rewrite forallb_forall in Hall.
  apply negb_true_iff. apply Hall; apply in_seq; lia.
Qed.

Lemma computedFraction_not_below token c n :
  1 ≤ c → c ≤ n → n ≤ 10 →
  lt (computedFraction token c n) THRESHOLD = false.
Proof.
  intros Hc Hcn Hn. unfold computedFraction.
  destruct (ObjectPrototype.has token); [done|].
  by apply fraction_not_below.
Qed.

(** *** One path *)

(** The inner loop on a sampled path: some segments become placeholders,
    numbered in order, the others stay. *)
Lemma renderTokens_sample traces tr toks : ∀ i path total paramNum,
  tr ∈ traces →
  (∀ k token, toks !! k = Some token → tokensOf tr !! (i + k) = Some token) →
  ∃ mask total',
    length mask = length toks
    ∧ renderTokens (getCounterMap getPathTokens traces) (length traces)
        i toks path total paramNum
      = Some (renderWith mask toks path paramNum, total').
Proof.
  induction toks as [|t toks IH]; intros i path total paramNum Hin Htoks.
  - exists [], total. done.
  - cbn [renderTokens].
    rewrite (renderSegment_sample traces tr i t paramNum Hin)
      by (specialize (Htoks 0 t eq_refl); by rewrite Nat.add_0_r in Htoks).
    assert (∀ k token, toks !! k = Some token →
              tokensOf tr !! (S i + k) = Some token) as Htoks'.
    { intros k token Hk. specialize (Htoks (S k) token Hk).
      by replace (i + S k) with (S i + k) in Htoks by lia. }
    destruct (lt _ THRESHOLD).
    + destruct (IH (S i) (path +:+ ("/{param" +:+ pretty paramNum +:+ "}"))
                  (add total
                     (computedFraction t
                        (occurrences getPathTokens traces i t)
                        (length traces)))
                  (S paramNum) Hin Htoks') as (mask & total' & Hlen & Hr).
      exists (true :: mask), total'. split; [simpl; lia|exact Hr].
    + destruct (IH (S i) (path +:+ ("/" +:+ t))
                  (add total
                     (computedFraction t
                        (occurrences getPathTokens traces i t)
                        (length traces)))
                  paramNum Hin Htoks') as (mask & total' & Hlen & Hr).
      exists (false :: mask), total'. split; [simpl; lia|exact Hr].
Qed.

(** With ten sampled traces or fewer, every segment stays. *)
Lemma renderTokens_small traces tr toks : ∀ i path total paramNum,
  length traces ≤ 10 → tr ∈ traces →
  (∀ k token, toks !! k = Some token → tokensOf tr !! (i + k) = Some token) →
  ∃ total',
    renderTokens (getCounterMap getPathTokens traces) (length traces)
      i toks path total paramNum
    = Some (fold_left (λ path token, path +:+ ("/" +:+ token)) toks path,
            total').
Proof.
  induction toks as [|t toks IH]; intros i path total paramNum Hn Hin Htoks.
  - exists total. done.
  - cbn [renderTokens fold_left].
    assert (tokensOf tr !! i = Some t) as Ht
      by (specialize (Htoks 0 t eq_refl); by rewrite Nat.add_0_r in Htoks).
    rewrite (renderSegment_sample traces tr i t paramNum Hin Ht).
    rewrite computedFraction_not_below;
      [|by eapply occurrences_pos|apply occurrences_le|done].
    apply IH; [done|done|].
    intros k token Hk. specialize (Htoks (S k) token Hk).
    by replace (i + S k) with (S i + k) in Htoks by lia.
Qed.

(** *** The outer loop of [getDistinctPaths] *)

Lemma recordTrace_keys cm n distinctPaths tr path total :
  renderTokens cm n 0 (tokensOf tr) "" zero 1 = Some (path, total) →
  ∃ distinctPaths',
    recordTrace getPathTokens cm n distinctPaths tr = Some distinctPaths'
    ∧ (NoDup (JSObj.keys distinctPaths) → NoDup (JSObj.keys distinctPaths'))
    ∧ (∀ k, is_Some (JSObj.get distinctPaths' k) →
            is_Some (JSObj.get distinctPaths k) ∨ k = path).
Proof.
  intros Hr. unfold recordTrace. rewrite Hr.
  destruct (match JSObj.get distinctPaths path with
            | Some old =>
                falsy old || gt (div total (ofNat (length (tokensOf tr)))) old
            | None => true
            end).
  - eexists. split; [done|]. split; [apply NoDup_keys_set|].
    intros k. destruct (decide (path = k)) as [<-|Hne]; [by right|].
    rewrite get_set_ne by done. by left.
  - eexists. split; [done|]. split; [done|]. intros k. by left.
Qed.

(** The keys of [distinctPaths] are renderings of the traces seen; [P]
    says which. *)
Lemma getDistinctPathsFrom_keys (P : string → ApiTrace.t → Prop) cm n rest :
  ∀ seen distinctPaths,
  (∀ tr, tr ∈ rest →
         ∃ path total,
           renderTokens cm n 0 (tokensOf tr) "" zero 1 = Some (path, total)
           ∧ P path tr) →
  NoDup (JSObj.keys distinctPaths) →
  (∀ k, is_Some (JSObj.get distinctPaths k) → ∃ tr, tr ∈ seen ∧ P k tr) →
  ∃ distinctPaths',
    getDistinctPathsFrom getPathTokens cm n distinctPaths rest
    = Some distinctPaths'
    ∧ NoDup (JSObj.keys distinctPaths')
    ∧ (∀ k, is_Some (JSObj.get distinctPaths' k) →
            ∃ tr, tr ∈ seen ++ rest ∧ P k tr).
Proof.
  induction rest as [|tr rest IH]; intros seen dp Hrest Hnd Hkeys; simpl.
  - exists dp. rewrite app_nil_r. done.
  - destruct (Hrest tr) as (path & total & Hr & HP); [by left|].
    destruct (recordTrace_keys cm n dp tr path total Hr)
      as (dp' & -> & Hnd' & Hkeys').
    replace (seen ++ tr :: rest) with ((seen ++ [tr]) ++ rest)
      by (by rewrite <- app_assoc).
    apply IH.
    + intros x Hx. apply Hrest. by right.
    + by apply Hnd'.
    + intros k Hk. destruct (Hkeys' k Hk) as [Hold| ->].
      * destruct (Hkeys k Hold) as (x & Hx & HPx). exists x.
        split; [|done]. apply elem_of_app. by left.
      * exists tr. split; [|done]. apply elem_of_app. right. by left.
Qed.

(** *** The output *)

Section Output.
Variable sort : (string → string → bool) → list string → list string.
Hypothesis sort_permutes : sortContract sort.

(** What [getTopSuggestedPaths] returns are keys of [distinctPaths], each
    once, and at most 100 of them. *)
Lemma suggestFromSample_keys traces distinctPaths :
  getDistinctPaths getPathTokens (getCounterMap getPathTokens traces) traces
    (length traces) = Some distinctPaths →
  NoDup (JSObj.keys distinctPaths) →
  ∃ suggested,
    suggestFromSample getPathTokens sort traces = Some suggested
    ∧ length suggested ≤ 100
    ∧ NoDup suggested
    ∧ ∀ t, t ∈ suggested → is_Some (JSObj.get distinctPaths t).
Proof.
  intros Hdp Hnd. unfold suggestFromSample. rewrite Hdp.
  eexists. split; [done|].
  pose proof (sort_permutes (higherConfidence distinctPaths)
                (JSObj.keys distinctPaths)) as Hperm.
  split_and!.
  - rewrite length_take. lia.
  - eapply sublist_NoDup; [|apply sublist_take]. by rewrite Hperm.
  - intros t Ht%subseteq_take. apply elem_of_keys. by rewrite <- Hperm.
Qed.
End Output.

(** *** The threshold *)

(** C4, as the code has it: in a sample of exactly ten traces every
    segment of every sampled path is kept literal.  A token that occurs
    in exactly one of the ten traces, and that names no property that
    every object inherits, has occurrence fraction exactly 0.1, the double
    of the threshold, which is not strictly below the threshold; a token
    shared by all ten has fraction 1. *)
Theorem threshold_boundary_literal
    (traces : list ApiTrace.t) (tr : ApiTrace.t) (i : nat) (token : string)
    (paramNum : nat) :
  length traces = 10 →
  tr ∈ traces →
  tokensOf tr !! i = Some token →
  renderSegment (getCounterMap getPathTokens traces) (length traces)
    i token paramNum
  = Some ("/" +:+ token,
          computedFraction token (occurrences getPathTokens traces i token)
            10,
          paramNum)
  ∧ (ObjectPrototype.has token = false →
     occurrences getPathTokens traces i token = 1 →
     computedFraction token (occurrences getPathTokens traces i token) 10
     = THRESHOLD
     ∧ lt THRESHOLD THRESHOLD = false)
  ∧ (ObjectPrototype.has token = false →
     occurrences getPathTokens traces i token = 10 →
     computedFraction token (occurrences getPathTokens traces i token) 10
     = ofNat 1).
Proof.
  intros Hlen Hin Htok.
  pose proof (occurrences_pos traces tr i token Hin Htok) as Hpos.
  pose proof (occurrences_le traces i token) as Hle.
  split_and!.
  - rewrite (renderSegment_sample traces tr i token paramNum Hin Htok).
    rewrite computedFraction_not_below by lia. by rewrite Hlen.
  - intros Hown ->. unfold computedFraction. rewrite Hown.
    split; vm_compute; reflexivity.
  - intros Hown ->. unfold computedFraction. rewrite Hown.
    vm_compute; reflexivity.
Qed.

End GeneralizerFacts.

(** *** The engine's sort on the samples *)

Lemma stableSort_contract : Generalizer.sortContract stableSort.
Proof. intros comesFirst l. apply stableSort_Permutation. Qed.

(** The ten-trace sample of the boundary: the token [b] occurs in exactly
    one of ten traces and is kept literal. *)
Lemma threshold_boundary_literal_witness :
  Generalizer.renderSegment
    (Generalizer.getCounterMap PathUtils.getPathTokens Samples.nineAndOne)
    (length Samples.nineAndOne) 1 "b" 1
  = Some ("/" +:+ "b",
          Generalizer.computedFraction "b"
            (Generalizer.occurrences PathUtils.getPathTokens
               Samples.nineAndOne 1 "b") 10,
          1)
  ∧ Generalizer.computedFraction "b"
      (Generalizer.occurrences PathUtils.getPathTokens
         Samples.nineAndOne 1 "b") 10
    = Generalizer.THRESHOLD.
Proof.
  assert (Samples.traceOf "/users/b" ∈ Samples.nineAndOne) as Hin.
  { unfold Samples.nineAndOne. apply elem_of_app. right. by left. }
  destruct (threshold_boundary_literal PathUtils.getPathTokens
              Samples.nineAndOne (Samples.traceOf "/users/b") 1 "b" 1)
    as (Hrender & Hone & _); [reflexivity|exact Hin|reflexivity|].
  split; [exact Hrender|]. apply Hone; reflexivity.
Defined.

(** C4 as stated fails: with exactly ten traces and a token that occurs in
    exactly one of them, the segment is not rendered as a placeholder. *)
Lemma threshold_boundary_counterexample :
  length Samples.nineAndOne = 10
  ∧ Generalizer.occurrences PathUtils.getPathTokens Samples.nineAndOne 1 "b" = 1
  ∧ Generalizer.renderSegment
      (Generalizer.getCounterMap PathUtils.getPathTokens Samples.nineAndOne)
      10 1 "b" 1
    = Some ("/b", Generalizer.THRESHOLD, 1)
  ∧ Generalizer.renderSegment
      (Generalizer.getCounterMap PathUtils.getPathTokens Samples.nineAndOne)
      10 1 "b" 1
    ≠ Some ("/{param1}", Generalizer.THRESHOLD, 2)
  ∧ ∀ sort, Generalizer.sortContract sort →
      ∃ suggested,
        Generalizer.suggestFromSample PathUtils.getPathTokens sort
          Samples.nineAndOne = Some suggested
        ∧ suggested ≡ₚ ["/users/a"; "/users/b"].
Proof.
  split; [reflexivity|]. split; [vm_compute; reflexivity|].
  split; [vm_compute; reflexivity|]. split; [vm_compute; discriminate|].
  intros sort Hsort. unfold Generalizer.suggestFromSample.
  replace (Generalizer.getDistinctPaths PathUtils.getPathTokens
             (Generalizer.getCounterMap PathUtils.getPathTokens
                Samples.nineAndOne)
             Samples.nineAndOne (length Samples.nineAndOne))
    with (Some [("/users/a",
                 JSNum.div
                   (JSNum.add (JSNum.add JSNum.zero (JSNum.ofNat 1))
                      (JSNum.div (JSNum.ofNat 9) (JSNum.ofNat 10)))
                   (JSNum.ofNat 2));
                ("/users/b",
                 JSNum.div
                   (JSNum.add (JSNum.add JSNum.zero (JSNum.ofNat 1))
                      (JSNum.div (JSNum.ofNat 1) (JSNum.ofNat 10)))
                   (JSNum.ofNat 2))])
    by (vm_compute; reflexivity).
  eexists. split; [reflexivity|].
  rewrite take_ge by (rewrite (Permutation_length (Hsort _ _)); simpl; lia).
  apply Hsort.
Qed.

(** One trace more and the same token falls strictly below the threshold. *)
Example eleven_traces_parameterized :
  Generalizer.suggestFromSample PathUtils.getPathTokens stableSort
    Samples.tenAndOne
  = Some ["/users/a"; "/users/{param1}"].
Proof. vm_compute. reflexivity. Qed.

(** *** Tokens that name an inherited property, and paths without tokens *)

(** C5 fails on the code.  Three traces of [/constructor] are a sample of
    identical literal paths; the counter of the token is not a number but
    the text of the inherited function followed by [111], the fraction is
    [NaN], and the path is proposed with confidence [NaN] instead of 1.
    Two traces of the root path, which has no token, propose the empty
    text with confidence [NaN] (0/0).  A sample of three ordinary
    identical paths is proposed with confidence 1. *)
Theorem identical_paths_inherited_name :
  Generalizer.counterAt
    (Generalizer.getCounterMap PathUtils.getPathTokens
       Samples.constructorPaths) 0 "constructor"
  = Some (Generalizer.FunctionText 3)
  ∧ Generalizer.getDistinctPaths PathUtils.getPathTokens
      (Generalizer.getCounterMap PathUtils.getPathTokens
         Samples.constructorPaths)
      Samples.constructorPaths (length Samples.constructorPaths)
    = Some [("/constructor", JSNum.NaN)]
  ∧ (∀ sort, Generalizer.sortContract sort →
       Generalizer.suggestFromSample PathUtils.getPathTokens sort
         Samples.constructorPaths = Some ["/constructor"])
  ∧ JSNum.NaN ≠ JSNum.ofNat 1
  ∧ Generalizer.getDistinctPaths PathUtils.getPathTokens
      (Generalizer.getCounterMap PathUtils.getPathTokens Samples.rootPaths)
      Samples.rootPaths (length Samples.rootPaths)
    = Some [("", JSNum.NaN)]
  ∧ Generalizer.getDistinctPaths PathUtils.getPathTokens
      (Generalizer.getCounterMap PathUtils.getPathTokens
         Samples.threeIdentical)
      Samples.threeIdentical (length Samples.threeIdentical)
    = Some [("/users/123", JSNum.ofNat 1)].
Proof.
  split; [vm_compute; reflexivity|]. split; [vm_compute; reflexivity|].
  split.
  { intros sort Hsort. unfold Generalizer.suggestFromSample.
    replace (Generalizer.getDistinctPaths PathUtils.getPathTokens
               (Generalizer.getCounterMap PathUtils.getPathTokens
                  Samples.constructorPaths)
               Samples.constructorPaths (length Samples.constructorPaths))
      with (Some [("/constructor", JSNum.NaN)])
      by (vm_compute; reflexivity).
    f_equal. cbn [JSObj.keys map fst].
    pose proof (Hsort (Generalizer.higherConfidence
                         [("/constructor", JSNum.NaN)])
                  ["/constructor"]) as Hperm.
    apply Permutation_sym, Permutation_length_1_inv in Hperm.
    by rewrite Hperm. }
  split; [vm_compute; discriminate|].
  split; vm_compute; reflexivity.
Qed.

(** C6 fails on the code.  Of eleven traces, ten are [/users/a] and one
    is [/users/toString].  The token [toString] occurs in one of eleven
    traces, which is below the threshold, but its counter is the text of
    the inherited function: the path is kept as it is, its template is
    stored with confidence [NaN], and the placeholder template is not
    proposed.  With the token [b] in place of [toString] the template
    [/users/{param1}] is proposed with its average fraction.  A path
    without tokens among the sampled ones gives the empty template with
    confidence [NaN] as well. *)
Theorem inherited_token_kept_literal :
  Generalizer.occurrences PathUtils.getPathTokens Samples.inheritedToken 1
    "toString" = 1
  ∧ JSNum.lt (JSNum.div (JSNum.ofNat 1) (JSNum.ofNat 11))
      Generalizer.THRESHOLD = true
  ∧ Generalizer.getDistinctPaths PathUtils.getPathTokens
      (Generalizer.getCounterMap PathUtils.getPathTokens
         Samples.inheritedToken)
      Samples.inheritedToken (length Samples.inheritedToken)
    = Some [("/users/a",
             JSNum.div
               (JSNum.add (JSNum.add JSNum.zero (JSNum.ofNat 1))
                  (JSNum.div (JSNum.ofNat 10) (JSNum.ofNat 11)))
               (JSNum.ofNat 2));
            ("/users/toString", JSNum.NaN)]
  ∧ (∀ sort, Generalizer.sortContract sort →
       ∃ suggested,
         Generalizer.suggestFromSample PathUtils.getPathTokens sort
           Samples.inheritedToken = Some suggested
         ∧ suggested ≡ₚ ["/users/a"; "/users/toString"])
  ∧ Generalizer.getDistinctPaths PathUtils.getPathTokens
      (Generalizer.getCounterMap PathUtils.getPathTokens Samples.tenAndOne)
      Samples.tenAndOne (length Samples.tenAndOne)
    = Some [("/users/a",
             JSNum.div
               (JSNum.add (JSNum.add JSNum.zero (JSNum.ofNat 1))
                  (JSNum.div (JSNum.ofNat 10) (JSNum.ofNat 11)))
               (JSNum.ofNat 2));
            ("/users/{param1}",
             JSNum.div
               (JSNum.add (JSNum.add JSNum.zero (JSNum.ofNat 1))
                  (JSNum.div (JSNum.ofNat 1) (JSNum.ofNat 11)))
               (JSNum.ofNat 2))]
  ∧ ∃ third,
      Generalizer.getDistinctPaths PathUtils.getPathTokens
        (Generalizer.getCounterMap PathUtils.getPathTokens Samples.withRoot)
        Samples.withRoot (length Samples.withRoot)
      = Some [("", JSNum.NaN); ("/a", third)].
Proof.
  split; [vm_compute; reflexivity|]. split; [vm_compute; reflexivity|].
  split; [vm_compute; reflexivity|]. split.
  { intros sort Hsort. unfold Generalizer.suggestFromSample.
    replace (Generalizer.getDistinctPaths PathUtils.getPathTokens
               (Generalizer.getCounterMap PathUtils.getPathTokens
                  Samples.inheritedToken)
               Samples.inheritedToken (length Samples.inheritedToken))
      with (Some [("/users/a",
                   JSNum.div
                     (JSNum.add (JSNum.add JSNum.zero (JSNum.ofNat 1))
                        (JSNum.div (JSNum.ofNat 10) (JSNum.ofNat 11)))
                     (JSNum.ofNat 2));
                  ("/users/toString", JSNum.NaN)])
      by (vm_compute; reflexivity).
    eexists. split; [reflexivity|].
    rewrite take_ge by (rewrite (Permutation_length (Hsort _ _)); simpl; lia).
    apply Hsort. }
  split; [vm_compute; reflexivity|].
  eexists. vm_compute. reflexivity.
Qed.

(** * Properties of the trace-logging service *)
Section LogRequestFacts.
Import LogRequest.
Context {MetloContext : Type}.
Variable getValidPath : option string → ValidPath.
Variable redactBlockedFields :
  MetloContext → QueuedApiTrace → Exc QueuedApiTrace.
Variable setSessionMetadata :
  MetloContext → QueuedApiTrace → Exc QueuedApiTrace.

Local Abbreviation World := (LogRequest.World MetloContext).
Local Abbreviation processTrace :=
  (LogRequest.processTrace MetloContext getValidPath redactBlockedFields
     setSessionMetadata).
Local Abbreviation logRequest :=
  (LogRequest.logRequest MetloContext getValidPath redactBlockedFields
     setSessionMetadata).
Local Abbreviation logRequestBatch :=
  (LogRequest.logRequestBatch MetloContext getValidPath redactBlockedFields
     setSessionMetadata).

(** C7: while the queue-length query reports more than 1000 pending
    items, [logRequest] returns normally and leaves the queue, and the
    rest of the world, as it found them. *)
Theorem backpressure_drops_silently
    (ctx : MetloContext) (traceParams : option TraceParams) (w : World) :
  llenFault w = None →
  1000 < length (tracesQueue w) →
  logRequest ctx traceParams w = (inr tt, w).
Proof.
  intros Hfault Hlen.
  unfold LogRequest.logRequest, observedQueueLength, llen.
  rewrite Hfault.
  destruct (1000 <? length (tracesQueue w)) eqn:E; [done|].
  apply Nat.ltb_ge in E. lia.
Qed.

(** A failed call enqueues nothing. *)
Lemma processTrace_error_world ctx traceParams (w w' : World) err :
  processTrace ctx traceParams w = (inl err, w') → w' = w.
Proof.
  unfold LogRequest.processTrace.
  destruct (negb _); [by intros [= _ <-]|].
  destruct (redactBlockedFields _ _); [by intros [= _ <-]|].
  destruct (setSessionMetadata _ _); [by intros [= _ <-]|].
  unfold rpush. destruct (rpushFault w); [by intros [= _ <-]|done].
Qed.

Lemma logRequest_error_world ctx traceParams (w w' : World) err :
  logRequest ctx traceParams w = (inl err, w') → w' = w.
Proof.
  unfold LogRequest.logRequest.
  destruct (1000 <? _); [done|].
  destruct (LogRequest.processTrace _ _ _ _ ctx traceParams w)
    as [[e|[]] w1] eqn:E; [|done].
  intros [= _ <-]. by eapply processTrace_error_world.
Qed.

(** C9: when the queue-length query itself fails, the check lets the trace
    through: [logRequest] runs the validation and enqueueing steps, and
    with a valid path and working collaborators the trace is appended to
    the queue. *)
Theorem backpressure_fails_open
    (ctx : MetloContext) (traceParams : option TraceParams) (w : World)
    (fault : Errors.t) (redacted withSession : QueuedApiTrace) :
  llenFault w = Some fault →
  observedQueueLength w = 0
  ∧ logRequest ctx traceParams w
    = (match processTrace ctx traceParams w with
       | (inl err, w') => (inl (rethrow err), w')
       | (inr tt, w') => (inr tt, w')
       end)
  ∧ (isValid (getValidPath (rawPath traceParams)) = true →
     redactBlockedFields ctx
       (buildTrace (getValidPath (rawPath traceParams)) traceParams (now w))
     = inr redacted →
     setSessionMetadata ctx redacted = inr withSession →
     rpushFault w = None →
     ∃ w', logRequest ctx traceParams w = (inr tt, w')
           ∧ tracesQueue w' = tracesQueue w ++ [(ctx, withSession)]).
Proof.
  intros Hfault.
  assert (observedQueueLength w = 0) as Hzero
    by (unfold observedQueueLength, llen; by rewrite Hfault).
  split; [done|]. split.
  - unfold LogRequest.logRequest. by rewrite Hzero.
  - intros Hvalid Hred Hsess Hpush.
    unfold LogRequest.logRequest. rewrite Hzero. simpl.
    unfold LogRequest.processTrace. rewrite Hvalid. simpl.
    rewrite Hred, Hsess. unfold rpush. rewrite Hpush.
    eexists. split; [done|done].
Qed.

Lemma logRequestBatch_app ctx pre : ∀ post (w w1 : World),
  logRequestBatch ctx pre w = (inr tt, w1) →
  logRequestBatch ctx (pre ++ post) w = logRequestBatch ctx post w1.
Proof.
  induction pre as [|tp pre IH]; intros post w w1; simpl.
  - by intros [= <-].
  - destruct (LogRequest.logRequest _ _ _ _ ctx tp w) as [[e|[]] w'];
      [done|]. apply IH.
Qed.

(** C10: the batch is processed in order.  When the traces of [pre] have
    been logged and the next trace fails with an error whose code is
    below 500, the batch raises that very error, no trace of [post] is
    processed, and the queue is the one that [pre] left. *)
Theorem batch_stops_at_first_failure
    (ctx : MetloContext) (pre post : list (option TraceParams))
    (traceParams : option TraceParams) (w w1 w2 : World) (err : Errors.t) :
  logRequestBatch ctx pre w = (inr tt, w1) →
  observedQueueLength w1 ≤ 1000 →
  processTrace ctx traceParams w1 = (inl err, w2) →
  Errors.codeBelow500 err = true →
  logRequestBatch ctx (pre ++ traceParams :: post) w = (inl err, w1).
Proof.
  intros Hpre Hopen Hfail Hcode.
  rewrite (logRequestBatch_app ctx pre (traceParams :: post) w w1 Hpre).
  simpl. unfold LogRequest.logRequest.
  destruct (1000 <? observedQueueLength w1) eqn:E.
  { apply Nat.ltb_lt in E. lia. }
  pose proof (processTrace_error_world _ _ _ _ _ Hfail) as ->.
  rewrite Hfail.
  unfold rethrow. by rewrite Hcode.
Qed.

(** An invalid path is such a failure. *)
Lemma invalid_path_rejected ctx traceParams (w : World) :
  isValid (getValidPath (rawPath traceParams)) = false →
  processTrace ctx traceParams w
  = (inl (Errors.Error400BadRequest
            ("Invalid path " +:+ show (rawPath traceParams) +:+ ": "
             +:+ errMsg (getValidPath (rawPath traceParams)))), w).
Proof.
  intros H. unfold LogRequest.processTrace. by rewrite H.
Qed.

End LogRequestFacts.

Lemma backpressure_drops_silently_witness :
  LogRequest.llenFault Samples.fullWorld = None
  ∧ 1000 < length (LogRequest.tracesQueue Samples.fullWorld)
  ∧ LogRequest.logRequest () Samples.validate Samples.redact
      Samples.withSession () (Some Samples.goodTrace) Samples.fullWorld
    = (inr (), Samples.fullWorld).
Proof.
  assert (1000 < length (LogRequest.tracesQueue Samples.fullWorld)) as Hlen.
  { unfold Samples.fullWorld. cbn [LogRequest.tracesQueue].
    rewrite length_replicate. lia. }
  split; [reflexivity|]. split; [exact Hlen|].
  apply (backpressure_drops_silently Samples.validate Samples.redact
           Samples.withSession () (Some Samples.goodTrace) Samples.fullWorld);
    [reflexivity | exact Hlen].
Defined.

Lemma backpressure_fails_open_witness :
  LogRequest.llenFault Samples.blindWorld = Some Samples.redisDown
  ∧ (LogRequest.observedQueueLength Samples.blindWorld = 0
     ∧ LogRequest.logRequest () Samples.validate Samples.redact
         Samples.withSession () (Some Samples.goodTrace) Samples.blindWorld
       = (match LogRequest.processTrace () Samples.validate Samples.redact
                  Samples.withSession () (Some Samples.goodTrace)
                  Samples.blindWorld with
          | (inl err, w') => (inl (LogRequest.rethrow err), w')
          | (inr tt, w') => (inr tt, w')
          end)
     ∧ (LogRequest.isValid
          (Samples.validate (LogRequest.rawPath (Some Samples.goodTrace)))
        = true →
        Samples.redact ()
          (LogRequest.buildTrace
             (Samples.validate (LogRequest.rawPath (Some Samples.goodTrace)))
             (Some Samples.goodTrace) (LogRequest.now Samples.blindWorld))
        = inr (Samples.queued "/users/7") →
        Samples.withSession () (Samples.queued "/users/7")
        = inr (Samples.queued "/users/7") →
        LogRequest.rpushFault Samples.blindWorld = None →
        ∃ w', LogRequest.logRequest () Samples.validate Samples.redact
                Samples.withSession () (Some Samples.goodTrace)
                Samples.blindWorld = (inr (), w')
              ∧ LogRequest.tracesQueue w'
                = LogRequest.tracesQueue Samples.blindWorld
                  ++ [((), Samples.queued "/users/7")])).
Proof.
  split; [reflexivity|].
  apply (backpressure_fails_open Samples.validate Samples.redact
           Samples.withSession () (Some Samples.goodTrace) Samples.blindWorld
           Samples.redisDown (Samples.queued "/users/7")
           (Samples.queued "/users/7")).
  reflexivity.
Defined.

(** The failure-open path on the sample: all four side conditions hold and
    the trace is enqueued although the length query failed. *)
Example blind_world_enqueues :
  LogRequest.logRequest () Samples.validate Samples.redact
    Samples.withSession () (Some Samples.goodTrace) Samples.blindWorld
  = (inr (),
     {| LogRequest.tracesQueue := [((), Samples.queued "/users/7")];
        LogRequest.llenFault := Some Samples.redisDown;
        LogRequest.rpushFault := None;
        LogRequest.now := 0 |}).
Proof. reflexivity. Qed.

Lemma batch_stops_at_first_failure_witness :
  LogRequest.logRequestBatch () Samples.validate Samples.redact
    Samples.withSession () [Some Samples.goodTrace] Samples.emptyWorld
  = (inr (), Samples.oneQueued)
  ∧ LogRequest.observedQueueLength Samples.oneQueued ≤ 1000
  ∧ LogRequest.processTrace () Samples.validate Samples.redact
      Samples.withSession () (Some Samples.badTrace) Samples.oneQueued
    = (inl (Errors.Error400BadRequest
              "Invalid path users/8: Path must start with /"),
       Samples.oneQueued)
  ∧ Errors.codeBelow500
      (Errors.Error400BadRequest
         "Invalid path users/8: Path must start with /") = true
  ∧ LogRequest.logRequestBatch () Samples.validate Samples.redact
      Samples.withSession ()
      ([Some Samples.goodTrace]
       ++ Some Samples.badTrace :: [Some Samples.goodTrace])
      Samples.emptyWorld
    = (inl (Errors.Error400BadRequest
              "Invalid path users/8: Path must start with /"),
       Samples.oneQueued).
Proof.
  split; [reflexivity|]. split; [vm_compute; lia|].
  split; [reflexivity|]. split; [reflexivity|].
  apply (batch_stops_at_first_failure Samples.validate Samples.redact
           Samples.withSession () [Some Samples.goodTrace]
           [Some Samples.goodTrace] (Some Samples.badTrace)
           Samples.emptyWorld Samples.oneQueued Samples.oneQueued);
    [reflexivity | vm_compute; lia | reflexivity | reflexivity].
Defined.

(** * Properties of the trace-versus-contract diff *)
Section SpecDiffFacts.
Import SpecDiff.
Context {SpecObject ParsedSpec J AjvError ReqValidator RespValidator : Type}
        `{Tools SpecObject ParsedSpec J AjvError ReqValidator RespValidator}.

(** Whatever the collaborators do, [findOpenApiSpecDiff] returns a list
    of alerts and never an error; the list is empty when the repository
    finds no document for the name of the endpoint, when the document it
    finds is auto-generated, and when anything inside the diff throws. *)
Lemma findOpenApiSpecDiff_never_raises
    (trace : ApiTrace.t) (endpoint : ApiEndpoint.t) :
  (∃ alerts, findOpenApiSpecDiff trace endpoint = inr alerts)
  ∧ (findOneBy (ApiEndpoint.openapiSpecName endpoint) = inr None →
     findOpenApiSpecDiff trace endpoint = inr [])
  ∧ (∀ s, findOneBy (ApiEndpoint.openapiSpecName endpoint) = inr (Some s) →
          OpenApiSpec.isAutoGenerated s = true →
          findOpenApiSpecDiff trace endpoint = inr [])
  ∧ (∀ err, diffBody trace endpoint = inl err →
            findOpenApiSpecDiff trace endpoint = inr [])
  ∧ (∀ s err,
       findOneBy (ApiEndpoint.openapiSpecName endpoint) = inr (Some s) →
       OpenApiSpec.isAutoGenerated s = false →
       diffAgainst s trace endpoint = inl err →
       findOpenApiSpecDiff trace endpoint = inr []).
Proof.
  unfold findOpenApiSpecDiff, diffBody. split_and!.
  - destruct (findOneBy _) as [e|[s|]]; [by eexists| |by eexists].
    destruct (OpenApiSpec.isAutoGenerated s); [by eexists|].
    destruct (diffAgainst s trace endpoint); by eexists.
  - by intros ->.
  - by intros s -> ->.
  - by intros err ->.
  - by intros s err -> -> ->.
Qed.

(** C8 fails on the code for an endpoint without a declared document.
    The absent name is not tested before the lookup: the repository is
    asked for the document with that name, and when it answers with a
    document that is not auto-generated the trace is validated against
    it, so that the result is whatever that diff finds, not the empty
    list. *)
Theorem undeclared_endpoint_is_looked_up
    (trace : ApiTrace.t) (endpoint : ApiEndpoint.t) (s : OpenApiSpec.t) :
  ApiEndpoint.openapiSpecName endpoint = None →
  findOneBy None = inr (Some s) →
  OpenApiSpec.isAutoGenerated s = false →
  findOpenApiSpecDiff trace endpoint
  = match diffAgainst s trace endpoint with
    | inl _ => inr []
    | inr alerts => inr alerts
    end.
Proof.
  intros Hname Hfind Hauto. unfold findOpenApiSpecDiff, diffBody.
  by rewrite Hname, Hfind, Hauto.
Qed.

End SpecDiffFacts.

(** An endpoint that names no contract, in a store that holds the
    contract of another one: the trace is validated against that contract
    and an alert is returned. *)
Lemma undeclared_endpoint_is_looked_up_witness :
  ApiEndpoint.openapiSpecName Samples.undeclaredEndpoint = None
  ∧ @SpecDiff.findOpenApiSpecDiff _ _ _ _ _ _
      (Samples.diffTools (Samples.specDb "openapi: 3.0.0" false))
      Samples.ordersTrace Samples.undeclaredEndpoint
    = inr [Samples.diffFinding].
Proof.
  split; [reflexivity|].
  rewrite (undeclared_endpoint_is_looked_up (H := Samples.diffTools _) _ _
             (OpenApiSpec.mk "orders-v1" "openapi: 3.0.0" false JSON
                [Samples.apiHost] 0 0 0));
    reflexivity.
Defined.

(** The diff at work: a finding becomes an alert; an unreadable contract
    and an auto-generated contract give no alert. *)
Example diff_reports_finding :
  @SpecDiff.findOpenApiSpecDiff _ _ _ _ _ _
    (Samples.diffTools (Samples.specDb "openapi: 3.0.0" false))
    Samples.ordersTrace Samples.ordersEndpoint
  = inr [Samples.diffFinding].
Proof. reflexivity. Qed.

Example diff_swallows_parse_error :
  @SpecDiff.diffBody _ _ _ _ _ _
    (Samples.diffTools (Samples.specDb "" false))
    Samples.ordersTrace Samples.ordersEndpoint
  = inl (Errors.mk None "YAMLException: empty document")
  ∧ @SpecDiff.findOpenApiSpecDiff _ _ _ _ _ _
      (Samples.diffTools (Samples.specDb "" false))
      Samples.ordersTrace Samples.ordersEndpoint
    = inr [].
Proof. split; reflexivity. Qed.

Example diff_skips_auto_generated :
  @SpecDiff.findOpenApiSpecDiff _ _ _ _ _ _
    (Samples.diffTools (Samples.specDb "openapi: 3.0.0" true))
    Samples.ordersTrace Samples.ordersEndpoint
  = inr [].
Proof. reflexivity. Qed.

(** * Properties of the resolver and of the merge executor *)
Section ResolverFacts.
Import ApiEndpoint Resolver.
Context {SpecObject Server : Type} `{Tools SpecObject Server}.

(** A loop fails when one of its elements fails in every state, and it
    fails with an error of the kind [bad] when no element can fail
    otherwise. *)
Lemma forEachExc_fails {A S : Type} (body : A → S → Exc S)
    (bad : Errors.t → Prop) (l : list A) (x : A) :
  In x l →
  (∀ s, ∃ e, body x s = inl e) →
  (∀ y s e, In y l → body y s = inl e → bad e) →
  ∀ s, ∃ e, forEachExc body l s = inl e ∧ bad e.
Proof.
  induction l as [|y l IH]; intros Hin Hx Hbad s; [done|]. simpl.
  destruct (body y s) as [e|s'] eqn:E.
  - exists e. split; [done|]. eapply Hbad; [by left|done].
  - destruct Hin as [->|Hin].
    + destruct (Hx s) as [e He]. congruence.
    + apply IH; [done|done|]. intros z s0 e Hz. apply Hbad. by right.
Qed.

Lemma setAddAll_keeps xs : ∀ s x, In x s → In x (setAddAll s xs).
Proof.
  unfold setAddAll. induction xs as [|y xs IH]; intros s x Hin; simpl; [done|].
  apply IH. destruct (DB.inIds s y); [done|]. apply in_or_app. by left.
Qed.

Lemma inIds_In ids x : DB.inIds ids x = true ↔ In x ids.
Proof.
  unfold DB.inIds. rewrite existsb_exists. split.
  - intros (y & Hy & Heq). apply String.eqb_eq in Heq. by subst.
  - intros Hin. exists x. split; [done|]. apply String.eqb_refl.
Qed.

Lemma setAddAll_adds xs : ∀ s x, In x xs → In x (setAddAll s xs).
Proof.
  unfold setAddAll. induction xs as [|y xs IH]; intros s x Hin; [done|].
  simpl. destruct Hin as [->|Hin]; [|by apply IH].
  apply (setAddAll_keeps xs). destruct (DB.inIds s x) eqn:E.
  - by apply inIds_In.
  - apply in_or_app. right. by left.
Qed.

Lemma resolveHost_error db specName path pathRegex methodEnum host st e :
  resolveHost db specName path pathRegex methodEnum host st = inl e →
  isConflict e.
Proof.
  unfold resolveHost. destruct (DB.findEndpoint _ _ _ _); [|done].
  destruct (negb _ || _); [done|]. intros [= <-]. by eexists.
Qed.

Lemma forEachExc_error_kind {A S : Type} (body : A → S → Exc S)
    (bad : Errors.t → Prop) (l : list A) :
  (∀ y s e, In y l → body y s = inl e → bad e) →
  ∀ s e, forEachExc body l s = inl e → bad e.
Proof.
  induction l as [|y l IH]; intros Hbad s e; simpl; [done|].
  destruct (body y s) as [e'|s'] eqn:E.
  - intros [= <-]. eapply Hbad; [by left|done].
  - apply IH. intros z s0 e0 Hz. apply Hbad. by right.
Qed.

Lemma resolveMethod_error db specName specObject path pathRegex method st e :
  getServersV3 specObject path method ≠ [] →
  resolveMethod db specName specObject path pathRegex method st = inl e →
  isConflict e.
Proof.
  intros Hs. unfold resolveMethod.
  destruct (getServersV3 specObject path method); [done|].
  apply forEachExc_error_kind. intros h s0 e0 _.
  apply resolveHost_error.
Qed.

Lemma resolvePath_error db specName specObject p ks st e :
  (∀ m, In m ks → DB.inIds restMethods (toUpperCase m) = true →
        getServersV3 specObject p m ≠ []) →
  resolvePath db specName specObject (p, ks) st = inl e →
  isConflict e.
Proof.
  intros Hs. unfold resolvePath.
  apply forEachExc_error_kind. intros m s0 e0 [Hm Hr]%filter_In.
  apply resolveMethod_error. by apply Hs.
Qed.

(** Whatever [uploadNewSpec] raises, it has written nothing. *)
Lemma upload_error_changes_nothing
    (specObject : SpecObject) (fileName : string) (extension : SpecExtension)
    (specString : string) (currTime : Z) (db db' : DB.t) (err : Errors.t) :
  uploadNewSpec specObject fileName extension specString currTime db
  = (inl err, db') →
  db' = db.
Proof.
  unfold uploadNewSpec.
  destruct (normalize _ _ _) as [e|[specObject' specString']];
    [by intros [= _ <-]|].
  destruct (resolveBatch _ _ _); [by intros [= _ <-]|done].
Qed.

(** C1: when the document passes the checks of [uploadNewSpec], every
    operation it declares has servers, and one of its (host, method,
    path) triples names an existing endpoint that belongs to a document
    which is not auto-generated, the upload raises [Conflict] and leaves
    every table as it was. *)
Theorem upload_conflict_changes_nothing
    (specObject specObject' : SpecObject) (fileName : string)
    (extension : SpecExtension) (specString specString' : string)
    (currTime : Z) (db : DB.t)
    (path method host owner : string) (keys : list string)
    (found : ApiEndpoint.t) (ownerSpec : OpenApiSpec.t) :
  normalize specObject extension specString = inr (specObject', specString') →
  (∀ p ks m, In (p, ks) (specPaths specObject') → In m ks →
             DB.inIds restMethods (toUpperCase m) = true →
             getServersV3 specObject' p m ≠ []) →
  In (path, keys) (specPaths specObject') →
  In method keys →
  DB.inIds restMethods (toUpperCase method) = true →
  In host (getHostsV3 (getServersV3 specObject' path method)) →
  DB.findEndpoint db path (toUpperCase method) host = Some found →
  openapiSpecName found = Some owner →
  owner ≠ "" →
  DB.findSpec db owner = Some ownerSpec →
  OpenApiSpec.isAutoGenerated ownerSpec = false →
  ∃ msg,
    uploadNewSpec specObject fileName extension specString currTime db
    = (inl (Errors.Error409Conflict msg), db).
Proof.
  intros Hnorm Hservers Hpath Hmethod Hrest Hhost Hfound Howner Hne Hspec Hauto.
  assert (∃ e, resolveBatch db fileName specObject' = inl e ∧ isConflict e)
    as (e & He & msg & ->).
  { unfold resolveBatch.
    apply (forEachExc_fails _ isConflict _ (path, keys)); [done| |].
    - (* the path of the clash fails in every state *)
      intros st. unfold resolvePath.
      assert (∃ e, forEachExc
                     (resolveMethod db fileName specObject' path
                        (getPathRegex path))
                     (List.filter
                        (λ key, DB.inIds restMethods (toUpperCase key)) keys)
                     st = inl e ∧ True) as (e & He & _); [|by exists e].
      apply (forEachExc_fails _ (λ _, True) _ method);
        [by apply filter_In| |done].
      intros st1. unfold resolveMethod.
      destruct (getServersV3 specObject' path method) as [|srv srvs] eqn:Es;
        [by eexists|].
      assert (∃ e, forEachExc
                     (resolveHost db fileName path (getPathRegex path)
                        (toUpperCase method))
                     (setAddAll [] (getHostsV3 (srv :: srvs)))
                     {| endpointsMap := endpointsMap st1;
                        specHosts :=
                          setAddAll (specHosts st1)
                            (setAddAll [] (getHostsV3 (srv :: srvs)));
                        drawn := drawn st1 |} = inl e ∧ True)
        as (e & He & _); [|by exists e].
      apply (forEachExc_fails _ (λ _, True) _ host);
        [by apply setAddAll_adds| |done].
      intros st2. unfold resolveHost. rewrite Hfound.
      unfold ownerIsAutoGenerated. rewrite Howner, Hspec, Hauto.
      destruct owner; [done|]. simpl. by eexists.
    - (* no path can fail otherwise *)
      intros [p ks] st e Hin. apply resolvePath_error.
      intros m Hm Hr. by eapply Hservers. }
  unfold uploadNewSpec. rewrite Hnorm, He. by exists msg.
Qed.

(** *** The tie-break among the candidates of one batch *)

Lemma holderStep_idle apiEndpoint item m b k :
  (∀ entry, JSObj.get m k = Some entry →
            JSObj.has (similarEndpoints entry) (uuid item) = false) →
  holderStep apiEndpoint item (m, b) k = (m, b).
Proof.
  intros Hk. unfold holderStep.
  destruct (JSObj.get m k) as [entry|]; [|done]. by rewrite (Hk entry).
Qed.

Lemma fold_holderStep_idle apiEndpoint item ks : ∀ m b,
  (∀ k entry, In k ks → JSObj.get m k = Some entry →
              JSObj.has (similarEndpoints entry) (uuid item) = false) →
  fold_left (holderStep apiEndpoint item) ks (m, b) = (m, b).
Proof.
  induction ks as [|k ks IH]; intros m b Hks; cbn [fold_left]; [done|].
  rewrite holderStep_idle by (intros entry; apply Hks; by left).
  apply IH. intros k' entry Hin. apply Hks. by right.
Qed.

Lemma has_set_eq {V : Type} (o : JSObj.obj V) k v :
  JSObj.has (JSObj.set o k v) k = true.
Proof. unfold JSObj.has. by rewrite get_set_eq. Qed.

Lemma has_del_eq {V : Type} (o : JSObj.obj V) k :
  NoDup (JSObj.keys o) → JSObj.has (JSObj.del o k) k = false.
Proof. intros Hnd. unfold JSObj.has. by rewrite get_del_eq. Qed.

(** The inner loop of [absorbSimilar] when exactly the candidate [h]
    holds [item]. *)
Lemma fold_holderStep_holder apiEndpoint item m h holder :
  NoDup (JSObj.keys m) →
  JSObj.get m h = Some holder →
  JSObj.has (similarEndpoints holder) (uuid item) = true →
  (∀ k entry, k ≠ h → JSObj.get m k = Some entry →
              JSObj.has (similarEndpoints entry) (uuid item) = false) →
  fold_left (holderStep apiEndpoint item) (JSObj.keys m) (m, false)
  = if takesOver apiEndpoint (endpoint holder) item
    then (JSObj.set m h (dropSimilar holder (uuid item)), false)
    else (m, true).
Proof.
  intros Hnd Hh Hhas Hothers.
  assert (h ∈ JSObj.keys m) as Hin by (apply elem_of_keys; by eauto).
  apply list_elem_of_split in Hin as (l1 & l2 & Hsplit).
  rewrite Hsplit in Hnd |- *.
  apply NoDup_app in Hnd as (_ & Hl1 & [Hl2 _]%NoDup_cons).
  rewrite fold_left_app. cbn [fold_left].
  rewrite fold_holderStep_idle.
  2:{ intros k entry Hk. apply Hothers. intros ->.
      apply (Hl1 h); [by apply list_elem_of_In|by left]. }
  replace (holderStep apiEndpoint item (m, false) h)
    with (if takesOver apiEndpoint (endpoint holder) item
          then (JSObj.set m h (dropSimilar holder (uuid item)), false)
          else (m, true))
    by (unfold holderStep; by rewrite Hh, Hhas).
  destruct (takesOver apiEndpoint (endpoint holder) item).
  - apply fold_holderStep_idle. intros k entry Hk.
    assert (h ≠ k) as Hne by (intros ->; by apply Hl2, list_elem_of_In).
    rewrite get_set_ne by done. by apply Hothers.
  - apply fold_holderStep_idle. intros k entry Hk. apply Hothers.
    intros ->. by apply Hl2, list_elem_of_In.
Qed.

(** C2, as the code has it: when the pre-existing identity [item] is not
    itself a candidate of the batch, exactly one candidate of the batch
    holds it, and a later candidate overlaps it too, the identity ends up
    in the supersede set of exactly one of the two.  It passes to the
    later candidate when that has as many parameter segments as [item]
    itself, or when the holder's count differs from [item]'s and the
    later candidate has strictly fewer parameter segments than the
    holder; otherwise the holder keeps it. *)
Theorem tie_break_between_candidates
    (apiEndpoint item : ApiEndpoint.t) (m : JSObj.obj EndpointsMap)
    (h : string) (holder : EndpointsMap) :
  NoDup (JSObj.keys m) →
  NoDup (JSObj.keys (similarEndpoints holder)) →
  JSObj.get m (uuid item) = None →
  JSObj.get m h = Some holder →
  JSObj.has (similarEndpoints holder) (uuid item) = true →
  (∀ k entry, k ≠ h → JSObj.get m k = Some entry →
              JSObj.has (similarEndpoints entry) (uuid item) = false) →
  is_Some (JSObj.get m (uuid apiEndpoint)) →
  uuid apiEndpoint ≠ h →
  ∀ k, holds (absorbSimilar apiEndpoint m item) k item
       ↔ k = (if (numberParams apiEndpoint =? numberParams item)
                 || (negb (numberParams (endpoint holder)
                           =? numberParams item)
                     && (numberParams apiEndpoint
                         <? numberParams (endpoint holder)))
              then uuid apiEndpoint
              else h).
Proof.
  intros Hnd Hnds Hitem Hh Hhas Hothers [entryA HA] Hne k.
  fold (takesOver apiEndpoint (endpoint holder) item).
  unfold absorbSimilar, JSObj.has at 1. rewrite Hitem.
  rewrite (fold_holderStep_holder apiEndpoint item m h holder) by done.
  destruct (takesOver apiEndpoint (endpoint holder) item).
  - rewrite get_set_ne by done. rewrite HA. unfold holds.
    destruct (decide (k = uuid apiEndpoint)) as [->|Hk].
    + rewrite get_set_eq. split; [done|]. intros _. eexists. split; [done|].
      simpl. apply has_set_eq.
    + rewrite get_set_ne by done. split; [|done].
      intros (entry & Hget & Hholds). exfalso.
      destruct (decide (k = h)) as [->|Hkh].
      * rewrite get_set_eq in Hget. injection Hget as <-.
        simpl in Hholds. rewrite has_del_eq in Hholds; done.
      * rewrite get_set_ne in Hget by done.
        rewrite (Hothers k entry) in Hholds; done.
  - unfold holds. destruct (decide (k = h)) as [->|Hk].
    + split; [done|]. intros _. by exists holder.
    + split; [|done]. intros (entry & Hget & Hholds).
      rewrite (Hothers k entry) in Hholds; done.
Qed.

(** *** What the surviving endpoint inherits *)

Lemma inherit_uuid survivor e : uuid (inherit survivor e) = uuid survivor.
Proof.
  unfold inherit, updateDates.
  destruct (riskScore survivor); [destruct (RiskScore.orderLt _ _)|];
    destruct (firstDetected e), (lastActive e); reflexivity.
Qed.

Lemma fold_inherit_uuid l : ∀ survivor,
  uuid (fold_left inherit l survivor) = uuid survivor.
Proof.
  induction l as [|e l IH]; intros survivor; simpl; [done|].
  by rewrite IH, inherit_uuid.
Qed.








(** *** The rows of the endpoint table after a merge *)



Lemma find_filter_none {A : Type} (p q : A → bool) l :
  (∀ y, p y = true → q y = false) → find p (List.filter q l) = None.
Proof.
  intros Hpq. induction l as [|y l IH]; simpl; [done|].
  destruct (q y) eqn:Eq; [|done]. simpl.
  destruct (p y) eqn:Ep; [|done]. rewrite (Hpq y Ep) in Eq. done.
Qed.



End ResolverFacts.

Lemma upload_conflict_changes_nothing_witness :
  ∃ msg,
    Resolver.uploadNewSpec Samples.clashingSpec "orders-v2" JSON "" 10
      Samples.ownedDb
    = (inl (Errors.Error409Conflict msg), Samples.ownedDb).
Proof.
  apply (upload_conflict_changes_nothing Samples.clashingSpec
           Samples.clashingSpec "orders-v2" JSON "" "" 10 Samples.ownedDb
           "/orders/{id}" "get" Samples.apiHost "orders-v1"
           ["get"; "summary"]
           (Samples.endpointOf "e-orders" "/orders/{id}" (Some RiskScore.LOW)
              (Some 1%Z) (Some 2%Z) (Some "orders-v1"))
           Samples.userSpec).
  - reflexivity.
  - intros p ks m _ _ _. discriminate.
  - right. by left.
  - by left.
  - reflexivity.
  - by left.
  - reflexivity.
  - reflexivity.
  - discriminate.
  - reflexivity.
  - reflexivity.
Defined.

Lemma tie_break_between_candidates_witness :
  Resolver.holds
    (Resolver.absorbSimilar Samples.secondCandidate Samples.midBatch
       Samples.usersIdentity)
    "new-1" Samples.usersIdentity
  ∧ ¬ Resolver.holds
        (Resolver.absorbSimilar Samples.secondCandidate Samples.midBatch
           Samples.usersIdentity)
        "new-0" Samples.usersIdentity.
Proof.
  assert (∀ k, Resolver.holds
                 (Resolver.absorbSimilar Samples.secondCandidate
                    Samples.midBatch Samples.usersIdentity)
                 k Samples.usersIdentity
               ↔ k = "new-1") as Hrule.
  { apply (tie_break_between_candidates Samples.secondCandidate
             Samples.usersIdentity Samples.midBatch "new-0"
             {| Resolver.endpoint := Samples.firstCandidate;
                Resolver.similarEndpoints :=
                  [("e-users", Samples.usersIdentity)] |}).
    - compute_done.
    - compute_done.
    - reflexivity.
    - reflexivity.
    - reflexivity.
    - intros k entry Hk. unfold Samples.midBatch. cbn [JSObj.get].
      destruct (String.eqb_spec "new-0" k) as [<-|_]; [done|].
      destruct (String.eqb_spec "new-1" k) as [<-|_]; [|done].
      by intros [= <-].
    - by eexists.
    - discriminate. }
  split.
  - by apply Hrule.
  - intros Hold. apply Hrule in Hold. discriminate.
Defined.

(** C2 as stated fails in both of its parts.  In the upload of
    [twoTemplates] the two new candidates have one parameter segment each
    and both overlap [/users/{id}]; the identity ends up with the later
    candidate, not with the one recorded first.  In the path edit of
    [wideDb] the candidate recorded first has fewer parameter segments than
    the later one, and the later one takes the identity all the same. *)
Lemma tie_break_counterexample :
  (∃ st,
     Resolver.resolveBatch Samples.usersDb "users-v1" Samples.twoTemplates
     = inr st
     ∧ JSObj.keys (Resolver.endpointsMap st) = ["new-0"; "new-1"]
     ∧ Resolver.candidateParams (Resolver.endpointsMap st) "new-0" = Some 1
     ∧ Resolver.candidateParams (Resolver.endpointsMap st) "new-1" = Some 1
     ∧ Resolver.supersedes (Resolver.endpointsMap st) "new-0" = []
     ∧ Resolver.supersedes (Resolver.endpointsMap st) "new-1" = ["e-users"])
  ∧ (∃ plan,
       Resolver.generateEndpointsMap Samples.wideDb ["/x/{b}"; "/{c}/{d}"]
         "GET" Samples.apiHost 2 = inr plan
       ∧ JSObj.keys plan = ["new-0"; "new-1"]
       ∧ Resolver.candidateParams plan "new-0" = Some 1
       ∧ Resolver.candidateParams plan "new-1" = Some 2
       ∧ Resolver.supersedes plan "new-0" = []
       ∧ Resolver.supersedes plan "new-1" = ["e-wide"]).
Proof.
  split; eexists; (split; [vm_compute; reflexivity|]);
    repeat split; vm_compute; reflexivity.
Qed.




(** The same identity superseded through a spec upload keeps its risk score
    and its activity window. *)
Example upload_merge_sample :
  DB.endpoints
    (snd (Resolver.uploadNewSpec Samples.oneTemplate "users-v1" JSON "" 10
            Samples.usersDb))
  = [ApiEndpoint.mk "new-0" "/users/{userId}" "/users/{userId}" "GET"
       Samples.apiHost 1 (Some RiskScore.HIGH) (Some 5%Z) (Some 9%Z)
       (Some "users-v1")].
Proof. vm_compute. reflexivity. Qed.

(** The activity window is widened with both dates of a superseded
    endpoint: when these are the wrong way round, the survivor's
    [firstDetected] is the superseded [lastActive]. *)
Example reversed_window_merge :
  ApiEndpoint.firstDetected
    (Resolver.mergedEndpoint
       {| Resolver.endpoint := Samples.firstCandidate;
          Resolver.similarEndpoints := [("e-odd", Samples.reversedWindow)] |})
  = Some 5%Z
  ∧ ApiEndpoint.lastActive
      (Resolver.mergedEndpoint
         {| Resolver.endpoint := Samples.firstCandidate;
            Resolver.similarEndpoints :=
              [("e-odd", Samples.reversedWindow)] |})
    = Some 9%Z.
Proof. split; reflexivity. Qed.

(** * Further properties of the trace-logging service *)
Section LogRequestMore.
Import LogRequest.
Context {MetloContext : Type}.
Variable getValidPath : option string → ValidPath.
Variable redactBlockedFields :
  MetloContext → QueuedApiTrace → Exc QueuedApiTrace.
Variable setSessionMetadata :
  MetloContext → QueuedApiTrace → Exc QueuedApiTrace.

Local Abbreviation World := (LogRequest.World MetloContext).
Local Abbreviation processTrace :=
  (LogRequest.processTrace MetloContext getValidPath redactBlockedFields
     setSessionMetadata).
Local Abbreviation logRequest :=
  (LogRequest.logRequest MetloContext getValidPath redactBlockedFields
     setSessionMetadata).
Local Abbreviation logRequestBatch :=
  (LogRequest.logRequestBatch MetloContext getValidPath redactBlockedFields
     setSessionMetadata).

Lemma processTrace_effect ctx traceParams (w w' : World) r :
  processTrace ctx traceParams w = (r, w') →
  llenFault w' = llenFault w ∧ rpushFault w' = rpushFault w ∧ now w' = now w
  ∧ ((∃ err, r = inl err ∧ tracesQueue w' = tracesQueue w)
     ∨ (∃ trace, r = inr tt
                 ∧ tracesQueue w' = tracesQueue w ++ [(ctx, trace)])).
Proof.
  unfold LogRequest.processTrace.
  destruct (negb _); [intros [= <- <-]; split_and!; [done..|left; by eexists]|].
  destruct (redactBlockedFields _ _);
    [intros [= <- <-]; split_and!; [done..|left; by eexists]|].
  destruct (setSessionMetadata _ _) as [|withSession];
    [intros [= <- <-]; split_and!; [done..|left; by eexists]|].
  unfold rpush. destruct (rpushFault w) eqn:E.
  - intros [= <- <-]. split_and!; [done..|left; by eexists].
  - intros [= <- <-]. simpl. split_and!; [done..|right; by eexists].
Qed.

Lemma logRequest_world ctx traceParams (w w' : World) r :
  logRequest ctx traceParams w = (r, w') →
  llenFault w' = llenFault w
  ∧ ∃ first, tracesQueue w' = tracesQueue w ++ first ∧ length first ≤ 1
             ∧ ∀ item, item ∈ first → fst item = ctx.
Proof.
  unfold LogRequest.logRequest.
  assert (∃ first : list (MetloContext * QueuedApiTrace),
            tracesQueue w = tracesQueue w ++ first ∧ length first ≤ 1
            ∧ ∀ item, item ∈ first → fst item = ctx) as Hsame.
  { exists []. rewrite app_nil_r. split_and!; [done|simpl; lia|].
    intros item Hin. by apply elem_of_nil in Hin. }
  destruct (1000 <? _); [by intros [= <- <-]|].
  destruct (LogRequest.processTrace _ _ _ _ ctx traceParams w)
    as [r0 w0] eqn:E.
  apply processTrace_effect in E as (H1 & _ & _ & H4).
  assert (w' = w0 → llenFault w' = llenFault w
          ∧ ∃ first, tracesQueue w' = tracesQueue w ++ first
                     ∧ length first ≤ 1
                     ∧ ∀ item, item ∈ first → fst item = ctx) as Hgoal.
  { intros ->. split; [done|].
    destruct H4 as [(? & _ & ->)|(trace & _ & ->)]; [done|].
    exists [(ctx, trace)]. split_and!; [done|simpl; lia|].
    intros item ->%list_elem_of_singleton. done. }
  destruct r0 as [e|[]]; intros [= _ <-]; by apply Hgoal.
Qed.

(** X1: a call of [logRequest] leaves the pending traces in place and in
    order.  It appends one trace, tagged with the caller's context, or
    nothing; when it raises, it has appended nothing.  The faults and the
    clock of the world are not touched. *)
Theorem logRequest_appends_at_most_one
    (ctx : MetloContext) (traceParams : option TraceParams) (w w' : World)
    (r : Exc unit) :
  logRequest ctx traceParams w = (r, w') →
  llenFault w' = llenFault w ∧ rpushFault w' = rpushFault w ∧ now w' = now w
  ∧ ((tracesQueue w' = tracesQueue w)
     ∨ (∃ trace, r = inr tt
                 ∧ tracesQueue w' = tracesQueue w ++ [(ctx, trace)]))
  ∧ (∀ err, r = inl err → tracesQueue w' = tracesQueue w).
Proof.
  unfold LogRequest.logRequest.
  destruct (1000 <? _);
    [intros [= <- <-]; split_and!; [done..|by left|done]|].
  destruct (LogRequest.processTrace _ _ _ _ ctx traceParams w)
    as [r0 w0] eqn:E.
  apply processTrace_effect in E as (H1 & H2 & H3 & H4).
  destruct r0 as [e|[]]; intros [= <- <-]; split_and!; try done.
  - destruct H4 as [(? & _ & ->)|(? & [=] & _)]. by left.
  - destruct H4 as [(? & _ & ->)|(? & [=] & _)]. done.
  - destruct H4 as [(? & [=] & _)|(trace & _ & ->)]. right. by eexists.
Qed.

(** X2: as long as the length query works, the service never lets the
    pending queue grow beyond 1001 traces, whatever the batch. *)
Theorem logRequestBatch_bounds_queue
    (ctx : MetloContext) (batch : list (option TraceParams)) (w w' : World)
    (r : Exc unit) :
  llenFault w = None →
  length (tracesQueue w) ≤ 1001 →
  logRequestBatch ctx batch w = (r, w') →
  length (tracesQueue w') ≤ 1001.
Proof.
  revert w. induction batch as [|tp batch IH]; intros w Hfault Hlen; simpl.
  - by intros [= _ <-].
  - destruct (LogRequest.logRequest _ _ _ _ ctx tp w) as [r1 w1] eqn:E.
    assert (llenFault w1 = None ∧ length (tracesQueue w1) ≤ 1001) as [Hf1 Hl1].
    { pose proof (logRequest_world _ _ _ _ _ E)
        as (Hf & first & Hq & Hone & _).
      split; [congruence|].
      unfold LogRequest.logRequest, observedQueueLength, llen in E.
      rewrite Hfault in E.
      destruct (1000 <? length (tracesQueue w)) eqn:Elen.
      - injection E as _ <-. done.
      - apply Nat.ltb_ge in Elen. rewrite Hq, length_app. lia. }
    destruct r1 as [e|[]]; [by intros [= _ <-]|]. by apply IH.
Qed.

(** X3: every error that [logRequestBatch] raises carries a numeric status
    code, below 500 when a collaborator raised it so, and exactly 500
    otherwise. *)
Theorem logRequestBatch_error_has_status
    (ctx : MetloContext) (batch : list (option TraceParams)) (w w' : World)
    (err : Errors.t) :
  logRequestBatch ctx batch w = (inl err, w') →
  ∃ c, Errors.code err = Some c ∧ (c <= 500)%Z.
Proof.
  revert w. induction batch as [|tp batch IH]; intros w; simpl; [done|].
  destruct (LogRequest.logRequest _ _ _ _ ctx tp w) as [[e|[]] w1] eqn:E;
    [|by apply IH].
  intros [= <- <-]. unfold LogRequest.logRequest in E.
  destruct (1000 <? _); [done|].
  destruct (LogRequest.processTrace _ _ _ _ ctx tp w) as [[e0|[]] w0];
    [|done].
  injection E as <- _. unfold rethrow, Errors.codeBelow500.
  destruct (Errors.code e0) as [c|] eqn:Ec.
  - destruct (c <? 500)%Z eqn:Elt.
    + exists c. split; [done|]. apply Z.ltb_lt in Elt. lia.
    + exists 500%Z. split; [done|lia].
  - exists 500%Z. split; [done|lia].
Qed.


(** X4: a batch only appends: the traces pending before it are a prefix of
    the queue after it, and the queue grows by at most one trace for each
    element of the batch. *)
Theorem logRequestBatch_only_appends
    (ctx : MetloContext) (batch : list (option TraceParams)) (w w' : World)
    (r : Exc unit) :
  logRequestBatch ctx batch w = (r, w') →
  ∃ added, tracesQueue w' = tracesQueue w ++ added
           ∧ length added ≤ length batch
           ∧ ∀ item, item ∈ added → fst item = ctx.
Proof.
  revert w. induction batch as [|tp batch IH]; intros w; simpl.
  - intros [= _ <-]. exists []. rewrite app_nil_r. split_and!; [done..|].
    intros item Hin. by apply elem_of_nil in Hin.
  - destruct (LogRequest.logRequest _ _ _ _ ctx tp w) as [r1 w1] eqn:E.
    apply logRequest_world in E as (_ & first & Hfirst & Hlen & Hctx).
    destruct r1 as [e|[]].
    + intros [= _ <-]. exists first. split_and!; [done|lia|done].
    + intros Hrest. apply IH in Hrest as (added & Hq' & Hlen' & Hctx').
      exists (first ++ added). rewrite Hq', Hfirst, app_assoc.
      split_and!; [done|rewrite length_app; lia|].
      intros item [?|?]%elem_of_app; eauto.
Qed.

(** X5: while the length query reports more than 1000 pending traces, a
    whole batch is dropped without any error, traces with an invalid path
    included. *)
Theorem logRequestBatch_dropped_when_full
    (ctx : MetloContext) (batch : list (option TraceParams)) (w : World) :
  llenFault w = None →
  1000 < length (tracesQueue w) →
  logRequestBatch ctx batch w = (inr tt, w).
Proof.
  intros Hfault Hlen. induction batch as [|tp batch IH]; simpl; [done|].
  unfold LogRequest.logRequest at 1, observedQueueLength, llen.
  rewrite Hfault.
  destruct (1000 <? length (tracesQueue w)) eqn:E; [exact IH|].
  apply Nat.ltb_ge in E. lia.
Qed.

End LogRequestMore.

Lemma logRequest_appends_at_most_one_witness :
  MoreSamples.log (Some Samples.goodTrace) Samples.emptyWorld
  = (inr (), Samples.oneQueued)
  ∧ (LogRequest.llenFault Samples.oneQueued
     = LogRequest.llenFault Samples.emptyWorld
     ∧ LogRequest.rpushFault Samples.oneQueued
       = LogRequest.rpushFault Samples.emptyWorld
     ∧ LogRequest.now Samples.oneQueued = LogRequest.now Samples.emptyWorld
     ∧ ((LogRequest.tracesQueue Samples.oneQueued
         = LogRequest.tracesQueue Samples.emptyWorld)
        ∨ (∃ trace, @inr Errors.t unit () = inr ()
                    ∧ LogRequest.tracesQueue Samples.oneQueued
                      = LogRequest.tracesQueue Samples.emptyWorld
                        ++ [((), trace)]))
     ∧ (∀ err, @inr Errors.t unit () = inl err →
               LogRequest.tracesQueue Samples.oneQueued
               = LogRequest.tracesQueue Samples.emptyWorld)).
Proof.
  split; [reflexivity|].
  apply (logRequest_appends_at_most_one Samples.validate Samples.redact
           Samples.withSession () (Some Samples.goodTrace) Samples.emptyWorld
           Samples.oneQueued (inr ())).
  reflexivity.
Defined.

Lemma logRequestBatch_bounds_queue_witness :
  LogRequest.llenFault Samples.emptyWorld = None
  ∧ length (LogRequest.tracesQueue Samples.emptyWorld) ≤ 1001
  ∧ MoreSamples.logBatch [Some Samples.goodTrace; Some Samples.badTrace]
      Samples.emptyWorld
    = (inl (Errors.Error400BadRequest
              "Invalid path users/8: Path must start with /"),
       Samples.oneQueued)
  ∧ length (LogRequest.tracesQueue Samples.oneQueued) ≤ 1001.
Proof.
  split; [reflexivity|]. split; [simpl; lia|]. split; [reflexivity|].
  apply (logRequestBatch_bounds_queue Samples.validate Samples.redact
           Samples.withSession ()
           [Some Samples.goodTrace; Some Samples.badTrace]
           Samples.emptyWorld Samples.oneQueued
           (inl (Errors.Error400BadRequest
                   "Invalid path users/8: Path must start with /")));
    [reflexivity|simpl; lia|reflexivity].
Defined.

Lemma logRequestBatch_error_has_status_witness :
  MoreSamples.logBatch [Some Samples.goodTrace; Some Samples.badTrace]
    Samples.emptyWorld
  = (inl (Errors.Error400BadRequest
            "Invalid path users/8: Path must start with /"),
     Samples.oneQueued)
  ∧ ∃ c, Errors.code
           (Errors.Error400BadRequest
              "Invalid path users/8: Path must start with /") = Some c
         ∧ (c <= 500)%Z.
Proof.
  split; [reflexivity|].
  apply (logRequestBatch_error_has_status Samples.validate Samples.redact
           Samples.withSession ()
           [Some Samples.goodTrace; Some Samples.badTrace]
           Samples.emptyWorld Samples.oneQueued).
  reflexivity.
Defined.

Lemma logRequestBatch_only_appends_witness :
  MoreSamples.logBatch [Some Samples.goodTrace; Some Samples.badTrace]
    Samples.emptyWorld
  = (inl (Errors.Error400BadRequest
            "Invalid path users/8: Path must start with /"),
     Samples.oneQueued)
  ∧ ∃ added,
      LogRequest.tracesQueue Samples.oneQueued
      = LogRequest.tracesQueue Samples.emptyWorld ++ added
      ∧ length added
        ≤ length [Some Samples.goodTrace; Some Samples.badTrace]
      ∧ ∀ item, item ∈ added → fst item = ().
Proof.
  split; [reflexivity|].
  apply (logRequestBatch_only_appends Samples.validate Samples.redact
           Samples.withSession ()
           [Some Samples.goodTrace; Some Samples.badTrace]
           Samples.emptyWorld Samples.oneQueued
           (inl (Errors.Error400BadRequest
                   "Invalid path users/8: Path must start with /"))).
  reflexivity.
Defined.

Lemma logRequestBatch_dropped_when_full_witness :
  LogRequest.llenFault Samples.fullWorld = None
  ∧ 1000 < length (LogRequest.tracesQueue Samples.fullWorld)
  ∧ MoreSamples.logBatch [Some Samples.badTrace; Some Samples.goodTrace]
      Samples.fullWorld
    = (inr (), Samples.fullWorld).
Proof.
  assert (1000 < length (LogRequest.tracesQueue Samples.fullWorld)) as Hlen.
  { unfold Samples.fullWorld. cbn [LogRequest.tracesQueue].
    rewrite length_replicate. lia. }
  split; [reflexivity|]. split; [exact Hlen|].
  apply (logRequestBatch_dropped_when_full Samples.validate Samples.redact
           Samples.withSession ()
           [Some Samples.badTrace; Some Samples.goodTrace]
           Samples.fullWorld); [reflexivity|exact Hlen].
Defined.

(** * Further properties of the statistical path generalizer *)
Section GeneralizerMore.
Import JSNum Generalizer.
Variable getPathTokens : string → list string.

Local Abbreviation tokensOf tr := (getPathTokens (ApiTrace.path tr)).

Lemma bump_position_inv (cm : counter) pos token j :
  is_Some (bump pos token cm !! j) → is_Some (cm !! j) ∨ j = pos.
Proof.
  unfold bump. cbv zeta. destruct (decide (pos = j)) as [->|Hne].
  - by right.
  - rewrite lookup_insert_ne by done. by left.
Qed.

Lemma countTokens_position_inv toks : ∀ (cm : counter) i j,
  is_Some (countTokens cm i toks !! j) →
  is_Some (cm !! j) ∨ (i ≤ j ∧ j < i + length toks).
Proof.
  induction toks as [|tok toks IH]; intros cm i j; simpl; [by left|].
  intros [Hj|[? ?]]%IH; [|right; lia].
  apply bump_position_inv in Hj as [?| ->]; [by left|right; lia].
Qed.

(** The counter map has entries for the positions of the sampled paths
    only. *)
Lemma getCounterMap_position_inv traces j :
  is_Some (getCounterMap getPathTokens traces !! j) →
  ∃ tr, tr ∈ traces ∧ j < length (tokensOf tr).
Proof.
  unfold getCounterMap.
  assert (∀ cm : counter,
            is_Some (fold_left
                       (λ counterMap trace,
                          countTokens counterMap 0 (tokensOf trace))
                       traces cm !! j) →
            is_Some (cm !! j)
            ∨ ∃ tr, tr ∈ traces ∧ j < length (tokensOf tr)) as Hgen.
  { induction traces as [|x traces IH]; intros cm; simpl; [by left|].
    intros [Hj|(tr & Hin & Hlen)]%IH.
    - apply countTokens_position_inv in Hj as [?|[_ ?]]; [by left|].
      right. exists x. split; [by left|lia].
    - right. exists tr. split; [by right|done]. }
  intros [Hempty|?]%Hgen; [|done].
  rewrite lookup_empty in Hempty. by destruct Hempty.
Qed.

(** X6: the counter map has an entry for a position exactly when a
    sampled path has a token there.  For a token that names no property
    that every object inherits, the entry holds the number of sampled
    traces with that token at that position, and nothing when there is
    none.  For a token that names an inherited function it holds, once
    the token has occurred, the text of that function followed by one
    [1] for each occurrence, not a number; for the token [__proto__] it
    holds nothing. *)
Theorem getCounterMap_lookup
    (traces : list ApiTrace.t) (i : nat) (token : string) :
  (is_Some (getCounterMap getPathTokens traces !! i)
   ↔ ∃ tr, tr ∈ traces ∧ i < length (tokensOf tr))
  ∧ match getCounterMap getPathTokens traces !! i with
    | Some inner => inner !! token
    | None => None
    end
    = if occurrences getPathTokens traces i token =? 0
      then None
      else if ObjectPrototype.has token
           then if String.eqb token "__proto__"
                then None
                else Some (FunctionText
                             (occurrences getPathTokens traces i token))
           else Some (Count (occurrences getPathTokens traces i token)).
Proof.
  split.
  - split; [apply getCounterMap_position_inv|].
    intros (tr & Hin & Hlen). by eapply getCounterMap_position.
  - fold (counterAt (getCounterMap getPathTokens traces) i token).
    fold (countedAs token (occurrences getPathTokens traces i token)).
    unfold getCounterMap.
    by rewrite (counterAt_fold getPathTokens traces ∅ (λ _ _, 0)).
Qed.

(** The inner loop succeeds on every sampled path. *)
Lemma renderTokens_generalizes traces tr :
  tr ∈ traces →
  ∃ path total,
    renderTokens (getCounterMap getPathTokens traces) (length traces) 0
      (tokensOf tr) "" zero 1 = Some (path, total)
    ∧ generalizes (tokensOf tr) path.
Proof.
  intros Hin.
  destruct (renderTokens_sample getPathTokens traces tr (tokensOf tr) 0 ""
              zero 1 Hin) as (mask & total & Hlen & Hr); [done|].
  exists (renderWith mask (tokensOf tr) "" 1), total.
  split; [done|]. by exists mask.
Qed.

(** X7: on every sample, also one with paths of no token or with tokens
    that name inherited properties, and whatever order the engine's sort
    produces, the generalizer returns a list and never meets an undefined
    counter; the list holds at most 100 templates, no template twice, and
    each of them is the path of a sampled trace with some of its segments
    (possibly none) replaced by placeholders numbered from 1. *)
Theorem suggestFromSample_total
    (sort : (string → string → bool) → list string → list string)
    (traces : list ApiTrace.t) :
  sortContract sort →
  ∃ suggested,
    suggestFromSample getPathTokens sort traces = Some suggested
    ∧ length suggested ≤ 100
    ∧ NoDup suggested
    ∧ ∀ t, t ∈ suggested →
           ∃ tr, tr ∈ traces ∧ generalizes (tokensOf tr) t.
Proof.
  intros Hsort.
  destruct (getDistinctPathsFrom_keys getPathTokens
              (λ path tr, generalizes (tokensOf tr) path)
              (getCounterMap getPathTokens traces) (length traces)
              traces [] [])
    as (dp & Hdp & Hnd & Hkeys).
  { intros tr Hin. by apply renderTokens_generalizes. }
  { constructor. }
  { intros k Hk. by destruct Hk. }
  destruct (suggestFromSample_keys getPathTokens sort Hsort traces dp Hdp Hnd)
    as (suggested & Hs & Hlen & Hnds & Hin).
  exists suggested. split_and!; [done..|].
  intros t Ht. by apply Hkeys, Hin.
Qed.

(** X8: an endpoint without traces gets the empty list of suggestions, not
    an error. *)
Theorem getTopSuggestedPaths_no_traces
    (sort : (string → string → bool) → list string → list string)
    (table : list ApiTrace.t) (endpointId : string) :
  sortContract sort →
  (∀ tr, tr ∈ table → ApiTrace.apiEndpointUuid tr ≠ endpointId) →
  getTopSuggestedPaths getPathTokens sort table endpointId = Some [].
Proof.
  intros Hsort Hnone. unfold getTopSuggestedPaths, findRecentTraces.
  replace (filter (λ tr, ApiTrace.apiEndpointUuid tr = endpointId) table)
    with (@nil ApiTrace.t).
  - unfold suggestFromSample. simpl.
    pose proof (Hsort (higherConfidence []) []) as Hperm.
    apply Permutation_nil_r in Hperm. by rewrite Hperm.
  - symmetry. induction table as [|tr table IH]; [done|].
    rewrite filter_cons, decide_False by (apply Hnone; by left).
    apply IH. intros x Hx. apply Hnone. by right.
Qed.

(** X9: the sample is drawn from the traces of the endpoint only, most
    recent first, and is cut at [TRACE_LIMIT]; an endpoint with no more
    traces than that is sampled in full. *)
Theorem findRecentTraces_recent_first
    (table : list ApiTrace.t) (endpointId : string) :
  length (findRecentTraces table endpointId) ≤ TRACE_LIMIT
  ∧ (∀ tr, tr ∈ findRecentTraces table endpointId →
           tr ∈ table ∧ ApiTrace.apiEndpointUuid tr = endpointId)
  ∧ StronglySorted
      (λ a b, (ApiTrace.createdAt b <= ApiTrace.createdAt a)%Z)
      (findRecentTraces table endpointId)
  ∧ (length (filter (λ tr, ApiTrace.apiEndpointUuid tr = endpointId) table)
     ≤ TRACE_LIMIT →
     findRecentTraces table endpointId
     ≡ₚ filter (λ tr, ApiTrace.apiEndpointUuid tr = endpointId) table).
Proof.
  unfold findRecentTraces.
  set (own := filter (λ tr, ApiTrace.apiEndpointUuid tr = endpointId) table).
  set (sorted :=
         stableSort
           (λ y x, (ApiTrace.createdAt x <? ApiTrace.createdAt y)%Z) own).
  assert (StronglySorted
            (λ a b, (ApiTrace.createdAt b <= ApiTrace.createdAt a)%Z) sorted)
    as Hsorted.
  { apply (stableSort_sorted _ _ (λ _, True)).
    - intros x y z Hxy Hyz. lia.
    - intros x y _ _ Hlt%Z.ltb_lt. lia.
    - intros x y _ _ Hge%Z.ltb_ge. lia.
    - by apply Forall_forall. }
  split_and!.
  - rewrite length_take. lia.
  - intros tr Hin%subseteq_take. unfold sorted in Hin.
    rewrite stableSort_Permutation in Hin.
    by apply list_elem_of_filter in Hin as [? ?].
  - rewrite <- (take_drop TRACE_LIMIT sorted) in Hsorted.
    by apply StronglySorted_app_1_l in Hsorted.
  - intros Hlen. rewrite take_ge.
    + apply stableSort_Permutation.
    + unfold sorted. by rewrite stableSort_Permutation.
Qed.

(** X10: with ten sampled traces or fewer no token is rare enough to become
    a placeholder: every suggestion is the literal rendering of a sampled
    path. *)
Theorem small_sample_suggests_literals
    (sort : (string → string → bool) → list string → list string)
    (traces : list ApiTrace.t) :
  sortContract sort →
  length traces ≤ 10 →
  ∃ suggested,
    suggestFromSample getPathTokens sort traces = Some suggested
    ∧ ∀ t, t ∈ suggested →
           ∃ tr, tr ∈ traces
                 ∧ t = literalPath (getPathTokens (ApiTrace.path tr)).
Proof.
  intros Hsort Hlen.
  destruct (getDistinctPathsFrom_keys getPathTokens
              (λ path tr, path = literalPath (tokensOf tr))
              (getCounterMap getPathTokens traces) (length traces)
              traces [] [])
    as (dp & Hdp & Hnd & Hkeys).
  { intros tr Hin.
    destruct (renderTokens_small getPathTokens traces tr (tokensOf tr) 0 ""
                zero 1 Hlen Hin) as [total Hr]; [done|].
    by eauto. }
  { constructor. }
  { intros k Hk. by destruct Hk. }
  destruct (suggestFromSample_keys getPathTokens sort Hsort traces dp Hdp Hnd)
    as (suggested & Hs & _ & _ & Hin).
  exists suggested. split; [done|].
  intros t Ht. by apply Hkeys, Hin.
Qed.

End GeneralizerMore.

Lemma suggestFromSample_total_witness :
  ∃ suggested,
    Generalizer.suggestFromSample PathUtils.getPathTokens stableSort
      Samples.inheritedToken = Some suggested
    ∧ length suggested ≤ 100
    ∧ NoDup suggested
    ∧ ∀ t, t ∈ suggested →
           ∃ tr, tr ∈ Samples.inheritedToken
                 ∧ Generalizer.generalizes
                     (PathUtils.getPathTokens (ApiTrace.path tr)) t.
Proof.
  apply (suggestFromSample_total PathUtils.getPathTokens stableSort
           Samples.inheritedToken).
  intros comesFirst l. apply stableSort_Permutation.
Defined.

Lemma getTopSuggestedPaths_no_traces_witness :
  (∀ tr, tr ∈ Samples.mixed → ApiTrace.apiEndpointUuid tr ≠ "endpoint-2")
  ∧ Generalizer.getTopSuggestedPaths PathUtils.getPathTokens stableSort
      Samples.mixed "endpoint-2" = Some [].
Proof.
  assert (∀ tr, tr ∈ Samples.mixed
                → ApiTrace.apiEndpointUuid tr ≠ "endpoint-2") as Hnone.
  { intros tr Hin. unfold Samples.mixed in Hin.
    repeat (apply elem_of_cons in Hin as [->|Hin]; [discriminate|]).
    by apply elem_of_nil in Hin. }
  split; [exact Hnone|].
  apply (getTopSuggestedPaths_no_traces PathUtils.getPathTokens stableSort
           Samples.mixed "endpoint-2"); [|exact Hnone].
  intros comesFirst l. apply stableSort_Permutation.
Defined.

Lemma small_sample_suggests_literals_witness :
  length Samples.nineAndOne ≤ 10
  ∧ ∃ suggested,
      Generalizer.suggestFromSample PathUtils.getPathTokens stableSort
        Samples.nineAndOne
      = Some suggested
      ∧ ∀ t, t ∈ suggested →
             ∃ tr, tr ∈ Samples.nineAndOne
                   ∧ t = Generalizer.literalPath
                           (PathUtils.getPathTokens (ApiTrace.path tr)).
Proof.
  split; [simpl; lia|].
  apply (small_sample_suggests_literals PathUtils.getPathTokens stableSort
           Samples.nineAndOne).
  - intros comesFirst l. apply stableSort_Permutation.
  - simpl. lia.
Defined.

(** The sample of an endpoint is its own traces, most recent first. *)
Example recent_first_sample :
  map ApiTrace.uuid
    (Generalizer.findRecentTraces MoreSamples.traceTable "endpoint-1")
  = ["t-3"; "t-1"].
Proof. vm_compute. reflexivity. Qed.

(** * Further properties of the resolver and of the merge executor *)
Section ResolverMore.
Import ApiEndpoint Resolver.
Context {SpecObject Server : Type} `{Tools SpecObject Server}.

Lemma upsert_keeps_keys {A : Type} (key : A → string) (x : A) rows u :
  In u (map key rows) → In u (map key (DB.upsert key x rows)).
Proof.
  induction rows as [|r rows IH]; simpl; [done|].
  destruct (String.eqb_spec (key r) (key x)) as [Heq|Hne]; simpl.
  - intros [<-|Hin]; [by left|by right].
  - intros [<-|Hin]; [by left|right; by apply IH].
Qed.

Lemma upsert_has_key {A : Type} (key : A → string) (x : A) rows :
  In (key x) (map key (DB.upsert key x rows)).
Proof.
  induction rows as [|r rows IH]; simpl; [by left|].
  destruct (String.eqb (key r) (key x)); simpl; [by left|by right].
Qed.

Lemma find_upsert_key {A : Type} (key : A → string) (x : A) rows :
  find (λ r, String.eqb (key r) (key x)) (DB.upsert key x rows) = Some x.
Proof.
  induction rows as [|r rows IH]; simpl.
  - by rewrite String.eqb_refl.
  - destruct (String.eqb (key r) (key x)) eqn:E; simpl.
    + by rewrite String.eqb_refl.
    + by rewrite E.
Qed.

Lemma mergeItem_specs db item : DB.specs (mergeItem db item) = DB.specs db.
Proof.
  unfold mergeItem.
  by destruct (map uuid (JSObj.values (similarEndpoints item))).
Qed.

Lemma applyPlan_specs existingSpec plan db :
  DB.specs (applyPlan existingSpec plan db)
  = DB.specs (DB.saveSpec existingSpec db).
Proof.
  unfold applyPlan. generalize (DB.saveSpec existingSpec db).
  induction (JSObj.values plan) as [|item items IH]; intros d; simpl; [done|].
  by rewrite IH, mergeItem_specs.
Qed.

Lemma mergeItem_plain db item :
  JSObj.values (similarEndpoints item) = [] →
  mergeItem db item = DB.saveEndpoint (endpoint item) db.
Proof. intros Hempty. unfold mergeItem. by rewrite Hempty. Qed.

Lemma fold_plain_keeps items : ∀ d u,
  (∀ item, In item items → JSObj.values (similarEndpoints item) = []) →
  In u (map uuid (DB.endpoints d)) →
  In u (map uuid (DB.endpoints (fold_left mergeItem items d))).
Proof.
  induction items as [|item items IH]; intros d u Hempty Hu; simpl; [done|].
  apply IH; [intros x Hx; apply Hempty; by right|].
  rewrite mergeItem_plain by (apply Hempty; by left).
  simpl. by apply upsert_keeps_keys.
Qed.

Lemma fold_plain_tables items : ∀ d,
  (∀ item, In item items → JSObj.values (similarEndpoints item) = []) →
  DB.traces (fold_left mergeItem items d) = DB.traces d
  ∧ DB.dataFields (fold_left mergeItem items d) = DB.dataFields d
  ∧ DB.alerts (fold_left mergeItem items d) = DB.alerts d
  ∧ DB.aggregates (fold_left mergeItem items d) = DB.aggregates d.
Proof.
  induction items as [|item items IH]; intros d Hempty; simpl; [done|].
  destruct (IH (mergeItem d item)) as (-> & -> & -> & ->).
  { intros x Hx. apply Hempty. by right. }
  by rewrite mergeItem_plain by (apply Hempty; by left).
Qed.

(** X11: a plan whose supersede sets are all empty only stores the
    document and the endpoints of the batch: the traces, data fields,
    alerts and aggregates are the rows they were, every endpoint that was
    stored is still stored, and so is every endpoint of the batch. *)
Theorem applyPlan_without_superseded
    (existingSpec : OpenApiSpec.t) (plan : JSObj.obj EndpointsMap)
    (db : DB.t) :
  (∀ item, In item (JSObj.values plan) →
           JSObj.values (similarEndpoints item) = []) →
  DB.traces (applyPlan existingSpec plan db) = DB.traces db
  ∧ DB.dataFields (applyPlan existingSpec plan db) = DB.dataFields db
  ∧ DB.alerts (applyPlan existingSpec plan db) = DB.alerts db
  ∧ DB.aggregates (applyPlan existingSpec plan db) = DB.aggregates db
  ∧ (∀ e, In e (DB.endpoints db) →
          In (uuid e) (map uuid (DB.endpoints (applyPlan existingSpec plan db))))
  ∧ (∀ item, In item (JSObj.values plan) →
             In (uuid (endpoint item))
               (map uuid (DB.endpoints (applyPlan existingSpec plan db)))).
Proof.
  intros Hempty. unfold applyPlan.
  destruct (fold_plain_tables (JSObj.values plan)
              (DB.saveSpec existingSpec db) Hempty) as (-> & -> & -> & ->).
  split_and!; try done.
  - intros e He. apply fold_plain_keeps; [done|]. simpl. by apply in_map.
  - generalize (DB.saveSpec existingSpec db). revert Hempty.
    induction (JSObj.values plan) as [|x items IH]; intros Hempty d item Hin;
      [done|].
    simpl. destruct Hin as [->|Hin].
    + apply fold_plain_keeps; [intros y Hy; apply Hempty; by right|].
      rewrite mergeItem_plain by (apply Hempty; by left).
      simpl. apply upsert_has_key.
    + apply IH; [intros y Hy; apply Hempty; by right|done].
Qed.

(** X12: when a batch entry supersedes endpoints and its own identifier is
    not among theirs, the merge leaves no trace, data field, alert,
    aggregate or endpoint row that refers to a superseded identifier; no
    trace is lost, and the traces of the superseded endpoints now belong
    to the survivor. *)
Theorem mergeItem_leaves_no_reference (db : DB.t) (item : EndpointsMap) :
  let ids := map uuid (JSObj.values (similarEndpoints item)) in
  ids ≠ [] →
  ¬ In (uuid (endpoint item)) ids →
  (∀ tr, In tr (DB.traces (mergeItem db item)) →
         ¬ In (ApiTrace.apiEndpointUuid tr) ids)
  ∧ (∀ d, In d (DB.dataFields (mergeItem db item)) →
          ¬ In (DataField.apiEndpointUuid d) ids)
  ∧ (∀ a, In a (DB.alerts (mergeItem db item)) →
          ¬ In (Alert.apiEndpointUuid a) ids)
  ∧ (∀ g, In g (DB.aggregates (mergeItem db item)) →
          ¬ In (AggregateTraceDataHourly.apiEndpointUuid g) ids)
  ∧ (∀ e, In e (DB.endpoints (mergeItem db item)) → ¬ In (uuid e) ids)
  ∧ map ApiTrace.uuid (DB.traces (mergeItem db item))
    = map ApiTrace.uuid (DB.traces db)
  ∧ (∀ tr, In tr (DB.traces db) → In (ApiTrace.apiEndpointUuid tr) ids →
           ∃ tr', In tr' (DB.traces (mergeItem db item))
                  ∧ ApiTrace.uuid tr' = ApiTrace.uuid tr
                  ∧ ApiTrace.apiEndpointUuid tr' = uuid (endpoint item)).
Proof.
  intros ids Hne Hself. unfold mergeItem. fold ids.
  destruct ids as [|i0 ids0] eqn:Eids; [done|]. rewrite <- Eids in *.
  assert (uuid (mergedEndpoint item) = uuid (endpoint item)) as Hu
    by apply fold_inherit_uuid.
  unfold repoint. rewrite Hu. cbn.
  split_and!.
  - intros tr (t0 & <- & Ht0)%in_map_iff.
    destruct (DB.inIds ids (ApiTrace.apiEndpointUuid t0)) eqn:E; simpl.
    + done.
    + intros Hin%inIds_In. congruence.
  - intros d [_ Hd]%filter_In Hin%inIds_In. by rewrite Hin in Hd.
  - intros a [(a0 & <- & Ha0)%in_map_iff Hkeep]%filter_In. revert Hkeep.
    destruct (DB.inIds ids (Alert.apiEndpointUuid a0)) eqn:E; simpl.
    + destruct (AlertType.isDiscovery (Alert.type a0)) eqn:Ed; simpl.
      * rewrite E, Ed. done.
      * done.
    + intros _ Hin%inIds_In. congruence.
  - intros g [_ Hg]%filter_In Hin%inIds_In. by rewrite Hin in Hg.
  - intros e [_ He]%filter_In Hin%inIds_In. by rewrite Hin in He.
  - rewrite map_map. apply map_ext. intros tr.
    by destruct (DB.inIds ids (ApiTrace.apiEndpointUuid tr)).
  - intros tr Htr Hin%inIds_In. eexists. split.
    + apply in_map_iff. exists tr. split; [reflexivity|done].
    + by rewrite Hin.
Qed.

Lemma uploadNewSpec_new_row
    (specObject : SpecObject) (fileName : string) (extension : SpecExtension)
    (specString : string) (currTime : Z) (db db' : DB.t) :
  DB.findSpec db fileName = None →
  uploadNewSpec specObject fileName extension specString currTime db
  = (inr tt, db') →
  ∃ s, DB.findSpec db' fileName = Some s
       ∧ OpenApiSpec.name s = fileName
       ∧ OpenApiSpec.createdAt s = currTime
       ∧ OpenApiSpec.updatedAt s = currTime
       ∧ OpenApiSpec.isAutoGenerated s = false
       ∧ OpenApiSpec.extension s = extension.
Proof.
  intros Hnew. unfold uploadNewSpec.
  destruct (normalize _ _ _) as [e|[object' text]]; [done|].
  destruct (resolveBatch _ _ _) as [e|st]; [done|].
  intros [= <-]. rewrite Hnew.
  exists (OpenApiSpec.mk fileName text false extension (specHosts st)
            currTime currTime currTime).
  split; [|by split_and!].
  unfold DB.findSpec. rewrite applyPlan_specs. simpl.
  apply (find_upsert_key OpenApiSpec.name
           (OpenApiSpec.mk fileName text false extension (specHosts st)
              currTime currTime currTime)).
Qed.

(** X13: a successful upload stores the document under the given name,
    stamped with the time of the upload and with the hosts collected by
    the resolution; a document that existed keeps its creation date, its
    origin flag and its extension, a new one is created as a user
    document with the given extension.  The stored text is the given
    text unless the document is converted from version 2. *)
Theorem uploadNewSpec_stores_spec
    (specObject : SpecObject) (fileName : string) (extension : SpecExtension)
    (specString : string) (currTime : Z) (db db' : DB.t) :
  uploadNewSpec specObject fileName extension specString currTime db
  = (inr tt, db') →
  ∃ s st object' text,
    DB.findSpec db' fileName = Some s
    ∧ normalize specObject extension specString = inr (object', text)
    ∧ resolveBatch db fileName object' = inr st
    ∧ OpenApiSpec.name s = fileName
    ∧ OpenApiSpec.spec s = text
    ∧ (getOpenAPISpecVersion specObject ≠ Some 2 → text = specString)
    ∧ OpenApiSpec.hosts s = specHosts st
    ∧ OpenApiSpec.updatedAt s = currTime
    ∧ OpenApiSpec.specUpdatedAt s = currTime
    ∧ match DB.findSpec db fileName with
      | Some old =>
          OpenApiSpec.createdAt s = OpenApiSpec.createdAt old
          ∧ OpenApiSpec.isAutoGenerated s = OpenApiSpec.isAutoGenerated old
          ∧ OpenApiSpec.extension s = OpenApiSpec.extension old
      | None =>
          OpenApiSpec.createdAt s = currTime
          ∧ OpenApiSpec.isAutoGenerated s = false
          ∧ OpenApiSpec.extension s = extension
      end.
Proof.
  unfold uploadNewSpec.
  destruct (normalize _ _ _) as [e|[object' text]] eqn:Hnorm; [done|].
  destruct (resolveBatch _ _ _) as [e|st] eqn:Hres; [done|].
  intros [= <-].
  assert (getOpenAPISpecVersion specObject ≠ Some 2 → text = specString)
    as Htext.
  { revert Hnorm. unfold normalize.
    destruct (getOpenAPISpecVersion specObject) as [[|v]|]; try done.
    destruct (validateSpecSchema _ _); [|done].
    destruct (S v =? 2) eqn:E.
    - apply Nat.eqb_eq in E. rewrite E. done.
    - by intros [= _ ->]. }
  unfold DB.findSpec at 1. rewrite applyPlan_specs.
  destruct (DB.findSpec db fileName) as [old|] eqn:Hold.
  - assert (OpenApiSpec.name old = fileName) as Hname.
    { unfold DB.findSpec in Hold. apply find_some in Hold as [_ Heq].
      by apply String.eqb_eq. }
    clear Hold. subst fileName.
    eexists _, st, object', text. split.
    + simpl.
      apply (find_upsert_key OpenApiSpec.name
               (OpenApiSpec.mk (OpenApiSpec.name old) text
                  (OpenApiSpec.isAutoGenerated old) (OpenApiSpec.extension old)
                  (specHosts st) (OpenApiSpec.createdAt old) currTime
                  currTime)).
    + split_and!; done.
  - eexists _, st, object', text. split.
    + simpl.
      apply (find_upsert_key OpenApiSpec.name
               (OpenApiSpec.mk fileName text false extension (specHosts st)
                  currTime currTime currTime)).
    + split_and!; done.
Qed.

Lemma resolveBatch_error db specName specObject e :
  resolveBatch db specName specObject = inl e →
  Errors.code e = Some 422%Z ∨ Errors.code e = Some 409%Z.
Proof.
  set (bad := λ e : Errors.t,
                Errors.code e = Some 422%Z ∨ Errors.code e = Some 409%Z).
  change (resolveBatch db specName specObject = inl e → bad e).
  unfold resolveBatch. apply forEachExc_error_kind.
  intros [p ks] s0 e0 _. unfold resolvePath.
  apply forEachExc_error_kind. intros m s1 e1 _. unfold resolveMethod.
  destruct (getServersV3 specObject p m); [intros [= <-]; by left|].
  apply forEachExc_error_kind. intros h s2 e2 _ He.
  apply resolveHost_error in He as [msg ->]. by right.
Qed.

(** X14: whatever an upload raises, it has written nothing, and the
    error is a 422 (no version, schema errors, an operation without
    servers), a 409 (a path owned by a user document), a 500 (the
    conversion gave no document) or the exception of the converter
    itself. *)
Theorem uploadNewSpec_error_kinds
    (specObject : SpecObject) (fileName : string) (extension : SpecExtension)
    (specString : string) (currTime : Z) (db db' : DB.t) (err : Errors.t) :
  uploadNewSpec specObject fileName extension specString currTime db
  = (inl err, db') →
  db' = db
  ∧ (Errors.code err = Some 422%Z ∨ Errors.code err = Some 409%Z
     ∨ Errors.code err = Some 500%Z
     ∨ (getOpenAPISpecVersion specObject = Some 2
        ∧ convertObj specObject = inl err)).
Proof.
  unfold uploadNewSpec.
  destruct (normalize _ _ _) as [e|[object' text]] eqn:Hnorm.
  - intros [= <- <-]. split; [done|]. revert Hnorm. unfold normalize.
    destruct (getOpenAPISpecVersion specObject) as [[|v]|];
      [intros [= <-]; by left| |intros [= <-]; by left].
    destruct (validateSpecSchema _ _); [|intros [= <-]; by left].
    destruct (S v =? 2) eqn:E; [|done]. apply Nat.eqb_eq in E. rewrite E.
    destruct (convertObj specObject) as [e0|[converted|]] eqn:Hc.
    + intros [= <-]. by right; right; right.
    + done.
    + intros [= <-]. by right; right; left.
  - destruct (resolveBatch _ _ _) as [e|st] eqn:Hres; [|done].
    intros [= <- <-]. split; [done|].
    apply resolveBatch_error in Hres as [?|?]; [by left|by right; left].
Qed.

Lemma validateProvided_fails db method host numTokens item set :
  (∃ e, validateProvided db method host numTokens item set = inl e)
  ↔ LogRequest.isValid (getValidPath item numTokens) = false
    ∨ is_Some (DB.findEndpoint db
                 (LogRequest.validPath (getValidPath item numTokens))
                 method host).
Proof.
  unfold validateProvided.
  destruct (LogRequest.isValid (getValidPath item numTokens)); simpl.
  - destruct (DB.findEndpoint _ _ _ _).
    + split; [intros _; right; by eexists|intros _; by eexists].
    + split; [by intros [? ?]|intros [?|[? ?]]; done].
  - split; [intros _; by left|intros _; by eexists].
Qed.

Lemma forEachExc_fails_iff {A S : Type} (body : A → S → Exc S)
    (fails : A → Prop) (l : list A) :
  (∀ x s, (∃ e, body x s = inl e) ↔ fails x) →
  ∀ s, (∃ e, forEachExc body l s = inl e) ↔ ∃ x, In x l ∧ fails x.
Proof.
  intros Hbody. induction l as [|y l IH]; intros s; simpl.
  - split; [by intros [? ?]|by intros (? & [] & _)].
  - destruct (body y s) as [e|s'] eqn:E.
    + split; [|intros _; by eexists].
      intros _. exists y. split; [by left|]. apply (Hbody y s). by eexists.
    + rewrite IH. split.
      * intros (x & Hx & Hf). exists x. split; [by right|done].
      * intros (x & [->|Hx] & Hf); [|by exists x].
        apply (Hbody x s) in Hf as [e He]. congruence.
Qed.

(** X15: the manual flow is all or nothing in its validation: it raises
    exactly when one of the provided paths is invalid or names an endpoint
    that already exists for the method and host, and what it raises is a
    400. *)
Theorem generateEndpointsMap_all_or_nothing
    (db : DB.t) (providedPaths : list string) (method host : string)
    (numTokens : nat) :
  ((∃ e, generateEndpointsMap db providedPaths method host numTokens = inl e)
   ↔ ∃ item, In item providedPaths
             ∧ (LogRequest.isValid (getValidPath item numTokens) = false
                ∨ is_Some (DB.findEndpoint db
                             (LogRequest.validPath
                                (getValidPath item numTokens))
                             method host)))
  ∧ ∀ e, generateEndpointsMap db providedPaths method host numTokens = inl e →
         Errors.code e = Some 400%Z.
Proof.
  unfold generateEndpointsMap. split.
  - rewrite <- (forEachExc_fails_iff
                  (validateProvided db method host numTokens)
                  (λ item,
                     LogRequest.isValid (getValidPath item numTokens) = false
                     ∨ is_Some (DB.findEndpoint db
                                  (LogRequest.validPath
                                     (getValidPath item numTokens))
                                  method host))
                  providedPaths
                  (λ x s, validateProvided_fails db method host numTokens x s)
                  []).
    destruct (forEachExc _ _ _) as [e|set].
    + split; intros _; by eexists.
    + split; by intros [? ?].
  - intros e.
    destruct (forEachExc _ _ _) as [e0|set] eqn:E; [|done].
    intros [= <-]. revert E.
    apply (forEachExc_error_kind _ (λ e, Errors.code e = Some 400%Z)).
    intros y s e1 _. unfold validateProvided.
    destruct (negb _); [by intros [= <-]|].
    destruct (DB.findEndpoint _ _ _ _); [by intros [= <-]|done].
Qed.

(** X16: [updatePaths] writes nothing unless the whole batch is accepted:
    whatever it raises, the tables are the ones it was given, and the
    error is a 400 (no list, or a rejected path) or a 404 (no such
    endpoint). *)
Theorem updatePaths_error_changes_nothing
    (providedPaths : option (list string)) (endpointId : string)
    (db db' : DB.t) (err : Errors.t) :
  updatePaths providedPaths endpointId db = (inl err, db') →
  db' = db ∧ (Errors.code err = Some 400%Z ∨ Errors.code err = Some 404%Z).
Proof.
  unfold updatePaths. destruct providedPaths as [paths|].
  - destruct (DB.findEndpointByUuid db endpointId) as [e|].
    + destruct (generateEndpointsMap _ _ _ _ _) as [e0|plan] eqn:E; [|done].
      intros [= <- <-]. split; [done|]. left. revert E.
      unfold generateEndpointsMap.
      destruct (forEachExc _ _ _) as [e1|set] eqn:E1; [|done].
      intros [= <-]. revert E1.
      apply (forEachExc_error_kind _ (λ e, Errors.code e = Some 400%Z)).
      intros y s e2 _. unfold validateProvided.
      destruct (negb _); [by intros [= <-]|].
      destruct (DB.findEndpoint _ _ _ _); [by intros [= <-]|done].
    + intros [= <- <-]. split; [done|by right].
  - intros [= <- <-]. split; [done|by left].
Qed.

End ResolverMore.

(** * Properties of the state of the test editor *)
Section TestEditorFacts.
Import TestEditor.
Context {Request Endpoint Rest : Type}.
Variable makeNewEmptyRequest : Endpoint → Request.

Local Abbreviation State := (TestEditorState Request Rest).

Lemma dropIndexFrom_past (l : list Request) : ∀ i idx,
  idx < i → dropIndexFrom i idx l = l.
Proof.
  induction l as [|x l IH]; intros i idx Hlt; simpl; [done|].
  destruct (i =? idx) eqn:E; [apply Nat.eqb_eq in E; lia|].
  f_equal. apply IH. lia.
Qed.

(** Filtering out one index is cutting the list at it. *)
Lemma dropIndexFrom_cut (l : list Request) : ∀ i idx,
  i ≤ idx → dropIndexFrom i idx l = take (idx - i) l ++ drop (S (idx - i)) l.
Proof.
  induction l as [|x l IH]; intros i idx Hle; simpl;
    [by rewrite take_nil|].
  destruct (i =? idx) eqn:E.
  - apply Nat.eqb_eq in E. subst idx. rewrite Nat.sub_diag. simpl.
    rewrite drop_0. apply dropIndexFrom_past. lia.
  - apply Nat.eqb_neq in E.
    replace (idx - i) with (S (idx - S i)) by lia. simpl. f_equal.
    apply IH. lia.
Qed.

Lemma length_cut (l : list Request) idx :
  idx < length l → length (take idx l ++ drop (S idx) l) = length l - 1.
Proof. intros Hlt. rewrite length_app, length_take, length_drop. lia. Qed.

Lemma cut_out_of_range (l : list Request) idx :
  length l ≤ idx → take idx l ++ drop (S idx) l = l.
Proof.
  intros Hge. rewrite take_ge by lia. rewrite drop_ge by lia.
  by rewrite app_nil_r.
Qed.

(** X17: the editor never loses its footing: adding a request always
    leaves a state with a request selected, and deleting any index from
    such a state leaves one again; the last remaining request cannot be
    deleted. *)
Theorem editor_selection_stays_valid (state : State) :
  (∀ endpoint, wellFormed (addNewRequest makeNewEmptyRequest endpoint state))
  ∧ (wellFormed state → ∀ idx, wellFormed (deleteRequest idx state))
  ∧ (length (requests (test state)) = 1 →
     ∀ idx, deleteRequest idx state = state).
Proof.
  split_and!.
  - intros endpoint. unfold wellFormed, addNewRequest. simpl.
    rewrite length_app. simpl. lia.
  - intros [Hone Hsel] idx. unfold wellFormed, deleteRequest.
    destruct (length (requests (test state)) =? 1) eqn:E; [done|].
    apply Nat.eqb_neq in E. simpl.
    rewrite dropIndexFrom_cut by lia. rewrite Nat.sub_0_r.
    destruct (decide (idx < length (requests (test state)))) as [Hin|Hout].
    + rewrite length_cut by done.
      destruct (idx <=? selectedRequest state) eqn:Ele.
      * apply Nat.leb_le in Ele. lia.
      * apply Nat.leb_gt in Ele. lia.
    + rewrite cut_out_of_range by lia.
      destruct (idx <=? selectedRequest state) eqn:Ele; [|done].
      apply Nat.leb_le in Ele. lia.
  - intros Hone idx. unfold deleteRequest. by rewrite Hone.
Qed.

(** X18: deleting a request other than the selected one keeps the selection
    on the same request; deleting the selected one moves the selection to
    its predecessor, or to its successor when it was the first. *)
Theorem deleteRequest_selection (state : State) (idx : nat) :
  wellFormed state →
  (idx ≠ selectedRequest state →
   requests (test (deleteRequest idx state))
     !! selectedRequest (deleteRequest idx state)
   = requests (test state) !! selectedRequest state)
  ∧ (idx = selectedRequest state →
     2 ≤ length (requests (test state)) →
     requests (test (deleteRequest idx state))
       !! selectedRequest (deleteRequest idx state)
     = requests (test state)
         !! (if idx =? 0 then 1 else idx - 1)).
Proof.
  intros [Hone Hsel]. unfold deleteRequest.
  destruct (length (requests (test state)) =? 1) eqn:E.
  { apply Nat.eqb_eq in E. split; [done|]. intros _ ?. lia. }
  simpl. rewrite dropIndexFrom_cut by lia. rewrite Nat.sub_0_r.
  set (l := requests (test state)) in *.
  set (sel := selectedRequest state) in *.
  split.
  - intros Hne. destruct (idx <=? sel) eqn:Ele.
    + apply Nat.leb_le in Ele. rewrite Nat.max_0_r.
      rewrite lookup_app_r by (rewrite length_take; lia).
      rewrite length_take, lookup_drop. f_equal. lia.
    + apply Nat.leb_gt in Ele.
      rewrite lookup_app_l by (rewrite length_take; lia).
      apply lookup_take_lt. lia.
  - intros -> Htwo. rewrite Nat.leb_refl, Nat.max_0_r.
    destruct sel as [|sel]; simpl.
    + by rewrite lookup_drop.
    + rewrite Nat.sub_0_r.
      rewrite lookup_app_l by (rewrite length_take; lia).
      apply lookup_take_lt. lia.
Qed.

(** X19: adding a request and deleting it again gives back the test as it
    was, with the selection on the last request; on a test without
    requests the added request stays, since it is the only one. *)
Theorem add_then_delete (state : State) (endpoint : Endpoint) :
  (requests (test state) ≠ [] →
   deleteRequest (length (requests (test state)))
     (addNewRequest makeNewEmptyRequest endpoint state)
   = {| test := test state;
        selectedRequest := length (requests (test state)) - 1 |})
  ∧ (requests (test state) = [] →
     ∀ idx, deleteRequest idx
              (addNewRequest makeNewEmptyRequest endpoint state)
            = addNewRequest makeNewEmptyRequest endpoint state).
Proof.
  destruct state as [[n l r] sel]. simpl. split.
  - intros Hne. unfold deleteRequest, addNewRequest. simpl.
    rewrite length_app. simpl.
    destruct (length l + 1 =? 1) eqn:E.
    { apply Nat.eqb_eq in E. destruct l; [done|simpl in E; lia]. }
    rewrite dropIndexFrom_cut by lia. rewrite Nat.sub_0_r.
    rewrite take_app_length, drop_ge by (rewrite length_app; simpl; lia).
    rewrite app_nil_r.
    replace (length l <=? length l + 1 - 1) with true
      by (symmetry; apply Nat.leb_le; lia).
    unfold withRequests. simpl. f_equal. lia.
  - intros -> idx. reflexivity.
Qed.

End TestEditorFacts.

(** * The shape of the batch map that the resolution builds *)
Section PlanFacts.
Import ApiEndpoint Resolver Plan.
Context {SpecObject Server : Type} `{Tools SpecObject Server}.
Implicit Types (m : JSObj.obj EndpointsMap).

Lemma has_true_iff {V : Type} (o : JSObj.obj V) k :
  JSObj.has o k = true ↔ k ∈ JSObj.keys o.
Proof.
  rewrite elem_of_keys. unfold JSObj.has.
  destruct (JSObj.get o k) as [v|];
    [split; [by eauto|done]|split; [done|by intros [? ?]]].
Qed.

Lemma has_set_iff {V : Type} (o : JSObj.obj V) k k' v :
  JSObj.has (JSObj.set o k v) k' = true ↔ k = k' ∨ JSObj.has o k' = true.
Proof.
  unfold JSObj.has. destruct (decide (k = k')) as [->|Hne].
  - rewrite get_set_eq. split; [by left|done].
  - rewrite get_set_ne by done. split; [by right|by intros [?|?]].
Qed.

Lemma has_del_true {V : Type} (o : JSObj.obj V) k k' :
  JSObj.has (JSObj.del o k) k' = true → JSObj.has o k' = true.
Proof. rewrite !has_true_iff. apply keys_del_subseteq. Qed.

Lemma get_set_Some {V : Type} (o : JSObj.obj V) k k' v w :
  JSObj.get (JSObj.set o k v) k' = Some w →
  (k = k' ∧ w = v) ∨ (k ≠ k' ∧ JSObj.get o k' = Some w).
Proof.
  destruct (decide (k = k')) as [->|Hne].
  - rewrite get_set_eq. intros [= <-]. by left.
  - rewrite get_set_ne by done. by right.
Qed.

Lemma get_set_None {V : Type} (o : JSObj.obj V) k k' v :
  JSObj.get (JSObj.set o k v) k' = None → k ≠ k' ∧ JSObj.get o k' = None.
Proof.
  destruct (decide (k = k')) as [->|Hne].
  - by rewrite get_set_eq.
  - by rewrite get_set_ne by done.
Qed.

Lemma is_Some_get_set {V : Type} (o : JSObj.obj V) k k' v :
  is_Some (JSObj.get o k') → is_Some (JSObj.get (JSObj.set o k v) k').
Proof.
  destruct (decide (k = k')) as [->|Hne].
  - rewrite get_set_eq. by eauto.
  - by rewrite get_set_ne by done.
Qed.

Lemma get_Some_In {V : Type} (o : JSObj.obj V) k v :
  JSObj.get o k = Some v → In (k, v) o.
Proof.
  induction o as [|[k0 v0] o IH]; simpl; [done|].
  destruct (String.eqb_spec k0 k) as [->|Hne].
  - intros [= ->]. by left.
  - intros Hget. right. by apply IH.
Qed.

Lemma In_set {V : Type} (o : JSObj.obj V) k v x :
  In x (JSObj.set o k v) → x = (k, v) ∨ In x o.
Proof.
  induction o as [|[k0 v0] o IH]; simpl.
  - intros [<-|[]]. by left.
  - destruct (String.eqb_spec k0 k) as [->|Hne]; simpl.
    + intros [<-|Hin]; [by left|by right; right].
    + intros [<-|Hin]; [by right; left|].
      destruct (IH Hin) as [->|Hx]; [by left|by right; right].
Qed.

Lemma In_del {V : Type} (o : JSObj.obj V) k x :
  In x (JSObj.del o k) → In x o.
Proof.
  induction o as [|[k0 v0] o IH]; simpl; [done|].
  destruct (String.eqb k0 k); simpl.
  - by right.
  - intros [<-|Hin]; [by left|right; by apply IH].
Qed.

Lemma In_supersedes m k u :
  In u (supersedes m k)
  ↔ ∃ entry, JSObj.get m k = Some entry
             ∧ JSObj.has (similarEndpoints entry) u = true.
Proof.
  unfold supersedes. destruct (JSObj.get m k) as [entry|].
  - rewrite <- list_elem_of_In, <- has_true_iff.
    split; [by eauto|]. by intros (? & [= <-] & ?).
  - split; [done|]. by intros (? & ? & _).
Qed.

(** Whether some candidate holds the identity [u]. *)
Lemma holder_dec m u :
  (∃ h holder, JSObj.get m h = Some holder
               ∧ JSObj.has (similarEndpoints holder) u = true)
  ∨ (∀ k entry, JSObj.get m k = Some entry →
                JSObj.has (similarEndpoints entry) u = false).
Proof.
  set (p := λ k, match JSObj.get m k with
                 | Some e => JSObj.has (similarEndpoints e) u
                 | None => false
                 end).
  destruct (find p (JSObj.keys m)) as [h|] eqn:E.
  - left. apply find_some in E as [_ Hp]. unfold p in Hp.
    destruct (JSObj.get m h) as [holder|] eqn:Hh; [|done]. by eauto.
  - right. intros k entry Hk.
    assert (In k (JSObj.keys m)) as Hin.
    { apply list_elem_of_In, elem_of_keys. by eauto. }
    pose proof (find_none _ _ E k Hin) as Hp. unfold p in Hp.
    by rewrite Hk in Hp.
Qed.

(** *** The three assignments of the resolution keep the map consistent *)

Lemma consistent_fresh m k a :
  consistent m →
  consistent (JSObj.set m k {| endpoint := a; similarEndpoints := [] |}).
Proof.
  intros [[Hnd Hin] Hs]. split; [split|].
  - by apply NoDup_keys_set.
  - intros k' e [[-> ->]|[Hne He]]%get_set_Some;
      [simpl; constructor|by eapply Hin].
  - intros u k1 k2 [Hu Hnone]%get_set_None
      (e1 & [[-> ->]|[Hne1 He1]]%get_set_Some & Hh1)%In_supersedes
      (e2 & [[-> ->]|[Hne2 He2]]%get_set_Some & Hh2)%In_supersedes;
      try done.
    apply (Hs u); [done|apply In_supersedes; by eauto..].
Qed.

Lemma supersedes_drop m k entry u' k1 u :
  JSObj.get m k = Some entry →
  In u (supersedes (JSObj.set m k (dropSimilar entry u')) k1) →
  In u (supersedes m k1).
Proof.
  intros Hk (e1 & [[-> ->]|[Hne1 He1]]%get_set_Some & Hh1)%In_supersedes;
    apply In_supersedes.
  - exists entry. split; [done|]. simpl in Hh1. by eapply has_del_true.
  - by eauto.
Qed.

Lemma consistent_drop m k entry u' :
  consistent m → JSObj.get m k = Some entry →
  consistent (JSObj.set m k (dropSimilar entry u')).
Proof.
  intros [[Hnd Hin] Hs] Hk. split; [split|].
  - by apply NoDup_keys_set.
  - intros k' e [[-> ->]|[Hne He]]%get_set_Some; [|by eapply Hin].
    simpl. apply NoDup_keys_del. by eapply Hin.
  - intros u k1 k2 [Hu Hnone]%get_set_None H1 H2.
    apply (Hs u); [done|by eapply supersedes_drop..].
Qed.

Lemma consistent_add m ka entry item :
  consistent m → JSObj.get m ka = Some entry →
  (is_Some (JSObj.get m (uuid item))
   ∨ ∀ k e, k ≠ ka → JSObj.get m k = Some e →
            JSObj.has (similarEndpoints e) (uuid item) = false) →
  consistent (JSObj.set m ka (addSimilar entry item)).
Proof.
  intros [[Hnd Hin] Hs] Hka Hitem.
  assert (∀ u k1,
            In u (supersedes (JSObj.set m ka (addSimilar entry item)) k1) →
            (k1 = ka ∧ u = uuid item) ∨ In u (supersedes m k1)) as Hsup.
  { intros u k1
      (e1 & [[-> ->]|[Hne1 He1]]%get_set_Some & Hh1)%In_supersedes.
    - simpl in Hh1. apply has_set_iff in Hh1 as [<-|Hh1]; [by left|].
      right. apply In_supersedes. by eauto.
    - right. apply In_supersedes. by eauto. }
  assert (∀ u k, JSObj.get m u = None → u = uuid item →
                 In u (supersedes m k) → k = ka) as Hold.
  { intros u k Hnone -> (e & He & Hh)%In_supersedes.
    destruct Hitem as [[? Hsome]|Hothers]; [congruence|].
    destruct (decide (k = ka)) as [->|Hne]; [done|].
    rewrite (Hothers k e Hne He) in Hh. done. }
  split; [split|].
  - by apply NoDup_keys_set.
  - intros k' e [[-> ->]|[Hne He]]%get_set_Some; [|by eapply Hin].
    simpl. apply NoDup_keys_set. by eapply Hin.
  - intros u k1 k2 [Hu Hnone]%get_set_None H1 H2.
    destruct (Hsup u k1 H1) as [[-> Hu1]|H1'],
             (Hsup u k2 H2) as [[-> Hu2]|H2']; try done.
    + symmetry. by apply (Hold u).
    + by apply (Hold u).
    + by apply (Hs u).
Qed.

(** *** The inner loop only takes identities away *)

Lemma fold_holderStep_preserves (I : JSObj.obj EndpointsMap → Prop) a item :
  (∀ m k entry, I m → JSObj.get m k = Some entry →
                I (JSObj.set m k (dropSimilar entry (uuid item)))) →
  ∀ ks m b, I m → I (fold_left (holderStep a item) ks (m, b)).1.
Proof.
  intros Hdrop. induction ks as [|k ks IH]; intros m b Hm; [done|].
  cbn [fold_left].
  destruct (holderStep a item (m, b) k) as [m' b'] eqn:E.
  apply IH. revert E. unfold holderStep.
  destruct (JSObj.get m k) as [entry|] eqn:Hk; [|by intros [= <- _]].
  destruct (JSObj.has _ _); [|by intros [= <- _]].
  destruct (takesOver _ _ _); intros [= <- _]; [by apply Hdrop|done].
Qed.

Lemma absorbSimilar_keeps_key a m item k :
  is_Some (JSObj.get m k) → is_Some (JSObj.get (absorbSimilar a m item) k).
Proof.
  intros Hk. unfold absorbSimilar.
  destruct (JSObj.has m (uuid item)).
  - destruct (JSObj.get m (uuid a)); [by apply is_Some_get_set|done].
  - pose proof (fold_holderStep_preserves
                  (λ m', is_Some (JSObj.get m' k)) a item
                  (λ m' k' entry Hm' _, is_Some_get_set m' k' k _ Hm')
                  (JSObj.keys m) m false Hk) as Hfold.
    destruct (fold_left _ _ _) as [m' b]. simpl in Hfold.
    destruct b; [done|].
    destruct (JSObj.get m' (uuid a)); [by apply is_Some_get_set|done].
Qed.

Lemma absorbSimilar_consistent a m item :
  consistent m → is_Some (JSObj.get m (uuid a)) →
  consistent (absorbSimilar a m item).
Proof.
  intros Hm [entry Ha]. unfold absorbSimilar.
  destruct (JSObj.has m (uuid item)) eqn:Hkey.
  - rewrite Ha. apply consistent_add; [done|done|left].
    unfold JSObj.has in Hkey. destruct (JSObj.get m (uuid item)); by eauto.
  - assert (JSObj.get m (uuid item) = None) as Hnone.
    { unfold JSObj.has in Hkey. by destruct (JSObj.get m (uuid item)). }
    destruct (holder_dec m (uuid item)) as [(h & holder & Hh & Hhas)|Hidle].
    + destruct Hm as [[Hnd Hin] Hs].
      assert (∀ k e, k ≠ h → JSObj.get m k = Some e →
                     JSObj.has (similarEndpoints e) (uuid item) = false)
        as Hothers.
      { intros k e Hk He.
        destruct (JSObj.has (similarEndpoints e) (uuid item)) eqn:E; [|done].
        exfalso. apply Hk.
        apply (Hs (uuid item)); [done|apply In_supersedes; by eauto..]. }
      rewrite (fold_holderStep_holder a item m h holder) by done.
      destruct (takesOver a (endpoint holder) item); [|done].
      destruct (is_Some_get_set m h (uuid a)
                  (dropSimilar holder (uuid item))) as [entry' Ha'];
        [by eauto|].
      rewrite Ha'. apply consistent_add; [|done|right].
      * by apply consistent_drop.
      * intros k e Hk [[-> ->]|[Hne He]]%get_set_Some.
        -- simpl. apply has_del_eq. by eapply Hin.
        -- by eapply Hothers.
    + rewrite fold_holderStep_idle by (intros k e _; apply Hidle).
      rewrite Ha. apply consistent_add; [done|done|right].
      intros k e _. apply Hidle.
Qed.

Lemma fold_absorbSimilar_consistent a similar : ∀ m,
  consistent m → is_Some (JSObj.get m (uuid a)) →
  consistent (fold_left (absorbSimilar a) similar m).
Proof.
  induction similar as [|item similar IH]; intros m Hm Ha; [done|].
  cbn [fold_left]. apply IH.
  - by apply absorbSimilar_consistent.
  - by apply absorbSimilar_keeps_key.
Qed.

Lemma release_consistent u m : consistent m → consistent (release u m).
Proof.
  unfold release. generalize (JSObj.keys m) as ks. intros ks. revert m.
  induction ks as [|k ks IH]; intros m Hm; [done|].
  cbn [fold_left]. apply IH. unfold releaseStep.
  destruct (JSObj.get m k) as [entry|] eqn:Hk; [|done].
  destruct (JSObj.has _ _); [|done]. by apply consistent_drop.
Qed.

Lemma consistent_empty : consistent [].
Proof.
  split; [split|].
  - constructor.
  - done.
  - intros u k1 k2 _ [].
Qed.

Lemma forEachExc_invariant {A S : Type} (body : A → S → Exc S)
    (I : S → Prop) (l : list A) :
  (∀ x s s', body x s = inr s' → I s → I s') →
  ∀ s s', forEachExc body l s = inr s' → I s → I s'.
Proof.
  intros Hbody. induction l as [|y l IH]; intros s s'; simpl.
  - by intros [= <-].
  - destruct (body y s) as [e|s1] eqn:E; [done|].
    intros Hrest Hs. eapply IH; [done|]. by eapply Hbody.
Qed.

Lemma resolveHost_consistent db specName path pathRegex methodEnum host
    st st' :
  resolveHost db specName path pathRegex methodEnum host st = inr st' →
  consistent (endpointsMap st) → consistent (endpointsMap st').
Proof.
  unfold resolveHost. intros Hres Hst.
  destruct (DB.findEndpoint db path methodEnum host) as [found|].
  - destruct (negb _ || _); [|done]. injection Hres as <-. simpl.
    apply release_consistent. by apply consistent_fresh.
  - injection Hres as <-. simpl.
    apply fold_absorbSimilar_consistent.
    + by apply consistent_fresh.
    + simpl. rewrite get_set_eq. by eauto.
Qed.

(** X20: in the batch map that a spec upload resolves, an endpoint that
    is not itself a candidate of the batch is superseded by at most one
    candidate, so that the merge moves its rows once. *)
Theorem resolveBatch_single_holder
    (db : DB.t) (specName : string) (specObject : SpecObject)
    (st : Resolution) :
  resolveBatch db specName specObject = inr st →
  singleHolder (endpointsMap st).
Proof.
  intros Hres.
  cut (consistent (endpointsMap st)); [by intros [_ ?]|].
  revert Hres. unfold resolveBatch. intros Hres.
  eapply (forEachExc_invariant _ (λ s, consistent (endpointsMap s)));
    [|exact Hres|apply consistent_empty].
  intros [p ks] s s'. unfold resolvePath.
  apply (forEachExc_invariant _ (λ s, consistent (endpointsMap s))).
  clear. intros method s s'. unfold resolveMethod.
  destruct (getServersV3 specObject p method); [done|].
  intros Hloop Hs.
  eapply (forEachExc_invariant _ (λ s, consistent (endpointsMap s)));
    [|exact Hloop|exact Hs].
  intros host s1 s2. apply resolveHost_consistent.
Qed.

Lemma candidateStep_consistent db method host st path :
  consistent (endpointsMap st) →
  consistent (endpointsMap (candidateStep db method host st path)).
Proof.
  intros Hst. unfold candidateStep. simpl.
  apply fold_absorbSimilar_consistent.
  - by apply consistent_fresh.
  - simpl. rewrite get_set_eq. by eauto.
Qed.

(** X21: in the batch map of a manual path edit, an endpoint that is not
    itself a candidate is superseded by at most one of the new paths. *)
Theorem generateEndpointsMap_single_holder
    (db : DB.t) (providedPaths : list string) (method host : string)
    (numTokens : nat) (plan : JSObj.obj EndpointsMap) :
  generateEndpointsMap db providedPaths method host numTokens = inr plan →
  singleHolder plan.
Proof.
  unfold generateEndpointsMap.
  destruct (forEachExc _ _ _) as [e|set]; [done|]. intros [= <-].
  cut (consistent
         (endpointsMap
            (fold_left (candidateStep db method host) set
               {| endpointsMap := []; specHosts := []; drawn := 0 |})));
    [by intros [_ ?]|].
  assert (consistent
            (endpointsMap
               {| endpointsMap := []; specHosts := []; drawn := 0 |}))
    as Hstart by apply consistent_empty.
  revert Hstart.
  generalize {| endpointsMap := []; specHosts := []; drawn := 0 |}.
  induction set as [|p set IH]; intros st Hst; [done|].
  cbn [fold_left]. apply IH. by apply candidateStep_consistent.
Qed.

(** *** What a manual edit may supersede *)

Lemma withinScope_drop db method host m k entry u' :
  withinScope db method host m → JSObj.get m k = Some entry →
  withinScope db method host (JSObj.set m k (dropSimilar entry u')).
Proof.
  intros Hm Hk k' e u item [[= -> ->]|Hin]%In_set Hitem.
  - simpl in *. apply (Hm k entry); [by apply get_Some_In|].
    by eapply In_del.
  - by eapply Hm.
Qed.

Lemma absorbSimilar_withinScope db method host a m item :
  overlaps db method host a item →
  withinScope db method host m
  ∧ (∃ entry, JSObj.get m (uuid a) = Some entry ∧ endpoint entry = a) →
  withinScope db method host (absorbSimilar a m item)
  ∧ (∃ entry, JSObj.get (absorbSimilar a m item) (uuid a) = Some entry
              ∧ endpoint entry = a).
Proof.
  intros Hitem Hm.
  set (J := λ m', withinScope db method host m'
                  ∧ ∃ entry, JSObj.get m' (uuid a) = Some entry
                             ∧ endpoint entry = a).
  assert (∀ m', J m' →
            match JSObj.get m' (uuid a) with
            | Some entry => J (JSObj.set m' (uuid a) (addSimilar entry item))
            | None => J m'
            end) as Hadd.
  { intros m' [Hscope (entry & Ha & Hend)]. rewrite Ha. split.
    - intros k e u it [[= -> ->]|Hin]%In_set Hit; [|by eapply Hscope].
      simpl in *. apply In_set in Hit as [[= -> ->]|Hit].
      + split; [done|]. by rewrite Hend.
      + apply (Hscope (uuid a) entry); [by apply get_Some_In|done].
    - exists (addSimilar entry item). by rewrite get_set_eq. }
  assert (∀ m' k entry, J m' → JSObj.get m' k = Some entry →
            J (JSObj.set m' k (dropSimilar entry (uuid item)))) as Hdrop.
  { intros m' k entry [Hscope (ea & Ha & Hend)] Hk. split.
    - by apply withinScope_drop.
    - destruct (decide (k = uuid a)) as [->|Hne].
      + exists (dropSimilar entry (uuid item)). rewrite get_set_eq.
        split; [done|]. simpl. congruence.
      + exists ea. by rewrite get_set_ne by done. }
  change (J (absorbSimilar a m item)). unfold absorbSimilar.
  destruct (JSObj.has m (uuid item)).
  - pose proof (Hadd m Hm) as Hx. by destruct (JSObj.get m (uuid a)).
  - pose proof (fold_holderStep_preserves J a item Hdrop (JSObj.keys m) m
                  false Hm) as Hfold.
    destruct (fold_left _ _ _) as [m' b]. simpl in Hfold.
    destruct b; [done|].
    pose proof (Hadd m' Hfold) as Hx. by destruct (JSObj.get m' (uuid a)).
Qed.

Lemma candidateStep_withinScope db method host st path :
  withinScope db method host (endpointsMap st) →
  withinScope db method host
    (endpointsMap (candidateStep db method host st path)).
Proof.
  intros Hst. unfold candidateStep. cbn [endpointsMap].
  set (a := ApiEndpoint.mk (uuidv4 (drawn st)) path (getPathRegex path)
              method host (countParams path) None None None None).
  set (map1 := JSObj.set (endpointsMap st) (uuid a)
                 {| endpoint := a; similarEndpoints := [] |}).
  assert (withinScope db method host map1
          ∧ ∃ entry, JSObj.get map1 (uuid a) = Some entry
                     ∧ endpoint entry = a) as Hmap1.
  { split.
    - intros k e u it [[= -> ->]|Hin]%In_set Hit; [done|by eapply Hst].
    - eexists. unfold map1. by rewrite get_set_eq. }
  assert (Forall (overlaps db method host a)
            (findOverlapping db path (getPathRegex path) method host))
    as Hall.
  { apply Forall_forall. intros item Hin%list_elem_of_In.
    unfold findOverlapping in Hin.
    apply filter_In in Hin as [Hin Hf].
    apply andb_prop in Hf as [[Hm Hme]%andb_prop Hho].
    apply String.eqb_eq in Hme, Hho. by split_and!. }
  revert Hmap1 Hall. generalize map1.
  induction (findOverlapping db path (getPathRegex path) method host)
    as [|item similar IH]; intros m Hm Hall; [by destruct Hm|].
  cbn [fold_left]. apply Forall_cons in Hall as [Hitem Hall].
  apply IH; [|done]. by apply absorbSimilar_withinScope.
Qed.

(** X22: a manual path edit supersedes only stored endpoints of the
    method and host of the edit whose pattern matches the new path, or
    whose path matches the pattern of the new path. *)
Theorem generateEndpointsMap_supersedes_overlapping
    (db : DB.t) (providedPaths : list string) (method host : string)
    (numTokens : nat) (plan : JSObj.obj EndpointsMap) :
  generateEndpointsMap db providedPaths method host numTokens = inr plan →
  ∀ entry item,
    In entry (JSObj.values plan) →
    In item (JSObj.values (similarEndpoints entry)) →
    In item (DB.endpoints db)
    ∧ ApiEndpoint.method item = method
    ∧ ApiEndpoint.host item = host
    ∧ (regexMatch (pathRegex item) (path (endpoint entry))
       || regexMatch (getPathRegex (path (endpoint entry))) (path item))
      = true.
Proof.
  unfold generateEndpointsMap.
  destruct (forEachExc _ _ _) as [e|set]; [done|]. intros [= <-].
  cut (withinScope db method host
         (endpointsMap
            (fold_left (candidateStep db method host) set
               {| endpointsMap := []; specHosts := []; drawn := 0 |}))).
  { intros Hscope entry item ([k e] & <- & Hk)%in_map_iff
      ([u it] & <- & Hu)%in_map_iff.
    simpl. by destruct (Hscope k e u it Hk Hu) as [_ ?]. }
  assert (withinScope db method host
            (endpointsMap
               {| endpointsMap := []; specHosts := []; drawn := 0 |}))
    as Hstart by (intros k e u it []).
  revert Hstart.
  generalize {| endpointsMap := []; specHosts := []; drawn := 0 |}.
  induction set as [|p set IH]; intros st Hst; [done|].
  cbn [fold_left]. apply IH. by apply candidateStep_withinScope.
Qed.

End PlanFacts.

(** * The remaining operations of the spec service *)
Section SpecServiceFacts.
Import ApiEndpoint Resolver SpecService.
Context {SpecObject Server : Type} `{Tools SpecObject Server}.
Variable deleteOpenAPISpecDiffAlerts : string → DB.t → list Alert.t.

Local Abbreviation deleteSpec :=
  (SpecService.deleteSpec deleteOpenAPISpecDiffAlerts).
Local Abbreviation updateSpec :=
  (SpecService.updateSpec deleteOpenAPISpecDiffAlerts).

Lemma find_filter_same {A : Type} (p q : A → bool) l :
  (∀ y, p y = true → q y = true) → find p (List.filter q l) = find p l.
Proof.
  intros Hpq. induction l as [|y l IH]; simpl; [done|].
  destruct (p y) eqn:Ep.
  - rewrite (Hpq y Ep). simpl. by rewrite Ep.
  - destruct (q y); simpl; [by rewrite Ep|done].
Qed.

Lemma deleteSpec_gone fileName db db' :
  deleteSpec fileName db = (inr tt, db') → DB.findSpec db' fileName = None.
Proof.
  unfold SpecService.deleteSpec.
  destruct (DB.findSpec db fileName) as [s|]; [|done].
  destruct (OpenApiSpec.isAutoGenerated s); [done|]. intros [= <-].
  unfold DB.findSpec. simpl. apply find_filter_none.
  intros y ->. done.
Qed.

(** X23: whatever [deleteSpec] raises, it has written nothing; the error
    is a 404, and then no document of that name is stored, or a 409, and
    then the stored document is auto-generated. *)
Theorem deleteSpec_error_changes_nothing
    (fileName : string) (db db' : DB.t) (err : Errors.t) :
  deleteSpec fileName db = (inl err, db') →
  db' = db
  ∧ ((Errors.code err = Some 404%Z ∧ DB.findSpec db fileName = None)
     ∨ (Errors.code err = Some 409%Z
        ∧ ∃ s, DB.findSpec db fileName = Some s
               ∧ OpenApiSpec.isAutoGenerated s = true)).
Proof.
  unfold SpecService.deleteSpec.
  destruct (DB.findSpec db fileName) as [s|].
  - destruct (OpenApiSpec.isAutoGenerated s) eqn:E; [|done].
    intros [= <- <-]. split; [done|]. right. split; [done|]. by exists s.
  - intros [= <- <-]. split; [done|]. by left.
Qed.

(** X24: a successful [deleteSpec] removes a user document, never an
    auto-generated one, and nothing else of the spec table; it keeps every
    endpoint row and leaves no endpoint that names the document; an
    endpoint of another document, or of none, is the row it was; traces,
    data fields and aggregates are untouched. *)
Theorem deleteSpec_detaches_endpoints
    (fileName : string) (db db' : DB.t) :
  deleteSpec fileName db = (inr tt, db') →
  (∃ old, DB.findSpec db fileName = Some old
          ∧ OpenApiSpec.isAutoGenerated old = false)
  ∧ DB.findSpec db' fileName = None
  ∧ (∀ other, other ≠ fileName →
              DB.findSpec db' other = DB.findSpec db other)
  ∧ map uuid (DB.endpoints db') = map uuid (DB.endpoints db)
  ∧ (∀ e, In e (DB.endpoints db') → openapiSpecName e ≠ Some fileName)
  ∧ (∀ e, In e (DB.endpoints db) → openapiSpecName e ≠ Some fileName →
          In e (DB.endpoints db'))
  ∧ DB.traces db' = DB.traces db
  ∧ DB.dataFields db' = DB.dataFields db
  ∧ DB.aggregates db' = DB.aggregates db.
Proof.
  intros Hdel.
  assert (DB.findSpec db' fileName = None) as Hgone
    by (by eapply deleteSpec_gone).
  revert Hdel. unfold SpecService.deleteSpec.
  destruct (DB.findSpec db fileName) as [s|]; [|done].
  destruct (OpenApiSpec.isAutoGenerated s) eqn:Huser; [done|].
  intros [= <-].
  split; [by exists s|]. split; [exact Hgone|]. clear Hgone.
  simpl. split_and!; try done.
  - intros other Hne. unfold DB.findSpec. simpl. apply find_filter_same.
    intros y Hy%String.eqb_eq. subst other.
    by destruct (String.eqb_spec (OpenApiSpec.name y) fileName).
  - rewrite map_map. apply map_ext. intros e.
    by destruct (ownedBy fileName e).
  - intros e (e0 & <- & _)%in_map_iff. unfold ownedBy.
    destruct (openapiSpecName e0) as [n|] eqn:En; [|by rewrite En].
    destruct (String.eqb_spec n fileName) as [->|Hne]; [done|].
    rewrite En. congruence.
  - intros e He Hname. apply in_map_iff. exists e. split; [|done].
    unfold ownedBy. destruct (openapiSpecName e) as [n|]; [|done].
    destruct (String.eqb_spec n fileName) as [->|Hne]; [done|done].
Qed.

(** X25: [updateSpec] is not one transaction.  When it raises, the tables
    are either the ones it was given, or the ones that its committed
    deletion left: the document is gone and the upload that should have
    replaced it has raised. *)
Theorem updateSpec_error_states
    (specObject : SpecObject) (fileName : string) (extension : SpecExtension)
    (specString : string) (currTime : Z) (db db' : DB.t) (err : Errors.t) :
  updateSpec specObject fileName extension specString currTime db
  = (inl err, db') →
  db' = db
  ∨ (deleteSpec fileName db = (inr tt, db')
     ∧ DB.findSpec db' fileName = None
     ∧ uploadNewSpec specObject fileName extension specString currTime db'
       = (inl err, db')).
Proof.
  unfold SpecService.updateSpec.
  destruct (getOpenAPISpecVersion specObject) as [[|v]|];
    [by intros [= _ <-]; left| |by intros [= _ <-]; left].
  destruct (validateSpecSchema specObject None);
    [|by intros [= _ <-]; left].
  destruct (SpecService.deleteSpec _ fileName db) as [[e|[]] db1] eqn:Hdel.
  - intros [= <- <-]. left.
    by destruct (deleteSpec_error_changes_nothing _ _ _ _ Hdel).
  - intros Hup.
    pose proof (upload_error_changes_nothing _ _ _ _ _ _ _ _ Hup) as ->.
    right. split_and!; [done|by eapply deleteSpec_gone|done].
Qed.

(** X26: [updateSpec] can lose a document: when a stored user document
    passes the checks of [updateSpec] and the upload of its replacement
    raises on the tables that the deletion left, [updateSpec] raises the
    error of the upload and the document is no longer stored. *)
Theorem updateSpec_not_atomic
    (specObject : SpecObject) (fileName : string) (extension : SpecExtension)
    (specString : string) (currTime : Z) (db : DB.t) (s : OpenApiSpec.t)
    (err : Errors.t) :
  (∃ v, getOpenAPISpecVersion specObject = Some (S v)) →
  validateSpecSchema specObject None = [] →
  DB.findSpec db fileName = Some s →
  OpenApiSpec.isAutoGenerated s = false →
  (uploadNewSpec specObject fileName extension specString currTime
     (deleteSpec fileName db).2).1 = inl err →
  ∃ db', updateSpec specObject fileName extension specString currTime db
         = (inl err, db')
         ∧ DB.findSpec db' fileName = None
         ∧ DB.findSpec db fileName ≠ None.
Proof.
  intros [v Hv] Hvalid Hfound Huser Hup.
  unfold SpecService.updateSpec. rewrite Hv, Hvalid.
  destruct (SpecService.deleteSpec _ fileName db) as [[e|[]] db1] eqn:Hdel.
  - exfalso. revert Hdel. unfold SpecService.deleteSpec.
    by rewrite Hfound, Huser.
  - simpl in Hup.
    destruct (uploadNewSpec _ _ _ _ _ db1) as [r db2] eqn:Hres.
    simpl in Hup. subst r.
    pose proof (upload_error_changes_nothing _ _ _ _ _ _ _ _ Hres) as ->.
    exists db1. split_and!; [done|by eapply deleteSpec_gone|].
    by rewrite Hfound.
Qed.

(** X27: after a successful [updateSpec] the document is stored as a new
    user document: its creation date is the time of the update, whatever
    it was before. *)
Theorem updateSpec_recreates
    (specObject : SpecObject) (fileName : string) (extension : SpecExtension)
    (specString : string) (currTime : Z) (db db' : DB.t) :
  updateSpec specObject fileName extension specString currTime db
  = (inr tt, db') →
  ∃ old s,
    DB.findSpec db fileName = Some old
    ∧ OpenApiSpec.isAutoGenerated old = false
    ∧ DB.findSpec db' fileName = Some s
    ∧ OpenApiSpec.name s = fileName
    ∧ OpenApiSpec.createdAt s = currTime
    ∧ OpenApiSpec.updatedAt s = currTime
    ∧ OpenApiSpec.isAutoGenerated s = false
    ∧ OpenApiSpec.extension s = extension.
Proof.
  unfold SpecService.updateSpec.
  destruct (getOpenAPISpecVersion specObject) as [[|v]|]; try done.
  destruct (validateSpecSchema specObject None); [|done].
  destruct (SpecService.deleteSpec _ fileName db) as [[e|[]] db1] eqn:Hdel;
    [done|].
  intros Hup.
  destruct (uploadNewSpec_new_row _ _ _ _ _ _ _
              (deleteSpec_gone _ _ _ Hdel) Hup)
    as (s & Hs & Hname & Hcreated & Hupd & Hauto & Hext).
  revert Hdel. unfold SpecService.deleteSpec.
  destruct (DB.findSpec db fileName) as [old|]; [|done].
  destruct (OpenApiSpec.isAutoGenerated old) eqn:Hold; [done|]. intros _.
  exists old, s. by split_and!.
Qed.

(** X28: [getSpecs] lists exactly the stored documents whose origin flag
    is the one asked for, the latest update first. *)
Theorem getSpecs_listing (listAutogenerated : bool) (db : DB.t) :
  (∀ s, In s (getSpecs listAutogenerated db)
        ↔ In s (DB.specs db)
          ∧ OpenApiSpec.isAutoGenerated s = listAutogenerated)
  ∧ StronglySorted
      (λ a b, (OpenApiSpec.updatedAt b ≤ OpenApiSpec.updatedAt a)%Z)
      (getSpecs listAutogenerated db).
Proof.
  unfold getSpecs. split.
  - intros s. rewrite <- !list_elem_of_In.
    rewrite stableSort_Permutation. rewrite !list_elem_of_In.
    rewrite filter_In.
    destruct (OpenApiSpec.isAutoGenerated s), listAutogenerated; simpl;
      split; intros [? ?]; done.
  - apply (stableSort_sorted _ _ (λ _, True)).
    + intros x y z Hxy Hyz. lia.
    + intros x y _ _ Hlt%Z.ltb_lt. lia.
    + intros x y _ _ Hge%Z.ltb_ge. lia.
    + by apply Forall_forall.
Qed.

End SpecServiceFacts.

(** * How the diff reads the request off a trace *)
Section SpecDiffMore.
Import SpecDiff.
Context {SpecObject ParsedSpec J AjvError ReqValidator RespValidator : Type}
        `{Tools SpecObject ParsedSpec J AjvError ReqValidator RespValidator}.

(** X29: of several headers with one name the validator sees the last:
    for a name other than [__proto__] the header object holds the value
    of the last header of the trace with that name, and nothing when no
    header has it; for the name [__proto__] it holds nothing, whatever
    the headers are. *)
Theorem pairsToObject_last_wins (l : list PairObject) (k : string) :
  JSObj.get (pairsToObject l) k
  = if String.eqb k "__proto__"
    then None
    else option_map value (find (λ p, String.eqb (name p) k) (rev l)).
Proof.
  unfold pairsToObject. induction l as [|p l IH] using rev_ind.
  - simpl. by destruct (String.eqb k "__proto__").
  - rewrite fold_left_app, rev_unit. cbn [fold_left find].
    destruct (String.eqb_spec (name p) "__proto__") as [Hp|Hp].
    + rewrite IH. destruct (String.eqb_spec k "__proto__") as [Hk|Hk];
        [done|].
      destruct (String.eqb_spec (name p) k) as [Heq|_]; [congruence|done].
    + destruct (String.eqb_spec (name p) k) as [Heq|Hne].
      * rewrite Heq, get_set_eq.
        destruct (String.eqb_spec k "__proto__") as [Hk|Hk];
          [congruence|done].
      * by rewrite get_set_ne.
Qed.

Lemma own_assign_ne (o : PlainObject.t J) (key k : string) (v : J) :
  key ≠ k →
  JSObj.get (PlainObject.own (PlainObject.assign kindOf o key v)) k
  = JSObj.get (PlainObject.own o) k.
Proof.
  intros Hne. unfold PlainObject.assign.
  destruct (String.eqb key "__proto__" && PlainObject.setterReached kindOf o).
  - by destruct (kindOf v).
  - simpl. by apply get_set_ne.
Qed.

Lemma own_assign_eq (o : PlainObject.t J) (key : string) (v : J) :
  key ≠ "__proto__" →
  JSObj.get (PlainObject.own (PlainObject.assign kindOf o key v)) key
  = Some v.
Proof.
  intros Hne. unfold PlainObject.assign.
  destruct (String.eqb_spec key "__proto__") as [?|_]; [done|].
  simpl. apply get_set_eq.
Qed.

Lemma proto_assign_ne (o : PlainObject.t J) (key : string) (v : J) :
  key ≠ "__proto__" →
  PlainObject.proto (PlainObject.assign kindOf o key v) = PlainObject.proto o.
Proof.
  intros Hne. unfold PlainObject.assign.
  by destruct (String.eqb_spec key "__proto__").
Qed.

(** A primitive assigned to [__proto__] of an object that still has the
    prototype [Object.prototype] and no own property of that name is
    dropped. *)
Lemma assign_primitive_dropped (o : PlainObject.t J) (v : J) :
  JSObj.get (PlainObject.own o) "__proto__" = None →
  PlainObject.proto o = None →
  kindOf v = PlainObject.Primitive →
  PlainObject.assign kindOf o "__proto__" v = o.
Proof.
  intros Hown Hproto Hv.
  unfold PlainObject.assign, PlainObject.setterReached, JSObj.has.
  rewrite Hown, Hproto, Hv. reflexivity.
Qed.

Lemma collectPathParams_reads ets : ∀ tts i acc params,
  collectPathParams ets tts i acc = inr params →
  (∀ k, (∀ tok, tok ∈ ets → isParameter tok = true → sliceInner tok ≠ k) →
        JSObj.get (PlainObject.own params) k
        = JSObj.get (PlainObject.own acc) k)
  ∧ (∀ j tok,
       ets !! j = Some tok → isParameter tok = true →
       sliceInner tok ≠ "__proto__" →
       (∀ j' tok', j < j' → ets !! j' = Some tok' →
                   isParameter tok' = true →
                   sliceInner tok' ≠ sliceInner tok) →
       ∃ v, parsePathParameter (tts !! (i + j)) = inr v
            ∧ JSObj.get (PlainObject.own params) (sliceInner tok) = Some v)
  ∧ ((∀ j tok v,
        ets !! j = Some tok → isParameter tok = true →
        sliceInner tok = "__proto__" →
        parsePathParameter (tts !! (i + j)) = inr v →
        kindOf v = PlainObject.Primitive) →
     JSObj.get (PlainObject.own acc) "__proto__" = None →
     PlainObject.proto acc = None →
     JSObj.get (PlainObject.own params) "__proto__" = None
     ∧ PlainObject.proto params = None).
Proof.
  induction ets as [|tok0 rest IH]; intros tts i acc params; simpl.
  - intros [= <-]. split_and!; [done| |done].
    intros j tok Hj. by destruct j.
  - destruct (isParameter tok0) eqn:Hp0.
    + destruct (parsePathParameter (tts !! i)) as [e|v0] eqn:Hv0; [done|].
      intros Hrest.
      destruct (IH _ _ _ _ Hrest) as (Hother & Hread & Hproto).
      split_and!.
      * intros k Hk. rewrite Hother.
        -- apply own_assign_ne. apply Hk; [by left|done].
        -- intros tok Htok. apply Hk. by right.
      * intros [|j] tok Hj Hp Hnp Hlater.
        -- injection Hj as <-. exists v0. rewrite Nat.add_0_r.
           split; [done|]. rewrite Hother; [by apply own_assign_eq|].
           intros tok' [j' Hj']%list_elem_of_lookup Hp'.
           apply (Hlater (S j') tok'); [lia|done|done].
        -- replace (i + S j) with (S i + j) by lia.
           apply Hread; [done|done|done|].
           intros j' tok' Hlt Hj' Hp'.
           apply (Hlater (S j') tok'); [lia|done|done].
      * intros Hprim Hown Hnone. apply Hproto.
        -- intros j tok v Hj Hp Hn Hv. apply (Hprim (S j) tok v); [done..|].
           by replace (i + S j) with (S i + j) by lia.
        -- destruct (decide (sliceInner tok0 = "__proto__")) as [E|E].
           ++ rewrite E, assign_primitive_dropped; [done..|].
              apply (Hprim 0 tok0 v0); [done..|]. by rewrite Nat.add_0_r.
           ++ by rewrite own_assign_ne.
        -- destruct (decide (sliceInner tok0 = "__proto__")) as [E|E].
           ++ rewrite E, assign_primitive_dropped; [done..|].
              apply (Hprim 0 tok0 v0); [done..|]. by rewrite Nat.add_0_r.
           ++ by rewrite proto_assign_ne.
    + intros Hrest.
      destruct (IH _ _ _ _ Hrest) as (Hother & Hread & Hproto).
      split_and!.
      * intros k Hk. apply Hother. intros tok Htok. apply Hk. by right.
      * intros [|j] tok Hj Hp Hnp Hlater.
        -- injection Hj as <-. congruence.
        -- replace (i + S j) with (S i + j) by lia.
           apply Hread; [done|done|done|].
           intros j' tok' Hlt Hj' Hp'.
           apply (Hlater (S j') tok'); [lia|done|done].
      * intros Hprim Hown Hnone. apply Hproto; [|done|done].
        intros j tok v Hj Hp Hn Hv. apply (Hprim (S j) tok v); [done..|].
        by replace (i + S j) with (S i + j) by lia.
Qed.

(** X30: the path parameters are read by position: when the loop
    succeeds, a placeholder of the endpoint path whose name is not
    [__proto__] and is not repeated by a later placeholder is bound to the
    parse of the trace token at the same index, an index beyond the trace
    path giving the parse of an absent token; only placeholder names are
    bound; and when the placeholders named [__proto__] all have a
    primitive value, that name is not bound and the parameter object
    keeps its prototype. *)
Theorem collectPathParams_positional
    (endpointPathTokens tracePathTokens : list string)
    (params : PlainObject.t J) :
  collectPathParams endpointPathTokens tracePathTokens 0 PlainObject.empty
  = inr params →
  (∀ j tok,
     endpointPathTokens !! j = Some tok → isParameter tok = true →
     sliceInner tok ≠ "__proto__" →
     (∀ j' tok', j < j' → endpointPathTokens !! j' = Some tok' →
                 isParameter tok' = true →
                 sliceInner tok' ≠ sliceInner tok) →
     ∃ v, parsePathParameter (tracePathTokens !! j) = inr v
          ∧ JSObj.get (PlainObject.own params) (sliceInner tok) = Some v)
  ∧ (∀ k, is_Some (JSObj.get (PlainObject.own params) k) →
          ∃ tok, tok ∈ endpointPathTokens ∧ isParameter tok = true
                 ∧ sliceInner tok = k)
  ∧ ((∀ j tok v,
        endpointPathTokens !! j = Some tok → isParameter tok = true →
        sliceInner tok = "__proto__" →
        parsePathParameter (tracePathTokens !! j) = inr v →
        kindOf v = PlainObject.Primitive) →
     JSObj.get (PlainObject.own params) "__proto__" = None
     ∧ PlainObject.proto params = None).
Proof.
  intros Hrun.
  destruct (collectPathParams_reads _ _ _ _ _ Hrun)
    as (Hother & Hread & Hproto).
  split_and!; [exact Hread| |].
  - intros k Hk.
    destruct (existsb
                (λ tok, isParameter tok && String.eqb (sliceInner tok) k)
                endpointPathTokens) eqn:E.
    + apply existsb_exists in E as (tok & Hin & [Hp Heq]%andb_prop).
      exists tok. split_and!; [by apply list_elem_of_In|done|].
      by apply String.eqb_eq.
    + exfalso. rewrite Hother in Hk; [by destruct Hk|].
      intros tok Hin%list_elem_of_In Hp Heq.
      assert (existsb
                (λ tok, isParameter tok && String.eqb (sliceInner tok) k)
                endpointPathTokens = true) as Hex; [|congruence].
      apply existsb_exists. exists tok. split; [done|].
      rewrite Hp. simpl. by apply String.eqb_eq.
  - intros Hprim. by apply Hproto.
Qed.

End SpecDiffMore.

(** * The further properties at work on the samples *)
Import Samples MoreSamples.

Lemma deleteRequest_selection_witness :
  TestEditor.requests (TestEditor.test (TestEditor.deleteRequest 2 editorState))
    !! TestEditor.selectedRequest (TestEditor.deleteRequest 2 editorState)
  = Some "second".
Proof.
  destruct (deleteRequest_selection editorState 2) as [Hkept _].
  - split; simpl; lia.
  - rewrite Hkept; [reflexivity|discriminate].
Defined.

Lemma applyPlan_without_superseded_witness :
  DB.traces (Resolver.applyPlan userSpec plainPlan usersDb)
  = DB.traces usersDb
  ∧ In "e-users"
      (map ApiEndpoint.uuid
         (DB.endpoints (Resolver.applyPlan userSpec plainPlan usersDb)))
  ∧ In "new-0"
      (map ApiEndpoint.uuid
         (DB.endpoints (Resolver.applyPlan userSpec plainPlan usersDb))).
Proof.
  destruct (applyPlan_without_superseded userSpec plainPlan usersDb)
    as (Htraces & _ & _ & _ & Hkept & Hnew).
  - intros item [<-|[]]. reflexivity.
  - split_and!.
    + exact Htraces.
    + apply (Hkept usersIdentity). by left.
    + apply (Hnew {| Resolver.endpoint := firstCandidate;
                     Resolver.similarEndpoints := [] |}). by left.
Defined.

Lemma mergeItem_leaves_no_reference_witness :
  (∀ tr, In tr (DB.traces (Resolver.mergeItem usersDb mergingItem)) →
         ¬ In (ApiTrace.apiEndpointUuid tr) ["e-users"])
  ∧ map ApiTrace.uuid (DB.traces (Resolver.mergeItem usersDb mergingItem))
    = ["t-2"].
Proof.
  pose proof (mergeItem_leaves_no_reference usersDb mergingItem) as Hmerge.
  destruct Hmerge as (Htraces & _ & _ & _ & _ & Hsame & _).
  - discriminate.
  - intros [Heq|[]]. discriminate.
  - split; [exact Htraces|exact Hsame].
Defined.

Lemma uploadNewSpec_stores_spec_witness :
  ∃ s,
    DB.findSpec
      (Resolver.uploadNewSpec oneTemplate "users-v1" JSON "doc" 10 usersDb).2
      "users-v1" = Some s
    ∧ OpenApiSpec.spec s = "doc"
    ∧ OpenApiSpec.createdAt s = 10%Z
    ∧ OpenApiSpec.isAutoGenerated s = false.
Proof.
  destruct (uploadNewSpec_stores_spec oneTemplate "users-v1" JSON "doc" 10
              usersDb
              (Resolver.uploadNewSpec oneTemplate "users-v1" JSON "doc" 10
                 usersDb).2)
    as (s & st & object' & text & Hs & Hnorm & _ & _ & Htext & Hgiven & _ & _
        & _ & Hrow).
  - reflexivity.
  - exists s. destruct Hrow as (Hcreated & Hauto & _).
    split_and!; [exact Hs| |exact Hcreated|exact Hauto].
    rewrite Htext. apply Hgiven. discriminate.
Defined.

Lemma uploadNewSpec_error_kinds_witness :
  ∃ err,
    (Resolver.uploadNewSpec serverless "orders-v2" JSON "" 10 ownedDb).1
    = inl err
    ∧ (Errors.code err = Some 422%Z ∨ Errors.code err = Some 409%Z
       ∨ Errors.code err = Some 500%Z
       ∨ (Resolver.getOpenAPISpecVersion serverless = Some 2
          ∧ Resolver.convertObj serverless = inl err)).
Proof.
  eexists. split; [reflexivity|].
  eapply (uploadNewSpec_error_kinds serverless "orders-v2" JSON "" 10 ownedDb
            ownedDb).
  reflexivity.
Defined.

Lemma updatePaths_error_changes_nothing_witness :
  ∃ err,
    Resolver.updatePaths (Some ["/users/{id}"]) "e-users" usersDb
    = (inl err, usersDb)
    ∧ (Errors.code err = Some 400%Z ∨ Errors.code err = Some 404%Z).
Proof.
  eexists. split; [reflexivity|].
  eapply (updatePaths_error_changes_nothing (Some ["/users/{id}"]) "e-users"
            usersDb usersDb).
  reflexivity.
Defined.

Lemma resolveBatch_single_holder_witness :
  ∃ st, Resolver.resolveBatch usersDb "users-v1" twoTemplates = inr st
        ∧ Plan.singleHolder (Resolver.endpointsMap st).
Proof.
  eexists. split; [reflexivity|].
  apply (resolveBatch_single_holder usersDb "users-v1" twoTemplates).
  reflexivity.
Defined.

Lemma generateEndpointsMap_single_holder_witness :
  ∃ plan,
    Resolver.generateEndpointsMap usersDb ["/users/{a}"; "/users/{b}"] "GET"
      apiHost 2 = inr plan
    ∧ Plan.singleHolder plan.
Proof.
  eexists. split; [reflexivity|].
  apply (generateEndpointsMap_single_holder usersDb
           ["/users/{a}"; "/users/{b}"] "GET" apiHost 2).
  reflexivity.
Defined.

Lemma generateEndpointsMap_supersedes_overlapping_witness :
  ∃ plan,
    Resolver.generateEndpointsMap usersDb ["/users/{a}"; "/users/{b}"] "GET"
      apiHost 2 = inr plan
    ∧ ∀ entry item,
        In entry (JSObj.values plan) →
        In item (JSObj.values (Resolver.similarEndpoints entry)) →
        In item (DB.endpoints usersDb)
        ∧ ApiEndpoint.method item = "GET"
        ∧ ApiEndpoint.host item = apiHost
        ∧ (Resolver.regexMatch (ApiEndpoint.pathRegex item)
             (ApiEndpoint.path (Resolver.endpoint entry))
           || Resolver.regexMatch
                (Resolver.getPathRegex
                   (ApiEndpoint.path (Resolver.endpoint entry)))
                (ApiEndpoint.path item)) = true.
Proof.
  eexists. split; [reflexivity|].
  apply (generateEndpointsMap_supersedes_overlapping usersDb
           ["/users/{a}"; "/users/{b}"] "GET" apiHost 2).
  reflexivity.
Defined.

Lemma deleteSpec_error_changes_nothing_witness :
  ∃ err,
    deleteSpec "auto-v1" mixedDb = (inl err, mixedDb)
    ∧ ((Errors.code err = Some 404%Z ∧ DB.findSpec mixedDb "auto-v1" = None)
       ∨ (Errors.code err = Some 409%Z
          ∧ ∃ s, DB.findSpec mixedDb "auto-v1" = Some s
                 ∧ OpenApiSpec.isAutoGenerated s = true)).
Proof.
  eexists. split; [reflexivity|].
  eapply (deleteSpec_error_changes_nothing dropDiffAlerts "auto-v1" mixedDb
            mixedDb).
  reflexivity.
Defined.

Lemma deleteSpec_detaches_endpoints_witness :
  DB.findSpec (deleteSpec "orders-v1" mixedDb).2 "orders-v1" = None
  ∧ DB.findSpec (deleteSpec "orders-v1" mixedDb).2 "auto-v1" = Some autoSpec
  ∧ map ApiEndpoint.uuid (DB.endpoints (deleteSpec "orders-v1" mixedDb).2)
    = ["e-orders"]
  ∧ ∀ e, In e (DB.endpoints (deleteSpec "orders-v1" mixedDb).2) →
         ApiEndpoint.openapiSpecName e ≠ Some "orders-v1".
Proof.
  destruct (deleteSpec_detaches_endpoints dropDiffAlerts "orders-v1" mixedDb
              (deleteSpec "orders-v1" mixedDb).2)
    as (_ & Hgone & Hothers & Hrows & Hnone & _).
  - reflexivity.
  - split_and!; [exact Hgone| |exact Hrows|exact Hnone].
    rewrite Hothers; [reflexivity|discriminate].
Defined.

Lemma updateSpec_error_states_witness :
  ∃ err,
    (updateSpec serverless "orders-v1" 10 ownedDb).1 = inl err
    ∧ ((updateSpec serverless "orders-v1" 10 ownedDb).2 = ownedDb
       ∨ (deleteSpec "orders-v1" ownedDb
          = (inr tt, (updateSpec serverless "orders-v1" 10 ownedDb).2)
          ∧ DB.findSpec (updateSpec serverless "orders-v1" 10 ownedDb).2
              "orders-v1" = None
          ∧ Resolver.uploadNewSpec serverless "orders-v1" JSON "" 10
              (updateSpec serverless "orders-v1" 10 ownedDb).2
            = (inl err, (updateSpec serverless "orders-v1" 10 ownedDb).2))).
Proof.
  eexists. split; [reflexivity|].
  eapply (updateSpec_error_states dropDiffAlerts serverless "orders-v1" JSON
            "" 10 ownedDb).
  reflexivity.
Defined.

Lemma updateSpec_not_atomic_witness :
  ∃ err db',
    updateSpec serverless "orders-v1" 10 ownedDb = (inl err, db')
    ∧ DB.findSpec db' "orders-v1" = None
    ∧ DB.findSpec ownedDb "orders-v1" ≠ None.
Proof.
  eexists.
  eapply (updateSpec_not_atomic dropDiffAlerts serverless "orders-v1" JSON ""
            10 ownedDb userSpec).
  - by exists 2.
  - reflexivity.
  - reflexivity.
  - reflexivity.
  - reflexivity.
Defined.

Lemma updateSpec_recreates_witness :
  ∃ old s,
    DB.findSpec ownedDb "orders-v1" = Some old
    ∧ OpenApiSpec.isAutoGenerated old = false
    ∧ DB.findSpec (updateSpec ordersV2 "orders-v1" 10 ownedDb).2 "orders-v1"
      = Some s
    ∧ OpenApiSpec.name s = "orders-v1"
    ∧ OpenApiSpec.createdAt s = 10%Z
    ∧ OpenApiSpec.updatedAt s = 10%Z
    ∧ OpenApiSpec.isAutoGenerated s = false
    ∧ OpenApiSpec.extension s = JSON.
Proof.
  apply (updateSpec_recreates dropDiffAlerts ordersV2 "orders-v1" JSON "" 10
           ownedDb).
  reflexivity.
Defined.

Lemma collectPathParams_positional_witness :
  ∃ v,
    @SpecDiff.parsePathParameter _ _ _ _ _ _ (diffTools ownedDb)
      (["orders"; "5"] !! 1) = inr v
    ∧ JSObj.get [("id", "5")] "id" = Some v.
Proof.
  destruct (@collectPathParams_positional _ _ _ _ _ _ (diffTools ownedDb)
              ["orders"; "{id}"] ["orders"; "5"]
              {| PlainObject.own := [("id", "5")];
                 PlainObject.proto := None |})
    as [Hread _].
  - reflexivity.
  - apply (Hread 1 "{id}").
    + reflexivity.
    + reflexivity.
    + discriminate.
    + intros [|[|[|j']]] tok' Hlt Hj'; simpl in Hj'; try lia; discriminate.
Defined.

